(** * gtxr: a shallow embedding of [bin/gitauto.js]

    The program is a sequential command-line tool: it shells out to [git],
    prints coloured lines on the console, reads and writes one JSON file and
    parses its own command line.  The embedding keeps that shape:

    - A JavaScript string is held as the [string] of its UTF-8 bytes (a
      surrogate that has no partner, which UTF-16 allows, as the three bytes
      the same scheme gives it).  [includes] and [startsWith] compare bytes,
      which on UTF-8 is the comparison of the characters.  [trim] removes
      the white space of ECMAScript, full width and no-break spaces
      included, and [slice] counts UTF-16 code units.  [toLowerCase] maps
      [A]-[Z] only: the program never prints a lower-cased string, it only
      compares it with ASCII words or searches it for them, and no other
      character becomes a letter of one of these words when it is
      lower-cased (U+212A becomes [k], which none of them has, and U+0130
      becomes [i] followed by U+0307, which none of them has after an [i]).
    - Effects are explicit: a computation is a function from a state to an
      outcome (normal return, [process.exit], or a thrown exception) and a new
      state.  Every subprocess run and every console line is appended to a
      trace, so "exactly one push" is a statement about that trace.
    - The external world (the [git] binary, the file system) is a parameter:
      subprocesses are answered by an arbitrary deterministic state machine
      (class [Subprocess]), the file system is a finite map from paths to
      nodes. *)

From Stdlib Require Import ZArith Lia Bool Ascii String List.
From stdpp Require Import base option list strings gmap.
Import ListNotations.

Set Default Proof Using "Type".
Set Warnings "-register-all".

(** String concatenation computes under [simpl]. *)
#[local] Arguments String.append !s1 s2 : simpl nomatch.

(* ===================================================================== *)
(** * Part I: the model                                                    *)
(* ===================================================================== *)

(** ** JavaScript string primitives *)

Definition is_upper (c : ascii) : bool :=
  let n := N_of_ascii c in (65 <=? n)%N && (n <=? 90)%N.

Definition lower_char (c : ascii) : ascii :=
  if is_upper c then ascii_of_N (N_of_ascii c + 32) else c.

(** [String.prototype.toLowerCase] *)
Fixpoint toLowerCase (s : string) : string :=
  match s with
  | EmptyString => EmptyString
  | String c s' => String (lower_char c) (toLowerCase s')
  end.

(** [String.prototype.startsWith] *)
Fixpoint startsWith (s p : string) {struct p} : bool :=
  match p, s with
  | EmptyString, _ => true
  | String _ _, EmptyString => false
  | String a p', String b s' => if Ascii.eqb a b then startsWith s' p' else false
  end.

(** [String.prototype.includes]: [needle] occurs somewhere in [s]. *)
Fixpoint includes (s needle : string) : bool :=
  startsWith s needle ||
  match s with
  | EmptyString => false
  | String _ s' => includes s' needle
  end.

Definition is_empty (s : string) : bool :=
  match s with EmptyString => true | _ => false end.

Definition code (c : ascii) : N := N_of_ascii c.
Definition str1 (n : N) : string := String (ascii_of_N n) EmptyString.

(** The bytes of the code point [u] in UTF-8 (for a surrogate, the three
    bytes of the same scheme). *)
Definition utf8 (u : N) : string :=
  if (u <? 128)%N then str1 u
  else if (u <? 2048)%N then
    String (ascii_of_N (192 + u / 64)) (str1 (128 + u mod 64))
  else if (u <? 65536)%N then
    String (ascii_of_N (224 + u / 4096))
      (String (ascii_of_N (128 + (u / 64) mod 64)) (str1 (128 + u mod 64)))
  else
    String (ascii_of_N (240 + u / 262144))
      (String (ascii_of_N (128 + (u / 4096) mod 64))
         (String (ascii_of_N (128 + (u / 64) mod 64)) (str1 (128 + u mod 64)))).

(** The code points [trim] removes: WhiteSpace and LineTerminator of
    ECMAScript, that is U+0009 to U+000D, U+0020, U+00A0, U+1680, U+2000 to
    U+200A, U+2028, U+2029, U+202F, U+205F, U+3000 and U+FEFF. *)
Definition white_space : list string :=
  map utf8
    [ 9; 10; 11; 12; 13; 32; 160; 5760;
      8192; 8193; 8194; 8195; 8196; 8197; 8198; 8199; 8200; 8201; 8202;
      8232; 8233; 8239; 8287; 12288; 65279 ]%N.

Definition is_space (u : string) : bool := existsb (String.eqb u) white_space.

(** [String.prototype.trimStart]: a white-space character takes one, two or
    three bytes. *)
Fixpoint trimStart (s : string) : string :=
  match s with
  | EmptyString => EmptyString
  | String a s1 =>
      if is_space (String a EmptyString) then trimStart s1
      else
        match s1 with
        | EmptyString => s
        | String b s2 =>
            if is_space (String a (String b EmptyString)) then trimStart s2
            else
              match s2 with
              | EmptyString => s
              | String c s3 =>
                  if is_space (String a (String b (String c EmptyString)))
                  then trimStart s3
                  else s
              end
        end
  end.

(** [String.prototype.trimEnd]: what is left of [s] is cut where nothing
    but white space follows. *)
Fixpoint trimEnd (s : string) : string :=
  match s with
  | EmptyString => EmptyString
  | String c s' =>
      if is_empty (trimStart s) then EmptyString else String c (trimEnd s')
  end.

(** [String.prototype.trim] *)
Definition trim (s : string) : string := trimEnd (trimStart s).

(** The idiom that replaces [null], [undefined] and the empty string by the
    empty string before a string method is called. *)
Definition or_empty (o : option string) : string :=
  match o with
  | Some s => s
  | None => EmptyString
  end.

(** Template-literal rendering of a value that may be [undefined]. *)
Definition render (o : option string) : string :=
  match o with
  | Some s => s
  | None => "undefined"
  end.

(** ** Outcomes and the state monad *)

Inductive Exn : Type :=
  | FsError (code : string)
  | SyntaxError.

Inductive Res (A : Type) : Type :=
  | Ret (a : A)
  | Exit (code : Z)
  | Throw (e : Exn).
Arguments Ret {A} a.
Arguments Exit {A} code.
Arguments Throw {A} e.

Definition M (St A : Type) : Type := St -> Res A * St.

Definition ret {St A} (a : A) : M St A := fun s => (Ret a, s).

Definition bind {St A B} (m : M St A) (k : A -> M St B) : M St B :=
  fun s =>
    match m s with
    | (Ret a, s') => k a s'
    | (Exit c, s') => (Exit c, s')
    | (Throw e, s') => (Throw e, s')
    end.

(** [process.exit(code)] *)
Definition exit {St A} (code : Z) : M St A := fun s => (Exit code, s).

(** [throw e] *)
Definition throw {St A} (e : Exn) : M St A := fun s => (Throw e, s).

(** [try { m } catch (_) { h }] *)
Definition try_catch {St A} (m : M St A) (h : M St A) : M St A :=
  fun s =>
    match m s with
    | (Throw _, s') => h s'
    | r => r
    end.

Declare Scope js_scope.
Delimit Scope js_scope with js.
Notation "x <- m ;; k" := (bind m (fun x => k))
  (at level 100, m at next level, right associativity) : js_scope.
Notation "m ;; k" := (bind m (fun _ => k))
  (at level 100, right associativity) : js_scope.
Open Scope js_scope.

(** ** The observable world *)

Inductive Event : Type :=
  | Spawn (cmd : string) (args : list string)
  | ConsoleLog (line : string).

(** What [child_process.spawnSync] hands back: [status] is [null] when the
    child was killed by a signal or could not be started, the streams are
    [null] when the child could not be started. *)
Record SpawnSyncReturns : Type := mkSpawn {
  status : option Z;
  raw_stdout : option string;
  raw_stderr : option string;
}.

(** The machine the subprocesses run on: any deterministic state machine. *)
Class Subprocess (Sys : Type) : Type :=
  spawnSync : string -> list string -> Sys -> SpawnSyncReturns * Sys.

Record World (Sys : Type) : Type := mkWorld {
  sys : Sys;
  trace : list Event;
}.
Arguments mkWorld {Sys} sys trace.
Arguments sys {Sys} w.
Arguments trace {Sys} w.

(** The world after the events [evs] have been observed. *)
Definition after {Sys} (w : World Sys) (evs : list Event) : World Sys :=
  mkWorld (sys w) (trace w ++ evs).

(** ** Console *)

Definition ESC : string := String (ascii_of_nat 27) EmptyString.

Definition C_reset : string := ESC +:+ "[0m".
Definition C_red : string := ESC +:+ "[91m".
Definition C_green : string := ESC +:+ "[92m".
Definition C_yellow : string := ESC +:+ "[93m".
Definition C_cyan : string := ESC +:+ "[96m".

Definition ok_line (msg : string) : string := C_green +:+ "✓ " +:+ msg +:+ C_reset.
Definition info_line (msg : string) : string := C_cyan +:+ "ℹ " +:+ msg +:+ C_reset.
Definition warn_line (msg : string) : string := C_yellow +:+ "⚠ " +:+ msg +:+ C_reset.
Definition err_line (msg : string) : string := C_red +:+ "✗ " +:+ msg +:+ C_reset.

Definition console_log {Sys} (line : string) : M (World Sys) unit :=
  fun w => (Ret tt, after w [ConsoleLog line]).

(** The four loggers [ok], [info], [warn] and [err] of the source; they live
    in a module because [ok] is also the name of a field of a git result. *)
Module Console.
Definition ok {Sys} (msg : string) : M (World Sys) unit := console_log (ok_line msg).
Definition info {Sys} (msg : string) : M (World Sys) unit := console_log (info_line msg).
Definition warn {Sys} (msg : string) : M (World Sys) unit := console_log (warn_line msg).
Definition err {Sys} (msg : string) : M (World Sys) unit := console_log (err_line msg).
End Console.
Import Console.

(** ** Git helpers *)

Record GitResult : Type := mkGit {
  ok : bool;
  stdout : string;
  stderr : string;
}.

(** [spawnSync] checks its arguments before it starts anything: a string
    that holds U+0000 is refused with a [TypeError]. *)
Definition has_nul (s : string) : bool := includes s (str1 0).

Definition spawnable (args : list string) : bool :=
  forallb (fun a => negb (has_nul a)) args.

(** The pure part of [git(...args)]: shaping what [spawnSync] returned. *)
Definition git_result (r : SpawnSyncReturns) : GitResult :=
  {| ok := match status r with Some 0%Z => true | _ => false end;
     stdout := trim (or_empty (raw_stdout r));
     stderr := trim (or_empty (raw_stderr r)) |}.

Definition no_upstream (e : string) : bool :=
  includes e "no upstream" || includes e "has no upstream".

Definition rejected (e : string) : bool :=
  existsb (fun k => includes (toLowerCase e) k)
          ["fetch first"; "non-fast-forward"; "rejected"].

(** A thrown value as [handleAiError] sees it: only [message] is read. *)
Record JsError : Type := mkError { message : option string }.

(** ** Command-line options *)

Record Opts : Type := mkOpts {
  version : bool;
  help : bool;
  setup : bool;
  upgrade : bool;
  uninstall : bool;
  noPush : bool;
  noAi : bool;
  forcePush : bool;
  branch : option string;
}.

Definition default_opts : Opts :=
  mkOpts false false false false false false false false None.

Definition set_version (o : Opts) : Opts :=
  mkOpts true (help o) (setup o) (upgrade o) (uninstall o) (noPush o) (noAi o) (forcePush o) (branch o).
Definition set_help (o : Opts) : Opts :=
  mkOpts (version o) true (setup o) (upgrade o) (uninstall o) (noPush o) (noAi o) (forcePush o) (branch o).
Definition set_setup (o : Opts) : Opts :=
  mkOpts (version o) (help o) true (upgrade o) (uninstall o) (noPush o) (noAi o) (forcePush o) (branch o).
Definition set_upgrade (o : Opts) : Opts :=
  mkOpts (version o) (help o) (setup o) true (uninstall o) (noPush o) (noAi o) (forcePush o) (branch o).
Definition set_uninstall (o : Opts) : Opts :=
  mkOpts (version o) (help o) (setup o) (upgrade o) true (noPush o) (noAi o) (forcePush o) (branch o).
Definition set_noPush (o : Opts) : Opts :=
  mkOpts (version o) (help o) (setup o) (upgrade o) (uninstall o) true (noAi o) (forcePush o) (branch o).
Definition set_noAi (o : Opts) : Opts :=
  mkOpts (version o) (help o) (setup o) (upgrade o) (uninstall o) (noPush o) true (forcePush o) (branch o).
Definition set_forcePush (o : Opts) : Opts :=
  mkOpts (version o) (help o) (setup o) (upgrade o) (uninstall o) (noPush o) (noAi o) true (branch o).
Definition set_branch (name : string) (o : Opts) : Opts :=
  mkOpts (version o) (help o) (setup o) (upgrade o) (uninstall o) (noPush o) (noAi o) (forcePush o) (Some name).

Definition VALID_ARGS : gset string :=
  list_to_set
    [ "-v"; "--version"; "-h"; "--help";
      "setup"; "upgrade"; "uninstall";
      "--no-push"; "--no-ai"; "--force-push";
      "--branch"; "-b" ].

(** [VALID_ARGS.has(a)] *)
Definition has (a : string) : bool := bool_decide (a ∈ VALID_ARGS).

Section Program.
Context {Sys : Type} `{Subprocess Sys}.

Local Abbreviation IO := (M (World Sys)).

(** [git(...args)] on arguments that [spawnSync] accepts ([spawnable]):
    the streams are trimmed and [ok] tells whether the status is 0.  The
    workflow, which passes on what was typed or generated, checks the
    arguments first and throws as [spawnSync] does (see [checked]). *)
Definition git (args : list string) : IO GitResult :=
  fun w =>
    let (r, s') := spawnSync "git" args (sys w) in
    (Ret (git_result r), mkWorld s' (trace w ++ [Spawn "git" args])).

Definition getCurrentBranch : IO string :=
  r <- git ["branch"; "--show-current"] ;;
  ret (if ok r then stdout r else "main").

(** ** AI failure reporting *)

Definition handleAiError (provider : string) (error : JsError) : IO unit :=
  let msg := toLowerCase (or_empty (message error)) in
  if includes msg "credit" || includes msg "quota" || includes msg "insufficient" then
    err "AI API credits exhausted." ;;
    (if String.eqb provider "anthropic"
     then info "Billing: https://console.anthropic.com/settings/billing"
     else ret tt) ;;
    (if String.eqb provider "openai"
     then info "Billing: https://platform.openai.com/account/billing"
     else ret tt) ;;
    info "Or skip AI with: gtxr --no-ai"
  else if includes msg "invalid" || includes msg "auth" || includes msg "401" then
    err "Invalid API key. Reconfigure with: gtxr setup"
  else if includes msg "rate" || includes msg "429" then
    err "Rate limit hit. Wait a moment and retry, or use: gtxr --no-ai"
  else
    err ("AI generation failed: " +:+ render (message error)).

(** ** Push logic *)

Definition push (branch : string) (forcePush : bool) : IO bool :=
  if forcePush then
    warn "Force pushing — this overwrites remote history." ;;
    r <- git ["push"; "--force"; "origin"; branch] ;;
    if ok r then Console.ok ("Force-pushed to origin/" +:+ branch) ;; ret true
    else err ("Force push failed: " +:+ stderr r) ;; ret false
  else
    info ("Pushing to origin/" +:+ branch +:+ "...") ;;
    r <- git ["push"; "origin"; branch] ;;
    if ok r then Console.ok ("Pushed to origin/" +:+ branch) ;; ret true
    else if no_upstream (stderr r) then
      info "New branch — setting upstream automatically..." ;;
      r <- git ["push"; "--set-upstream"; "origin"; branch] ;;
      if ok r then Console.ok ("Pushed and upstream set for origin/" +:+ branch) ;; ret true
      else err ("Failed to set upstream: " +:+ stderr r) ;; ret false
    else if rejected (stderr r) then
      info "Remote has new commits — rebasing automatically..." ;;
      rebase <- git ["pull"; "--rebase"; "origin"; branch] ;;
      if negb (ok rebase) then
        err "Auto-rebase failed — conflicts need manual resolution." ;;
        info "Your repo is in rebase state. To resolve:" ;;
        info "  1. Open conflicted files and fix the markers" ;;
        info "  2. git add ." ;;
        info "  3. git rebase --continue" ;;
        info ("  4. git push origin " +:+ branch) ;;
        info "  Or to cancel: git rebase --abort" ;;
        ret false
      else
        r <- git ["push"; "origin"; branch] ;;
        if ok r then Console.ok ("Pushed to origin/" +:+ branch +:+ " after rebase.") ;; ret true
        else err ("Push failed after rebase: " +:+ stderr r) ;; ret false
    else
      err ("Push failed: " +:+ stderr r) ;; ret false.

(** ** Branch switching *)

Definition switchBranch (name : string) : IO string :=
  r <- git ["checkout"; name] ;;
  if ok r then Console.ok ("Switched to branch: " +:+ name) ;; ret name
  else
    info ("Branch '" +:+ name +:+ "' not found — creating it...") ;;
    r <- git ["checkout"; "-b"; name] ;;
    if ok r then Console.ok ("Created and switched to: " +:+ name) ;; ret name
    else
      err ("Could not switch/create branch '" +:+ name +:+ "': " +:+ stderr r) ;;
      getCurrentBranch.

(** ** Argument parser *)

(** The [while (i < args.length)] loop, as a recursion on the tokens that are
    still to be read; [opts] is the record being filled in. *)
Fixpoint parse_loop (args : list string) (opts : Opts) : IO Opts :=
  match args with
  | [] => ret opts
  | arg :: rest =>
      let a := toLowerCase arg in
      if negb (has a) then
        err ("Unknown argument: '" +:+ arg +:+ "'") ;;
        info "Run 'gtxr --help' to see valid commands." ;;
        exit 1
      else if String.eqb a "-v" || String.eqb a "--version" then parse_loop rest (set_version opts)
      else if String.eqb a "-h" || String.eqb a "--help" then parse_loop rest (set_help opts)
      else if String.eqb a "setup" then parse_loop rest (set_setup opts)
      else if String.eqb a "upgrade" then parse_loop rest (set_upgrade opts)
      else if String.eqb a "uninstall" then parse_loop rest (set_uninstall opts)
      else if String.eqb a "--no-push" then parse_loop rest (set_noPush opts)
      else if String.eqb a "--no-ai" then parse_loop rest (set_noAi opts)
      else if String.eqb a "--force-push" then parse_loop rest (set_forcePush opts)
      else if String.eqb a "--branch" || String.eqb a "-b" then
        match rest with
        | [] => err "--branch requires a branch name." ;; exit 1
        | name :: rest' => parse_loop rest' (set_branch name opts)
        end
      else parse_loop rest opts
  end.

Definition parseArgs (argv : list string) : IO Opts :=
  parse_loop (skipn 2 argv) default_opts.

End Program.

(** ** JSON

    The values [JSON.parse] builds and [JSON.stringify] prints.  A number is
    kept as the text of its literal; the members of an object are kept in
    the order of their first occurrence. *)

Inductive json : Type :=
  | JNull
  | JBool (b : bool)
  | JNumber (lexeme : string)
  | JString (s : string)
  | JArray (items : list json)
  | JObject (members : list (string * json)).

Definition LF : string := str1 10.
Definition DQ : string := str1 34.

Definition hex_digit (n : N) : ascii :=
  if (n <? 10)%N then ascii_of_N (48 + n) else ascii_of_N (87 + n).

(** [QuoteJSONString], one character at a time. *)
Definition escape_char (c : ascii) : string :=
  let n := code c in
  if (n =? 8)%N then "\b"
  else if (n =? 9)%N then "\t"
  else if (n =? 10)%N then "\n"
  else if (n =? 12)%N then "\f"
  else if (n =? 13)%N then "\r"
  else if (n =? 34)%N then "\" +:+ DQ
  else if (n =? 92)%N then "\\"
  else if (n <? 32)%N then
    "\u00" +:+ String (hex_digit (n / 16)) (String (hex_digit (n mod 16)) EmptyString)
  else String c EmptyString.

Fixpoint escape (s : string) : string :=
  match s with
  | EmptyString => EmptyString
  | String c s' => escape_char c +:+ escape s'
  end.

Definition quote (s : string) : string := DQ +:+ escape s +:+ DQ.

Fixpoint join (sep : string) (parts : list string) : string :=
  match parts with
  | [] => EmptyString
  | [p] => p
  | p :: rest => p +:+ sep +:+ join sep rest
  end.

(** [SerializeJSONProperty] with a gap of two spaces; [ind] is the current
    indentation. *)
Fixpoint serialize (ind : string) (v : json) : string :=
  match v with
  | JNull => "null"
  | JBool true => "true"
  | JBool false => "false"
  | JNumber lexeme => lexeme
  | JString s => quote s
  | JArray items =>
      match items with
      | [] => "[]"
      | _ =>
          let ind' := ind +:+ "  " in
          "[" +:+ LF +:+ ind' +:+
          join ("," +:+ LF +:+ ind') (map (serialize ind') items) +:+
          LF +:+ ind +:+ "]"
      end
  | JObject members =>
      match members with
      | [] => "{}"
      | _ =>
          let ind' := ind +:+ "  " in
          "{" +:+ LF +:+ ind' +:+
          join ("," +:+ LF +:+ ind')
               (map (fun kv => quote (fst kv) +:+ ": " +:+ serialize ind' (snd kv)) members) +:+
          LF +:+ ind +:+ "}"
      end
  end.

(** [JSON.stringify(value, null, 2)] *)
Definition JSON_stringify (v : json) : string := serialize EmptyString v.

(** *** Parsing *)

Definition is_json_ws (c : ascii) : bool :=
  let n := code c in
  (n =? 9)%N || (n =? 10)%N || (n =? 13)%N || (n =? 32)%N.

Fixpoint skip_ws (s : string) : string :=
  match s with
  | EmptyString => EmptyString
  | String c s' => if is_json_ws c then skip_ws s' else s
  end.

Definition is_digit (c : ascii) : bool :=
  let n := code c in (48 <=? n)%N && (n <=? 57)%N.

Definition hex_val (c : ascii) : option N :=
  let n := code c in
  if (48 <=? n)%N && (n <=? 57)%N then Some (n - 48)%N
  else if (97 <=? n)%N && (n <=? 102)%N then Some (n - 87)%N
  else if (65 <=? n)%N && (n <=? 70)%N then Some (n - 55)%N
  else None.

Definition hex4 (a b c d : ascii) : option N :=
  match hex_val a, hex_val b, hex_val c, hex_val d with
  | Some x, Some y, Some z, Some w => Some (((x * 16 + y) * 16 + z) * 16 + w)%N
  | _, _, _, _ => None
  end.

(** The two halves of a character outside the basic plane, as [\uXXXX]
    escapes give them, and the code point they stand for together. *)
Definition is_high (u : N) : bool := (55296 <=? u)%N && (u <? 56320)%N.
Definition is_low (u : N) : bool := (56320 <=? u)%N && (u <? 57344)%N.
Definition pair_point (high low : N) : N :=
  (65536 + (high - 55296) * 1024 + (low - 56320))%N.

Definition unescape (e : ascii) : option ascii :=
  let n := code e in
  if (n =? 34)%N then Some (ascii_of_N 34)
  else if (n =? 92)%N then Some (ascii_of_N 92)
  else if (n =? 47)%N then Some (ascii_of_N 47)
  else if (n =? 98)%N then Some (ascii_of_N 8)
  else if (n =? 102)%N then Some (ascii_of_N 12)
  else if (n =? 110)%N then Some (ascii_of_N 10)
  else if (n =? 114)%N then Some (ascii_of_N 13)
  else if (n =? 116)%N then Some (ascii_of_N 9)
  else None.

(** The characters of a string literal, read from just after the opening
    quote up to and including the closing one.  A [\uXXXX] escape of a high
    surrogate that is followed by one of a low surrogate is one character. *)
Fixpoint parse_chars (s : string) : option (string * string) :=
  match s with
  | EmptyString => None
  | String c s1 =>
      if (code c =? 34)%N then Some (EmptyString, s1)
      else if (code c =? 92)%N then
        match s1 with
        | EmptyString => None
        | String e s2 =>
            if (code e =? 117)%N then
              match s2 with
              | String h1 (String h2 (String h3 (String h4 s3))) =>
                  match hex4 h1 h2 h3 h4 with
                  | None => None
                  | Some u =>
                      let single :=
                        match parse_chars s3 with
                        | Some (body, rest) => Some (utf8 u +:+ body, rest)
                        | None => None
                        end in
                      if is_high u then
                        match s3 with
                        | String b (String e' (String l1 (String l2 (String l3 (String l4 s4))))) =>
                            if (code b =? 92)%N && (code e' =? 117)%N then
                              match hex4 l1 l2 l3 l4 with
                              | Some l =>
                                  if is_low l then
                                    match parse_chars s4 with
                                    | Some (body, rest) =>
                                        Some (utf8 (pair_point u l) +:+ body, rest)
                                    | None => None
                                    end
                                  else single
                              | None => single
                              end
                            else single
                        | _ => single
                        end
                      else single
                  end
              | _ => None
              end
            else
              match unescape e, parse_chars s2 with
              | Some ch, Some (body, rest) => Some (String ch body, rest)
              | _, _ => None
              end
        end
      else if (code c <? 32)%N then None
      else
        match parse_chars s1 with
        | Some (body, rest) => Some (String c body, rest)
        | None => None
        end
  end.

Fixpoint span_digits (s : string) : string * string :=
  match s with
  | EmptyString => (EmptyString, EmptyString)
  | String c s' =>
      if is_digit c then let (ds, rest) := span_digits s' in (String c ds, rest)
      else (EmptyString, s)
  end.

(** [digits+], or nothing. *)
Definition digits1 (s : string) : option (string * string) :=
  let (ds, rest) := span_digits s in
  if is_empty ds then None else Some (ds, rest).

Definition parse_sign (s : string) : string * string :=
  match s with
  | String c s' => if (code c =? 45)%N then (String c EmptyString, s') else (EmptyString, s)
  | EmptyString => (EmptyString, s)
  end.

Definition parse_int (s : string) : option (string * string) :=
  match s with
  | String c s' =>
      if (code c =? 48)%N then Some (String c EmptyString, s')
      else if is_digit c then let (ds, rest) := span_digits s' in Some (String c ds, rest)
      else None
  | EmptyString => None
  end.

Definition parse_frac (s : string) : option (string * string) :=
  match s with
  | String c s' =>
      if (code c =? 46)%N then
        match digits1 s' with
        | Some (ds, rest) => Some (String c ds, rest)
        | None => None
        end
      else Some (EmptyString, s)
  | EmptyString => Some (EmptyString, s)
  end.

Definition parse_exp (s : string) : option (string * string) :=
  match s with
  | String c s' =>
      if (code c =? 101)%N || (code c =? 69)%N then
        let (sg, s'') :=
          match s' with
          | String d t =>
              if (code d =? 43)%N || (code d =? 45)%N then (String d EmptyString, t)
              else (EmptyString, s')
          | EmptyString => (EmptyString, s')
          end in
        match digits1 s'' with
        | Some (ds, rest) => Some (String c (sg +:+ ds), rest)
        | None => None
        end
      else Some (EmptyString, s)
  | EmptyString => Some (EmptyString, s)
  end.

(** A number literal: its text and what follows it. *)
Definition parse_number (s : string) : option (string * string) :=
  let (sg, s1) := parse_sign s in
  match parse_int s1 with
  | Some (i, s2) =>
      match parse_frac s2 with
      | Some (f, s3) =>
          match parse_exp s3 with
          | Some (e, s4) => Some (sg +:+ i +:+ f +:+ e, s4)
          | None => None
          end
      | None => None
      end
  | None => None
  end.

Fixpoint drop_chars (n : nat) (s : string) : string :=
  match n, s with
  | S n', String _ s' => drop_chars n' s'
  | _, _ => s
  end.

(** Defining a property of an object: a repeated key keeps its place and
    takes the later value. *)
Fixpoint set_member (k : string) (v : json) (ms : list (string * json)) : list (string * json) :=
  match ms with
  | [] => [(k, v)]
  | (k', v') :: rest =>
      if String.eqb k k' then (k, v) :: rest else (k', v') :: set_member k v rest
  end.

(** The grammar of RFC 8259 by recursive descent.  [fuel] bounds the number
    of nested calls; two nested calls in a row read at least one character,
    so twice the length of the text is always enough (lemma
    [parse_fuel_enough]). *)
Fixpoint parse_value (fuel : nat) (s : string) : option (json * string) :=
  match fuel with
  | O => None
  | S f =>
      match s with
      | EmptyString => None
      | String c s' =>
          let n := code c in
          if (n =? 34)%N then
            match parse_chars s' with
            | Some (str, rest) => Some (JString str, rest)
            | None => None
            end
          else if (n =? 123)%N then
            match skip_ws s' with
            | String c1 s1 =>
                if (code c1 =? 125)%N then Some (JObject [], s1)
                else parse_members f (String c1 s1) []
            | EmptyString => None
            end
          else if (n =? 91)%N then
            match skip_ws s' with
            | String c1 s1 =>
                if (code c1 =? 93)%N then Some (JArray [], s1)
                else parse_elements f (String c1 s1) []
            | EmptyString => None
            end
          else if startsWith s "true" then Some (JBool true, drop_chars 4 s)
          else if startsWith s "false" then Some (JBool false, drop_chars 5 s)
          else if startsWith s "null" then Some (JNull, drop_chars 4 s)
          else
            match parse_number s with
            | Some (lexeme, rest) => Some (JNumber lexeme, rest)
            | None => None
            end
      end
  end
with parse_members (fuel : nat) (s : string) (acc : list (string * json))
  : option (json * string) :=
  match fuel with
  | O => None
  | S f =>
      match s with
      | EmptyString => None
      | String c s1 =>
          if negb (code c =? 34)%N then None
          else
            match parse_chars s1 with
            | None => None
            | Some (k, s2) =>
                match skip_ws s2 with
                | EmptyString => None
                | String c2 s3 =>
                    if negb (code c2 =? 58)%N then None
                    else
                      match parse_value f (skip_ws s3) with
                      | None => None
                      | Some (v, s4) =>
                          let acc' := set_member k v acc in
                          match skip_ws s4 with
                          | EmptyString => None
                          | String c3 s5 =>
                              if (code c3 =? 44)%N then parse_members f (skip_ws s5) acc'
                              else if (code c3 =? 125)%N then Some (JObject acc', s5)
                              else None
                          end
                      end
                end
            end
      end
  end
with parse_elements (fuel : nat) (s : string) (acc : list json)
  : option (json * string) :=
  match fuel with
  | O => None
  | S f =>
      match parse_value f s with
      | None => None
      | Some (v, s1) =>
          let acc' := acc ++ [v] in
          match skip_ws s1 with
          | EmptyString => None
          | String c s2 =>
              if (code c =? 44)%N then parse_elements f (skip_ws s2) acc'
              else if (code c =? 93)%N then Some (JArray acc', s2)
              else None
          end
      end
  end.

(** [JSON.parse(text)]; [None] stands for the [SyntaxError] it throws. *)
Definition JSON_parse (text : string) : option json :=
  match parse_value (S (String.length text + String.length text)) (skip_ws text) with
  | Some (v, rest) => if is_empty (skip_ws rest) then Some v else None
  | None => None
  end.

(** ** The file system

    A path is its list of segments; the file system is a finite map from
    paths to nodes.  Only what the program can observe is kept: whether a
    path exists, whether it is a directory, the text and the permission
    bits of a file.  The home directory itself is taken to exist. *)

Abbreviation Path := (list string).

Inductive Node : Type :=
  | File (content : string) (mode : N)
  | Dir.

Abbreviation FS := (gmap Path Node).

Definition readable (mode : N) : bool := N.testbit mode 8.
Definition writable (mode : N) : bool := N.testbit mode 7.

(** [path.dirname] *)
Definition dirname (p : Path) : Path := removelast p.

(** [fs.existsSync(p)] *)
Definition existsSync (p : Path) : M FS bool :=
  fun fs => (Ret (bool_decide (is_Some (fs !! p))), fs).

(** [fs.readFileSync(p, "utf8")] *)
Definition readFileSync (p : Path) : M FS string :=
  fun fs =>
    match fs !! p with
    | Some (File content mode) =>
        if readable mode then (Ret content, fs) else (Throw (FsError "EACCES"), fs)
    | Some Dir => (Throw (FsError "EISDIR"), fs)
    | None => (Throw (FsError "ENOENT"), fs)
    end.

(** [fs.mkdirSync(p, { recursive: true })] *)
Definition mkdirSync (p : Path) : M FS unit :=
  fun fs =>
    match fs !! p with
    | Some Dir => (Ret tt, fs)
    | Some (File _ _) => (Throw (FsError "EEXIST"), fs)
    | None => (Ret tt, <[p := Dir]> fs)
    end.

(** [fs.writeFileSync(p, data)]: an existing file keeps its mode, a new one
    is created with mode 0o644 in an existing directory. *)
Definition writeFileSync (p : Path) (data : string) : M FS unit :=
  fun fs =>
    match fs !! p with
    | Some Dir => (Throw (FsError "EISDIR"), fs)
    | Some (File _ mode) =>
        if writable mode then (Ret tt, <[p := File data mode]> fs)
        else (Throw (FsError "EACCES"), fs)
    | None =>
        match fs !! dirname p with
        | Some Dir => (Ret tt, <[p := File data 420%N]> fs)
        | Some (File _ _) => (Throw (FsError "ENOTDIR"), fs)
        | None => (Throw (FsError "ENOENT"), fs)
        end
    end.

(** [fs.chmodSync(p, mode)] *)
Definition chmodSync (p : Path) (mode : N) : M FS unit :=
  fun fs =>
    match fs !! p with
    | Some (File content _) => (Ret tt, <[p := File content mode]> fs)
    | Some Dir => (Ret tt, fs)
    | None => (Throw (FsError "ENOENT"), fs)
    end.

(** [JSON.parse] as a computation: a syntax error is thrown. *)
Definition JSON_parse_m {St} (text : string) : M St json :=
  match JSON_parse text with
  | Some v => ret v
  | None => throw SyntaxError
  end.

(** ** Config *)

(** The configuration record of the data model, and the object
    [{ provider, apiKey }] that [cmdSetup] hands to [saveConfig]. *)
Record Config : Type := mkConfig {
  provider : string;
  apiKey : string;
}.

Definition config_object (c : Config) : json :=
  JObject [("provider", JString (provider c)); ("apiKey", JString (apiKey c))].

(** The empty record [{}]. *)
Definition empty_record : json := JObject [].

Section ConfigStore.
Context (homedir : Path).

Definition CONFIG_DIR : Path := homedir ++ [".gtxr"].
Definition CONFIG_FILE : Path := CONFIG_DIR ++ ["config.json"].

(** The [try] block returns from the function with [Some v], or falls
    through to [return {}] with [None]. *)
Definition loadConfig : M FS json :=
  returned <-
    try_catch
      (present <- existsSync CONFIG_FILE ;;
       if present then
         text <- readFileSync CONFIG_FILE ;;
         v <- JSON_parse_m text ;;
         ret (Some v)
       else ret None)
      (ret None) ;;
  match returned with
  | Some v => ret v
  | None => ret empty_record
  end.

Definition saveConfig (data : json) : M FS unit :=
  mkdirSync CONFIG_DIR ;;
  writeFileSync CONFIG_FILE (JSON_stringify data) ;;
  try_catch (chmodSync CONFIG_FILE 384%N) (ret tt).

End ConfigStore.

(** ** Concrete machines

    [scripted] answers the subprocess calls from a prepared list, whatever
    the command; [toy_git] is a repository with a current branch and a list
    of branch names that understands [checkout], [checkout -b] and
    [branch --show-current]; [hooked_git] is the same repository with a
    [post-checkout] hook that fails. *)

Definition spawn_failure : SpawnSyncReturns := mkSpawn None None None.

#[export] Instance scripted : Subprocess (list SpawnSyncReturns) :=
  fun _ _ script =>
    match script with
    | r :: rest => (r, rest)
    | [] => (spawn_failure, [])
    end.

Record Repo : Type := mkRepo {
  current : string;
  branches : list string;
}.

Definition exited (st : Z) (out err : string) : SpawnSyncReturns :=
  mkSpawn (Some st) (Some out) (Some err).

Definition known (name : string) (r : Repo) : bool :=
  existsb (String.eqb name) (branches r).

Definition not_modelled (r : Repo) : SpawnSyncReturns * Repo :=
  (exited 1 EmptyString "git: not modelled", r).

#[export] Instance toy_git : Subprocess Repo :=
  fun _ args r =>
    match args with
    | [a; b] =>
        if String.eqb a "branch" && String.eqb b "--show-current" then
          (exited 0 (current r +:+ LF) EmptyString, r)
        else if String.eqb a "checkout" then
          if known b r
          then (exited 0 EmptyString EmptyString, mkRepo b (branches r))
          else (exited 1 EmptyString ("error: pathspec '" +:+ b +:+ "' did not match"), r)
        else not_modelled r
    | [a; b; name] =>
        if String.eqb a "checkout" && String.eqb b "-b" then
          if known name r || is_empty name || startsWith name "-"
          then (exited 128 EmptyString ("fatal: cannot create branch '" +:+ name +:+ "'"), r)
          else (exited 0 EmptyString EmptyString, mkRepo name (name :: branches r))
        else not_modelled r
    | _ => not_modelled r
    end.

(** A repository whose [post-checkout] hook fails: the hook runs once the
    checkout has moved [HEAD], and its status is the status of the
    checkout. *)
Record Hooked : Type := mkHooked { repo : Repo }.

#[export] Instance hooked_git : Subprocess Hooked :=
  fun cmd args h =>
    let (r, repo') := toy_git cmd args (repo h) in
    match args, status r with
    | "checkout" :: _, Some 0%Z =>
        (exited 1 EmptyString "error: hook declined", mkHooked repo')
    | _, _ => (r, mkHooked repo')
    end.

(** ** Vocabulary of the statements *)

(** [sub] occurs in [s]. *)
Definition contains (s sub : string) : Prop :=
  exists before after, s = before +:+ sub +:+ after.

(** The substrings the push dispatcher looks for. *)
Definition no_upstream_words : list string := ["no upstream"; "has no upstream"].
Definition rejection_words : list string := ["fetch first"; "non-fast-forward"; "rejected"].

(** The [git] command lines of a trace, in the order they were run. *)
Fixpoint git_calls (t : list Event) : list (list string) :=
  match t with
  | [] => []
  | Spawn _ args :: t' => args :: git_calls t'
  | ConsoleLog _ :: t' => git_calls t'
  end.

(** The console lines of a trace, in the order they were printed. *)
Fixpoint console (t : list Event) : list string :=
  match t with
  | [] => []
  | Spawn _ _ :: t' => console t'
  | ConsoleLog line :: t' => line :: console t'
  end.

(** [s] is made of white-space characters only. *)
Inductive all_space : string -> Prop :=
  | all_space_nil : all_space EmptyString
  | all_space_cons (u s : string) :
      In u white_space -> all_space s -> all_space (u +:+ s).


(** The events of the set-upstream retry, given the answer to it. *)
Definition set_upstream_events (branch : string) (r2 : GitResult) : list Event :=
  [ ConsoleLog (info_line ("Pushing to origin/" +:+ branch +:+ "..."));
    Spawn "git" ["push"; "origin"; branch];
    ConsoleLog (info_line "New branch — setting upstream automatically...");
    Spawn "git" ["push"; "--set-upstream"; "origin"; branch];
    ConsoleLog (if ok r2
                then ok_line ("Pushed and upstream set for origin/" +:+ branch)
                else err_line ("Failed to set upstream: " +:+ stderr r2)) ].

(** The events of a rebase that failed. *)
Definition rebase_failed_events (branch : string) : list Event :=
  [ ConsoleLog (info_line ("Pushing to origin/" +:+ branch +:+ "..."));
    Spawn "git" ["push"; "origin"; branch];
    ConsoleLog (info_line "Remote has new commits — rebasing automatically...");
    Spawn "git" ["pull"; "--rebase"; "origin"; branch];
    ConsoleLog (err_line "Auto-rebase failed — conflicts need manual resolution.");
    ConsoleLog (info_line "Your repo is in rebase state. To resolve:");
    ConsoleLog (info_line "  1. Open conflicted files and fix the markers");
    ConsoleLog (info_line "  2. git add .");
    ConsoleLog (info_line "  3. git rebase --continue");
    ConsoleLog (info_line ("  4. git push origin " +:+ branch));
    ConsoleLog (info_line "  Or to cancel: git rebase --abort") ].

(** The events of a rebase that succeeded, given the answer to the retry. *)
Definition rebase_retry_events (branch : string) (r2 : GitResult) : list Event :=
  [ ConsoleLog (info_line ("Pushing to origin/" +:+ branch +:+ "..."));
    Spawn "git" ["push"; "origin"; branch];
    ConsoleLog (info_line "Remote has new commits — rebasing automatically...");
    Spawn "git" ["pull"; "--rebase"; "origin"; branch];
    Spawn "git" ["push"; "origin"; branch];
    ConsoleLog (if ok r2
                then ok_line ("Pushed to origin/" +:+ branch +:+ " after rebase.")
                else err_line ("Push failed after rebase: " +:+ stderr r2)) ].

(** The events a computation adds to the trace when it is run from [w]. *)
Definition added {Sys A} (m : M (World Sys) A) (w : World Sys) : list Event :=
  skipn (length (trace w)) (trace (snd (m w))).



(** [text] is a JSON text for the value [v]: with some amount of fuel the
    grammar reads [v] from it and nothing but white space is left. *)
Definition parses_to (text : string) (v : json) : Prop :=
  exists (fuel : nat) (rest : string),
    parse_value fuel (skip_ws text) = Some (v, rest) /\ skip_ws rest = EmptyString.

(** [text] is valid JSON. *)
Definition valid_json (text : string) : Prop := exists v, parses_to text v.

(** The four ways [handleAiError] reports a failure. *)
Inductive AiFailure : Type :=
  | CreditsExhausted
  | InvalidKey
  | RateLimited
  | Unknown.

(** First match wins: the class of the first rule one of whose keywords
    occurs in the lower-cased message, [Unknown] when there is none. *)
Fixpoint first_match (rules : list (list string * AiFailure)) (message : string) : AiFailure :=
  match rules with
  | [] => Unknown
  | (keywords, class) :: rest =>
      if existsb (includes (toLowerCase message)) keywords then class
      else first_match rest message
  end.

(** The rules in the words of the specification. *)
Definition rules_as_specified : list (list string * AiFailure) :=
  [ (["credits"; "quota"; "insufficient"], CreditsExhausted);
    (["invalid"; "auth"; "401"], InvalidKey);
    (["rate"; "429"], RateLimited) ].

(** The rules with the keywords [handleAiError] tests. *)
Definition rules_in_code : list (list string * AiFailure) :=
  [ (["credit"; "quota"; "insufficient"], CreditsExhausted);
    (["invalid"; "auth"; "401"], InvalidKey);
    (["rate"; "429"], RateLimited) ].

(** What is printed for each class. *)
Definition report (class : AiFailure) (provider : string) (error : JsError) : list string :=
  match class with
  | CreditsExhausted =>
      [err_line "AI API credits exhausted."] ++
      (if String.eqb provider "anthropic"
       then [info_line "Billing: https://console.anthropic.com/settings/billing"] else []) ++
      (if String.eqb provider "openai"
       then [info_line "Billing: https://platform.openai.com/account/billing"] else []) ++
      [info_line "Or skip AI with: gtxr --no-ai"]
  | InvalidKey => [err_line "Invalid API key. Reconfigure with: gtxr setup"]
  | RateLimited => [err_line "Rate limit hit. Wait a moment and retry, or use: gtxr --no-ai"]
  | Unknown => [err_line ("AI generation failed: " +:+ render (message error))]
  end.

(** One of [names] is among the tokens, whatever the case of its letters. *)
Definition given (names : list string) (args : list string) : bool :=
  existsb (fun arg => existsb (String.eqb (toLowerCase arg)) names) args.

(** The tokens that switch on a boolean option. *)
Definition flag_words : list string :=
  ["-v"; "--version"; "-h"; "--help"; "setup"; "upgrade"; "uninstall";
   "--no-push"; "--no-ai"; "--force-push"].

Definition is_flag (arg : string) : bool :=
  existsb (String.eqb (toLowerCase arg)) flag_words.

Definition is_branch_option (arg : string) : bool :=
  existsb (String.eqb (toLowerCase arg)) ["--branch"; "-b"].

(** The options a command line made of boolean flags only asks for. *)
Definition flags_of (args : list string) : Opts :=
  {| version := given ["-v"; "--version"] args;
     help := given ["-h"; "--help"] args;
     setup := given ["setup"] args;
     upgrade := given ["upgrade"] args;
     uninstall := given ["uninstall"] args;
     noPush := given ["--no-push"] args;
     noAi := given ["--no-ai"] args;
     forcePush := given ["--force-push"] args;
     branch := None |}.

(** Tokens that were read to the end without an exit can be followed by
    more tokens: reading goes on from where it stopped. *)
Definition resumes {Sys : Type} (post : list string) (pre : list string) : Prop :=
  forall (o o' : Opts) (w w' : World Sys),
    parse_loop pre o w = (Ret o', w') ->
    parse_loop (pre ++ post) o w = parse_loop post o' w'.

(** ** More git helpers *)

Section Queries.
Context {Sys : Type} `{Subprocess Sys}.

Definition isGitRepo : M (World Sys) bool :=
  r <- git ["rev-parse"; "--git-dir"] ;;
  ret (ok r).

Definition getStatus : M (World Sys) string :=
  r <- git ["status"; "--short"] ;;
  ret (if ok r then stdout r else EmptyString).

Definition getRemoteUrl : M (World Sys) string :=
  r <- git ["remote"; "get-url"; "origin"] ;;
  ret (if ok r then stdout r else "No remote configured").

Definition getDiff : M (World Sys) string :=
  staged <- git ["diff"; "--cached"] ;;
  if ok staged && negb (is_empty (stdout staged)) then ret (stdout staged)
  else
    unstaged <- git ["diff"] ;;
    ret (if ok unstaged then stdout unstaged else EmptyString).

(** What [git] answers to the command lines [calls], run one after the
    other from the state [s]. *)
Fixpoint answers (s : Sys) (calls : list (list string)) : list GitResult :=
  match calls with
  | [] => []
  | args :: rest =>
      let (r, s') := spawnSync "git" args s in
      git_result r :: answers s' rest
  end.

End Queries.

(** The command lines [push] can run. *)
Definition force_push_cmd (branch : string) : list string := ["push"; "--force"; "origin"; branch].
Definition plain_push_cmd (branch : string) : list string := ["push"; "origin"; branch].
Definition set_upstream_cmd (branch : string) : list string :=
  ["push"; "--set-upstream"; "origin"; branch].
Definition rebase_cmd (branch : string) : list string := ["pull"; "--rebase"; "origin"; branch].

(** What reading the tokens [args] can come to: options and no output, or
    an exit with code 1 after one of the two errors. *)
Definition reads_or_exits {Sys : Type} (args : list string) : Prop :=
  forall (o : Opts) (w : World Sys),
    (exists o', parse_loop args o w = (Ret o', w))
    \/ (exists x, In x args /\
          parse_loop args o w =
            (Exit 1,
             after w [ ConsoleLog (err_line ("Unknown argument: '" +:+ x +:+ "'"));
                       ConsoleLog (info_line "Run 'gtxr --help' to see valid commands.") ]))
    \/ parse_loop args o w =
         (Exit 1, after w [ConsoleLog (err_line "--branch requires a branch name.")]).

(** * The interactive program

    The commands that talk to the user run on a [Machine]: the world of
    subprocesses and console lines, the file system, the lines the user is
    still going to type, the questions asked so far and the calls made to
    the AI provider.  What the JavaScript engine and the network decide
    (the text of an engine error, the string form of a value that is not a
    string, the reply of a provider) is a parameter. *)

Definition VERSION : string := "1.0.0".
Definition PROVIDERS : list string := ["openai"; "anthropic"; "gemini"].

Definition C_bold : string := ESC +:+ "[1m".
Definition C_dim : string := ESC +:+ "[2m".
Definition C_purple : string := ESC +:+ "[95m".

(** [String.prototype.repeat] *)
Fixpoint repeat_string (s : string) (n : nat) : string :=
  match n with
  | O => EmptyString
  | S n' => s +:+ repeat_string s n'
  end.

(** [String.prototype.padEnd] with the default filler, a space. *)
Definition padEnd (s : string) (n : nat) : string :=
  s +:+ repeat_string " " (n - String.length s).

(** [s.split(" ")] *)
Fixpoint split_space (s : string) : list string :=
  match s with
  | EmptyString => [EmptyString]
  | String c s' =>
      if Ascii.eqb c " " then EmptyString :: split_space s'
      else match split_space s' with
           | first :: others => String c first :: others
           | [] => [String c EmptyString]
           end
  end.

(** A path as the program prints it, with the POSIX separator. *)
Definition path_text (p : Path) : string := "/" +:+ join "/" p.

(** [fs.rmSync(p, { recursive: true, force: true })]: [p] and everything
    below it is gone; a missing [p] is no error.  A removal that the
    operating system refuses is not modelled. *)
Definition rmSync (p : Path) : M FS unit :=
  fun fs => (Ret tt, filter (fun entry => ~ p `prefix_of` entry.1) fs).

(** [obj[key]] on a value read by [JSON.parse]: only an object has members
    of its own, and none of the keys the program reads is inherited. *)
Fixpoint lookup_member (key : string) (ms : list (string * json)) : option json :=
  match ms with
  | [] => None
  | (k, v) :: rest => if String.eqb key k then Some v else lookup_member key rest
  end.

Definition member (key : string) (v : json) : option json :=
  match v with
  | JObject ms => lookup_member key ms
  | _ => None
  end.

(** [v === null] *)
Definition is_null (v : json) : bool :=
  match v with
  | JNull => true
  | _ => false
  end.

(** [v === s] for a string [s]; [v] may be [undefined]. *)
Definition is_string (v : option json) (s : string) : bool :=
  match v with
  | Some (JString s') => String.eqb s' s
  | _ => false
  end.

(** The provider as [handleAiError] compares it: [===] with a string literal
    fails for every value that is not a string, as it does for [""]. *)
Definition provider_name (p : json) : string :=
  match p with
  | JString s => s
  | _ => EmptyString
  end.

(** What the engine decides. *)
Class Engine : Type := {
  (** whether a number literal of a JSON text denotes zero *)
  number_is_zero : string -> bool;
  (** [String(v)] for a value that is not a string *)
  ToString : json -> string;
  (** the error [JSON.parse] throws on a text it rejects *)
  parse_failure : string -> JsError;
  (** the error thrown when [key] is read from [null] *)
  null_failure : string -> JsError;
  (** the error object behind a failed file-system call *)
  native_error : Exn -> JsError;
  (** the error [spawnSync] throws on arguments it refuses *)
  arg_failure : list string -> JsError;
}.

(** [Boolean(v)] *)
Definition truthy `{Engine} (v : json) : bool :=
  match v with
  | JNull => false
  | JBool b => b
  | JNumber lexeme => negb (number_is_zero lexeme)
  | JString s => negb (is_empty s)
  | JArray _ | JObject _ => true
  end.

(** A value inside a template literal. *)
Definition display `{Engine} (v : option json) : string :=
  match v with
  | None => "undefined"
  | Some (JString s) => s
  | Some v => ToString v
  end.

(** What can be thrown: an error of the file-system or JSON model, or an
    error object. *)
Inductive Thrown : Type :=
  | Native (e : Exn)
  | Raised (e : JsError).

Definition as_error `{Engine} (t : Thrown) : JsError :=
  match t with
  | Native e => native_error e
  | Raised e => e
  end.

(** How a command ends: it returns, [process.exit] is called, an
    exception escapes, or the program waits for a line that is never typed
    (when the input has ended the process then ends with status 0, as it
    does after the last command has returned). *)
Inductive Outcome (A : Type) : Type :=
  | Returned (a : A)
  | Exited (code : Z)
  | Threw (t : Thrown)
  | Waiting.
Arguments Returned {A} a.
Arguments Exited {A} code.
Arguments Threw {A} t.
Arguments Waiting {A}.

(** One call of [callAI] and how it ended: with the text of the reply or
    with the error it threw. *)
Record AiCall : Type := mkAiCall {
  ai_provider : json;
  ai_key : json;
  ai_prompt : string;
  ai_reply : string + JsError;
}.

Record Machine (Sys : Type) : Type := mkMachine {
  world : World Sys;
  files : FS;
  stdin : list string;
  questions : list string;
  ai_log : list AiCall;
}.
Arguments mkMachine {Sys} world files stdin questions ai_log.
Arguments world {Sys} m.
Arguments files {Sys} m.
Arguments stdin {Sys} m.
Arguments questions {Sys} m.
Arguments ai_log {Sys} m.

(** What a call of [callAI] does to the outside: the reply, the events it
    adds to the trace (it installs the provider's package with [npm] when
    it is missing), and the machine and file system it leaves. *)
Record AiRun (Sys : Type) : Type := mkAiRun {
  reply : string + JsError;
  emitted : list Event;
  sys_after : Sys;
  files_after : FS;
}.
Arguments mkAiRun {Sys} reply emitted sys_after files_after.
Arguments reply {Sys} a.
Arguments emitted {Sys} a.
Arguments sys_after {Sys} a.
Arguments files_after {Sys} a.

(** The network: the AI providers and the npm registry.  A request is taken
    to end, with an answer or with an error. *)
Class Network (Sys : Type) : Type := {
  callAI_run : json -> json -> string -> Sys -> FS -> AiRun Sys;
  https_get : string -> Sys -> (string + JsError) * Sys;
}.

Definition Proc (Sys A : Type) : Type := Machine Sys -> Outcome A * Machine Sys.

Module Proc.
Section Monad.
Context {Sys : Type}.

Definition ret {A} (a : A) : Proc Sys A := fun mc => (Returned a, mc).

Definition bind {A B} (m : Proc Sys A) (k : A -> Proc Sys B) : Proc Sys B :=
  fun mc =>
    match m mc with
    | (Returned a, mc') => k a mc'
    | (Exited c, mc') => (Exited c, mc')
    | (Threw t, mc') => (Threw t, mc')
    | (Waiting, mc') => (Waiting, mc')
    end.

(** [process.exit(code)] *)
Definition exit {A} (code : Z) : Proc Sys A := fun mc => (Exited code, mc).

(** [throw e] *)
Definition throw {A} (t : Thrown) : Proc Sys A := fun mc => (Threw t, mc).

(** [try { m } catch (e) { h e }] *)
Definition catch {A} (m : Proc Sys A) (h : Thrown -> Proc Sys A) : Proc Sys A :=
  fun mc =>
    match m mc with
    | (Threw t, mc') => h t mc'
    | r => r
    end.

Definition lift {A} (r : Res A) : Outcome A :=
  match r with
  | Ret a => Returned a
  | Exit c => Exited c
  | Throw e => Threw (Native e)
  end.

(** A computation on the world of subprocesses and console lines. *)
Definition io {A} (m : M (World Sys) A) : Proc Sys A :=
  fun mc =>
    let (r, w) := m (world mc) in
    (lift r, mkMachine w (files mc) (stdin mc) (questions mc) (ai_log mc)).

(** A computation on the file system. *)
Definition fsio {A} (m : M FS A) : Proc Sys A :=
  fun mc =>
    let (r, fs) := m (files mc) in
    (lift r, mkMachine (world mc) fs (stdin mc) (questions mc) (ai_log mc)).

End Monad.
End Proc.

Declare Scope proc_scope.
Delimit Scope proc_scope with proc.
Notation "x <- m ;; k" := (Proc.bind m (fun x => k))
  (at level 100, m at next level, right associativity) : proc_scope.
Notation "m ;; k" := (Proc.bind m (fun _ => k))
  (at level 100, right associativity) : proc_scope.

(** The text of the first-run banner. *)
Definition welcome_text : string :=
  LF +:+
  C_green +:+ C_bold +:+ "  ╔══════════════════════════════════════╗" +:+ C_reset +:+ LF +:+
  C_green +:+ C_bold +:+ "  ║     GTXR is ready to use!         ║" +:+ C_reset +:+ LF +:+
  C_green +:+ C_bold +:+ "  ╚══════════════════════════════════════╝" +:+ C_reset +:+ LF +:+
  LF +:+
  C_cyan +:+ "  Available commands:" +:+ C_reset +:+ LF +:+
  "  " +:+ C_bold +:+ "gtxr" +:+ C_reset +:+ "                Run full workflow  (add → commit → push)" +:+ LF +:+
  "  " +:+ C_bold +:+ "gtxr setup" +:+ C_reset +:+ "          Configure AI provider and API key" +:+ LF +:+
  "  " +:+ C_bold +:+ "gtxr upgrade" +:+ C_reset +:+ "        Upgrade to the latest version" +:+ LF +:+
  "  " +:+ C_bold +:+ "gtxr uninstall" +:+ C_reset +:+ "      Remove GitAuto from your system" +:+ LF +:+
  "  " +:+ C_bold +:+ "gtxr --no-push" +:+ C_reset +:+ "      Commit only, skip push" +:+ LF +:+
  "  " +:+ C_bold +:+ "gtxr --no-ai" +:+ C_reset +:+ "        Skip AI, type message manually" +:+ LF +:+
  "  " +:+ C_bold +:+ "gtxr --force-push" +:+ C_reset +:+ "   Force push " +:+ C_dim +:+ "(destructive)" +:+ C_reset +:+ LF +:+
  "  " +:+ C_bold +:+ "gtxr --branch <n>" +:+ C_reset +:+ "   Switch or create branch before committing" +:+ LF +:+
  "  " +:+ C_bold +:+ "gtxr --help" +:+ C_reset +:+ "         Show all commands and options" +:+ LF +:+
  LF +:+
  C_yellow +:+ "  Get started:  gtxr setup" +:+ C_reset +:+ LF.

(** The text printed by [printHelp]. *)
Definition help_text : string :=
  LF +:+
  C_purple +:+ C_bold +:+ "  ╔══════════════════════════════════════╗" +:+ C_reset +:+ LF +:+
  C_purple +:+ C_bold +:+ "  ║    GTXR — AI Git Automation       ║" +:+ C_reset +:+ LF +:+
  C_purple +:+ C_bold +:+ "  ╚══════════════════════════════════════╝" +:+ C_reset +:+ LF +:+
  LF +:+
  C_cyan +:+ "  Commands:" +:+ C_reset +:+ LF +:+
  "  gtxr                  Run full workflow  (add → commit → push)" +:+ LF +:+
  "  gtxr setup            Configure AI provider and API key" +:+ LF +:+
  "  gtxr upgrade          Upgrade to latest version" +:+ LF +:+
  "  gtxr uninstall        Remove GitAuto from your system" +:+ LF +:+
  LF +:+
  C_cyan +:+ "  Options:" +:+ C_reset +:+ LF +:+
  "  --no-push                Commit only, skip push" +:+ LF +:+
  "  --no-ai                  Skip AI, enter message manually" +:+ LF +:+
  "  --force-push             Force push  (destructive)" +:+ LF +:+
  "  --branch, -b <name>      Switch or create branch before committing" +:+ LF +:+
  "  -v, --version            Print current version" +:+ LF +:+
  "  -h, --help               Show this message" +:+ LF +:+
  LF +:+
  C_cyan +:+ "  Examples:" +:+ C_reset +:+ LF +:+
  "  gtxr                          Full AI-powered workflow" +:+ LF +:+
  "  gtxr --no-push                Commit only" +:+ LF +:+
  "  gtxr --branch feature/login   Switch branch then commit and push" +:+ LF +:+
  "  gtxr --no-ai                  Manual commit message" +:+ LF +:+
  LF +:+
  C_yellow +:+ "  First time? Run: gtxr setup" +:+ C_reset +:+ LF.

Section Banners.
Context {Sys : Type}.

Definition header (text : string) : M (World Sys) unit :=
  let bar := repeat_string "═" 34 in
  console_log (LF +:+ C_purple +:+ C_bold +:+ "  ╔" +:+ bar +:+ "╗" +:+ C_reset) ;;
  console_log (C_purple +:+ C_bold +:+ "  ║ " +:+ padEnd text 33 +:+ "║" +:+ C_reset) ;;
  console_log (C_purple +:+ C_bold +:+ "  ╚" +:+ bar +:+ "╝" +:+ C_reset +:+ LF).

Definition printHelp : M (World Sys) unit := console_log help_text.

End Banners.

Section Interactive.
Context {Sys : Type} `{Subprocess Sys} `{Network Sys} `{Engine}.
Context (homedir : Path).

Local Abbreviation Cmd := (Proc Sys).
Local Open Scope proc_scope.
Import Proc.

(** [spawnSync(cmd, args, ...)] for a command other than [git]. *)
Definition spawn (cmd : string) (args : list string) : M (World Sys) SpawnSyncReturns :=
  fun w =>
    let (r, s') := spawnSync cmd args (sys w) in
    (Ret r, mkWorld s' (trace w ++ [Spawn cmd args])).

(** A call of [spawnSync] with [args] by [m]: it goes on when the arguments
    are accepted and throws, with nothing run, when one holds U+0000. *)
Definition checked {A} (args : list string) (m : Cmd A) : Cmd A :=
  if spawnable args then m else throw (Raised (arg_failure args)).

(** [push(branch, forcePush)]: all its git calls name [branch]; when
    [spawnSync] refuses it, the first of them throws, after the line that
    announces the push. *)
Definition push_checked (branch : string) (forcePush : bool) : Cmd bool :=
  if has_nul branch then
    io (if forcePush
        then Console.warn "Force pushing — this overwrites remote history."
        else Console.info ("Pushing to origin/" +:+ branch +:+ "...")) ;;
    throw (Raised (arg_failure (if forcePush
                                then ["push"; "--force"; "origin"; branch]
                                else ["push"; "origin"; branch])))
  else io (push branch forcePush).

(** [prompt(question)]: the question is written and the next line that is
    typed comes back trimmed; with no line left the promise never
    resolves. *)
Definition prompt (question : string) : Cmd string :=
  fun mc =>
    match stdin mc with
    | [] =>
        (Waiting,
         mkMachine (world mc) (files mc) [] (questions mc ++ [question]) (ai_log mc))
    | answer :: rest =>
        (Returned (trim answer),
         mkMachine (world mc) (files mc) rest (questions mc ++ [question]) (ai_log mc))
    end.

(** [await callAI(provider, apiKey, prompt)]: the reply or the error
    thrown, with the call recorded. *)
Definition callAI (provider apiKey : json) (text : string) : Cmd (string + JsError) :=
  fun mc =>
    let r := callAI_run provider apiKey text (sys (world mc)) (files mc) in
    (Returned (reply r),
     mkMachine (mkWorld (sys_after r) (trace (world mc) ++ emitted r))
               (files_after r) (stdin mc) (questions mc)
               (ai_log mc ++ [mkAiCall provider apiKey text (reply r)])).

(** ** First-run welcome *)

Definition WELCOME_MARKER : Path := CONFIG_DIR homedir ++ [".welcomed"].

Definition firstRunCheck : Cmd unit :=
  present <- fsio (existsSync WELCOME_MARKER) ;;
  if present then ret tt
  else
    io (console_log welcome_text) ;;
    fsio (mkdirSync (CONFIG_DIR homedir)) ;;
    fsio (writeFileSync WELCOME_MARKER EmptyString).

(** ** Upgrade *)

Definition upgrade_failed (e : JsError) : Cmd unit :=
  io (Console.err ("Upgrade failed: " +:+ render (message e))) ;;
  io (Console.info "Try manually: npm install -g gitauto").

(** The promise around [https.get] resolves with [JSON.parse(data).version]
    or rejects; every rejection, and nothing else, reaches the [catch]. *)
Definition cmdUpgrade : Cmd unit :=
  io (Console.info "Checking for latest version...") ;;
  response <- io (fun w =>
                let (r, s') := https_get "https://registry.npmjs.org/gtxr/latest" (sys w) in
                (Ret r, mkWorld s' (trace w))) ;;
  match response with
  | inr e => upgrade_failed e
  | inl data =>
      match JSON_parse data with
      | None => upgrade_failed (parse_failure data)
      | Some v =>
          if is_null v then upgrade_failed (null_failure "version")
          else
          let latest := member "version" v in
          if is_string latest VERSION then
            io (Console.ok ("Already up to date (v" +:+ VERSION +:+ ")."))
          else
            io (Console.info ("Upgrading v" +:+ VERSION +:+ " → v" +:+ display latest +:+ "...")) ;;
            r <- io (spawn "npm" ["install"; "-g"; "gtxr"]) ;;
            if bool_decide (status r = Some 0%Z) then
              io (Console.ok ("Upgraded to v" +:+ display latest +:+ " successfully."))
            else
              io (Console.err "Upgrade failed. Try manually: npm install -g gitauto")
      end
  end.

(** ** Uninstall *)

Definition cmdUninstall : Cmd unit :=
  io (Console.warn "This will remove GitAuto and all its data.") ;;
  confirm <- prompt "Are you sure? (y/N): " ;;
  if negb (String.eqb (toLowerCase confirm) "y") then
    io (Console.info "Uninstall cancelled.")
  else
    present <- fsio (existsSync (CONFIG_DIR homedir)) ;;
    (if present then
       fsio (rmSync (CONFIG_DIR homedir)) ;;
       io (Console.ok ("Removed config: " +:+ path_text (CONFIG_DIR homedir)))
     else ret tt) ;;
    io (Console.info "Running: npm uninstall -g gitauto") ;;
    r <- io (spawn "npm" ["uninstall"; "-g"; "gtxr"]) ;;
    if bool_decide (status r = Some 0%Z) then
      io (Console.ok "GTXR uninstalled successfully.")
    else
      io (Console.err "npm uninstall failed. Try: npm uninstall -g gitauto").

(** ** Setup *)

Definition cmdSetup : Cmd unit :=
  io (header "GTXR Setup") ;;
  providerInput <- prompt ("Provider (" +:+ join "/" PROVIDERS +:+ "): ") ;;
  let provider := toLowerCase providerInput in
  if negb (existsb (String.eqb provider) PROVIDERS) then
    io (Console.warn "Unrecognised provider. Skipped.")
  else
    apiKey <- prompt ("API key for " +:+ provider +:+ ": ") ;;
    if is_empty apiKey then io (Console.warn "No API key entered. Skipped.")
    else
      fsio (saveConfig homedir (config_object (mkConfig provider apiKey))) ;;
      io (Console.ok (provider +:+ " configured successfully.")).

(** ** Get commit message *)

(** [msg || null] *)
Definition or_null (msg : string) : option string :=
  if is_empty msg then None else Some msg.

Definition manual_message : Cmd (option string) :=
  msg <- prompt "Commit message: " ;;
  ret (or_null msg).

(** The [catch] block of the generation loop. *)
Definition ai_fallback (provider : json) (e : JsError) : Cmd (option string) :=
  io (handleAiError (provider_name provider) e) ;;
  io (Console.info "Falling back to manual input.") ;;
  manual_message.

(** The [while (true)] loop.  A round goes on to the next one only after
    it has read an answer, so one round more than there are answers left is
    never exceeded ([rounds] is that bound; see [generate_rounds]). *)
Fixpoint generate (rounds : nat) (provider apiKey : json) (aiPrompt : string)
  : Cmd (option string) :=
  match rounds with
  | O => fun mc => (Waiting, mc)
  | S rounds' =>
      io (Console.info ("Generating via " +:+ display (Some provider) +:+ "...")) ;;
      r <- callAI provider apiKey aiPrompt ;;
      match r with
      | inr e => ai_fallback provider e
      | inl msg =>
          if is_empty msg then
            ai_fallback provider (mkError (Some "Empty response from AI"))
          else
            io (console_log (LF +:+ "  " +:+ C_green +:+ msg +:+ C_reset +:+ LF)) ;;
            answer <- prompt "Use this? (y / r=regenerate / m=manual) [y]: " ;;
            let choice :=
              if is_empty (toLowerCase answer) then "y" else toLowerCase answer in
            if String.eqb choice "y" then ret (Some msg)
            else if String.eqb choice "r" then generate rounds' provider apiKey aiPrompt
            else manual_message
      end
  end.

(** A byte that continues a character, and the first byte of a character
    outside the basic plane. *)
Definition is_continuation (c : ascii) : bool :=
  (128 <=? code c)%N && (code c <? 192)%N.
Definition is_lead4 (c : ascii) : bool := (240 <=? code c)%N.

(** The high surrogate of the character that begins with the bytes [a],
    [b] and [c]. *)
Definition high_surrogate (a b c : ascii) : string :=
  utf8 (55296 +
        ((code a mod 8) * 262144 + (code b mod 64) * 4096 + (code c mod 64) * 64 - 65536)
        / 1024)%N.

(** [s.slice(0, n)]: the first [n] UTF-16 code units of [s].  A character
    is one unit, or two when it lies outside the basic plane; a cut
    between the two leaves the high surrogate. *)
Fixpoint slice (n : nat) (s : string) : string :=
  match s with
  | EmptyString => EmptyString
  | String c s' =>
      if is_continuation c then String c (slice n s')
      else
        match n with
        | O => EmptyString
        | S n' =>
            if is_lead4 c then
              match n', s' with
              | O, String b (String c' _) => high_surrogate c b c'
              | O, _ => EmptyString
              | S n'', _ => String c (slice n'' s')
              end
            else String c (slice n' s')
        end
  end.

Definition ai_prompt_for (diff : string) : string :=
  "Generate a very short (one-line, imperative tense, <=50 chars) " +:+
  "git commit message summarising the changes below:" +:+ LF +:+ LF +:+
  slice 3000 diff.

Definition getCommitMessage (config : json) (diff : string) (noAi : bool)
  : Cmd (option string) :=
  if is_null config then throw (Raised (null_failure "apiKey"))
  else
      match member "apiKey" config, member "provider" config with
      | Some apiKey, Some provider =>
          if truthy apiKey && truthy provider && negb noAi then
            generate_answer <- prompt "Generate commit message with AI? (y/n) [y]: " ;;
            if negb (is_empty generate_answer)
               && negb (String.eqb (toLowerCase generate_answer) "y")
            then manual_message
            else if is_empty diff then
              io (Console.warn "Nothing staged — enter message manually.") ;;
              manual_message
            else
              fun mc =>
                generate (S (length (stdin mc))) provider apiKey (ai_prompt_for diff) mc
          else
            (if negb noAi then io (Console.warn "AI not configured — run: gtxr setup")
             else ret tt) ;;
            manual_message
      | _, _ =>
          (if negb noAi then io (Console.warn "AI not configured — run: gtxr setup")
           else ret tt) ;;
          manual_message
      end.

(** ** Main workflow *)

Definition run (opts : Opts) : Cmd unit :=
  io (header ("GTXR v" +:+ VERSION)) ;;
  repo <- io isGitRepo ;;
  if negb repo then
    io (Console.err "Not a git repository. Run 'git init' first.") ;;
    exit 1
  else
    url <- io getRemoteUrl ;;
    io (Console.info ("Remote : " +:+ url)) ;;
    current <- io getCurrentBranch ;;
    name <- (match branch opts with
             | Some wanted =>
                 if negb (is_empty wanted) && negb (String.eqb wanted current)
                 then checked ["checkout"; wanted] (io (switchBranch wanted))
                 else ret current
             | None => ret current
             end) ;;
    io (Console.info ("Branch : " +:+ name)) ;;
    status <- io getStatus ;;
    if is_empty status then
      io (Console.warn "No changes detected — nothing to commit.") ;;
      exit 0
    else
      io (console_log (LF +:+ C_cyan +:+ "Changes:" +:+ C_reset +:+ LF +:+ status +:+ LF)) ;;
      filesInput <- prompt "Files to add (. for all) [.]: " ;;
      let files := if is_empty filesInput then "." else filesInput in
      let addArgs := if String.eqb files "." then ["."] else split_space files in
      addResult <- checked ("add" :: addArgs) (io (git ("add" :: addArgs))) ;;
      if negb (ok addResult) then
        io (Console.err ("Failed to stage files: " +:+ stderr addResult)) ;;
        exit 1
      else
        io (Console.ok ("Staged: " +:+ files)) ;;
        config <- fsio (loadConfig homedir) ;;
        diff <- io getDiff ;;
        message <- getCommitMessage config diff (noAi opts) ;;
        match message with
        | None =>
            io (Console.err "Commit message cannot be empty.") ;;
            exit 1
        | Some message =>
            commitResult <- checked ["commit"; "-m"; message]
                              (io (git ["commit"; "-m"; message])) ;;
            if negb (ok commitResult) then
              io (Console.err ("Commit failed: " +:+ stderr commitResult)) ;;
              exit 1
            else
              io (Console.ok ("Committed: " +:+ message)) ;;
              if noPush opts then
                io (Console.info "Skipping push (--no-push).") ;;
                io (header "Done!")
              else
                answer <- prompt "Push to remote? (y/n) [y]: " ;;
                let doPush :=
                  String.eqb (toLowerCase (if is_empty answer then "y" else answer)) "y" in
                (if doPush then push_checked name (forcePush opts) ;; ret tt else ret tt) ;;
                io (header "Done!")
        end.

(** ** Entry *)

Definition main (argv : list string) : Cmd unit :=
  opts <- io (parseArgs argv) ;;
  if help opts then io printHelp ;; exit 0
  else if version opts then io (console_log ("GTXR v" +:+ VERSION)) ;; exit 0
  else if upgrade opts then cmdUpgrade ;; exit 0
  else if uninstall opts then cmdUninstall ;; exit 0
  else
    firstRunCheck ;;
    if setup opts then cmdSetup ;; exit 0
    else
      catch (run opts)
            (fun e =>
               io (Console.err ("Unexpected error: " +:+ render (message (as_error e)))) ;;
               exit 1).

End Interactive.

(** ** Vocabulary of the statements about the interactive program *)

(** The argument lists of the runs of [cmd] in a trace, in order. *)
Fixpoint calls_of (cmd : string) (t : list Event) : list (list string) :=
  match t with
  | [] => []
  | Spawn c args :: t' =>
      if String.eqb c cmd then args :: calls_of cmd t' else calls_of cmd t'
  | ConsoleLog _ :: t' => calls_of cmd t'
  end.

(** The events a command adds to the trace when it is run on [mc]. *)
Definition events_of {Sys A} (m : Proc Sys A) (mc : Machine Sys) : list Event :=
  skipn (length (trace (world mc))) (trace (world (snd (m mc)))).

(** Run on any machine, [m] only adds to the trace, and its outcome and the
    git commands it has added satisfy [Q]. *)
Definition runs {Sys A} (m : Proc Sys A)
           (Q : Outcome A -> list (list string) -> Prop) : Prop :=
  forall mc,
    exists evs,
      trace (world (snd (m mc))) = trace (world mc) ++ evs /\
      Q (fst (m mc)) (calls_of "git" evs).

(** An assumption on the network: a call of [callAI] runs no git command
    (the source only ever spawns [npm] there). *)
Definition ai_runs_no_git (Sys : Type) `{Network Sys} : Prop :=
  forall provider apiKey text s fs,
    calls_of "git" (emitted (callAI_run provider apiKey text s fs)) = [].

(** The git commands of the stages of the workflow. *)
Definition preamble : list (list string) :=
  [ ["rev-parse"; "--git-dir"];
    ["remote"; "get-url"; "origin"];
    ["branch"; "--show-current"] ].

Definition switch_sequences (name : string) : list (list (list string)) :=
  [ [ ["checkout"; name] ];
    [ ["checkout"; name]; ["checkout"; "-b"; name] ];
    [ ["checkout"; name]; ["checkout"; "-b"; name]; ["branch"; "--show-current"] ] ].

Definition diff_sequences : list (list (list string)) :=
  [ [ ["diff"; "--cached"] ];
    [ ["diff"; "--cached"]; ["diff"] ] ].

Definition push_sequences (force : bool) (branch : string) : list (list (list string)) :=
  if force then [ [force_push_cmd branch] ]
  else [ [plain_push_cmd branch];
         [plain_push_cmd branch; set_upstream_cmd branch];
         [plain_push_cmd branch; rebase_cmd branch];
         [plain_push_cmd branch; rebase_cmd branch; plain_push_cmd branch] ].

(** The commands up to and including [git status]: the three queries, the
    switch to the branch asked for, if any, and the status. *)
Inductive inspects (opts : Opts) : list (list string) -> Prop :=
  | inspects_in_place :
      inspects opts (preamble ++ [ ["status"; "--short"] ])
  | inspects_after_switch (name : string) (sw : list (list string)) :
      branch opts = Some name ->
      name <> EmptyString ->
      In sw (switch_sequences name) ->
      inspects opts (preamble ++ sw ++ [ ["status"; "--short"] ]).

(** The commands up to and including the diff: what is staged is what the
    user named (never nothing), then one or two diffs. *)
Inductive stages (opts : Opts) : list (list string) -> Prop :=
  | stages_paths (g : list (list string)) (paths : list string) (d : list (list string)) :
      inspects opts g ->
      paths <> [] ->
      In d diff_sequences ->
      stages opts (g ++ [ "add" :: paths ] ++ d).

(** The commands up to and including the commit. *)
Inductive commits (opts : Opts) : list (list string) -> Prop :=
  | commits_message (g : list (list string)) (message : string) :
      stages opts g ->
      message <> EmptyString ->
      commits opts (g ++ [ ["commit"; "-m"; message] ]).

(** Every way the workflow can go: how it ends and the git commands it has
    run by then.  The last four are the calls that [spawnSync] refuses. *)
Inductive workflow `{Engine} (opts : Opts) : Outcome unit -> list (list string) -> Prop :=
  | not_a_repository :
      workflow opts (Exited 1) [ ["rev-parse"; "--git-dir"] ]
  | nothing_to_commit (g : list (list string)) :
      inspects opts g -> workflow opts (Exited 0) g
  | no_paths_typed (g : list (list string)) :
      inspects opts g -> workflow opts Waiting g
  | staging_failed (g : list (list string)) (paths : list string) :
      inspects opts g -> paths <> [] ->
      workflow opts (Exited 1) (g ++ [ "add" :: paths ])
  | no_message_typed (g : list (list string)) :
      stages opts g -> workflow opts Waiting g
  | empty_message (g : list (list string)) :
      stages opts g -> workflow opts (Exited 1) g
  | config_is_null (g : list (list string)) :
      stages opts g -> workflow opts (Threw (Raised (null_failure "apiKey"))) g
  | commit_failed (g : list (list string)) :
      commits opts g -> workflow opts (Exited 1) g
  | committed_not_pushed (g : list (list string)) :
      commits opts g -> workflow opts (Returned tt) g
  | no_push_answer (g : list (list string)) :
      commits opts g -> noPush opts = false -> workflow opts Waiting g
  | committed_and_pushed (g : list (list string)) (branch : string) (p : list (list string)) :
      commits opts g -> noPush opts = false ->
      In p (push_sequences (forcePush opts) branch) ->
      workflow opts (Returned tt) (g ++ p)
  | switch_refused (name : string) :
      branch opts = Some name ->
      spawnable ["checkout"; name] = false ->
      workflow opts (Threw (Raised (arg_failure ["checkout"; name]))) preamble
  | paths_refused (g : list (list string)) (paths : list string) :
      inspects opts g ->
      spawnable ("add" :: paths) = false ->
      workflow opts (Threw (Raised (arg_failure ("add" :: paths)))) g
  | message_refused (g : list (list string)) (message : string) :
      stages opts g ->
      spawnable ["commit"; "-m"; message] = false ->
      workflow opts (Threw (Raised (arg_failure ["commit"; "-m"; message]))) g
  | branch_refused (g : list (list string)) (branch : string) :
      commits opts g -> noPush opts = false ->
      has_nul branch = true ->
      workflow opts
        (Threw (Raised (arg_failure (if forcePush opts
                                     then force_push_cmd branch
                                     else plain_push_cmd branch)))) g.

(** How [getCommitMessage] can end, as one postcondition. *)
Definition message_outcome `{Engine}
           (o : Outcome (option string)) (g : list (list string)) : Prop :=
  g = [] /\
  match o with
  | Returned (Some m) => m <> EmptyString
  | Returned None => True
  | Exited _ => False
  | Threw t => t = Raised (null_failure "apiKey")
  | Waiting => True
  end.


(** The git subcommand of an argument list. *)
Definition subcommand (args : list string) : string := hd EmptyString args.

(** Run on any machine, [m] reads the lines [used] from the front of the
    input and adds the calls [calls] to the log of the AI, and its outcome
    with them satisfies [Q]. *)
Definition converses {Sys A} (m : Proc Sys A)
           (Q : Outcome A -> list string -> list AiCall -> Prop) : Prop :=
  forall mc,
    exists used calls,
      stdin mc = used ++ stdin (snd (m mc)) /\
      ai_log (snd (m mc)) = ai_log mc ++ calls /\
      Q (fst (m mc)) used calls.

(** The answers that stand for yes: nothing, [y] or [Y]. *)
Definition accepts (answer : string) : Prop :=
  trim answer = EmptyString \/ toLowerCase (trim answer) = "y".

(** Where a commit message comes from: it is the last line typed, or the
    last reply of the AI, accepted by the last line typed. *)
Definition message_origin (o : Outcome (option string))
           (used : list string) (calls : list AiCall) : Prop :=
  match o with
  | Returned (Some m) =>
      m <> EmptyString /\
      exists answer,
        last used = Some answer /\
        (m = trim answer \/
         (accepts answer /\ exists c, last calls = Some c /\ ai_reply c = inl m))
  | Returned None | Waiting | Threw _ => True
  | Exited _ => False
  end.

(** The calls are all made for [provider], with [apiKey] and [text]. *)
Definition calls_for (provider apiKey : json) (text : string) (calls : list AiCall) : Prop :=
  Forall (fun c => ai_provider c = provider /\ ai_key c = apiKey /\ ai_prompt c = text) calls.

(** When the AI may be called at all, and with what. *)
Definition ai_consent `{Engine} (config : json) (diff : string) (no_ai : bool)
           (used : list string) (calls : list AiCall) : Prop :=
  calls <> [] ->
  no_ai = false /\
  diff <> EmptyString /\
  (exists answer rest, used = answer :: rest /\ accepts answer) /\
  exists provider apiKey,
    member "provider" config = Some provider /\ truthy provider = true /\
    member "apiKey" config = Some apiKey /\ truthy apiKey = true /\
    calls_for provider apiKey (ai_prompt_for diff) calls.

(** ** A machine that keeps the answers it gave

    What the workflow does next depends on what git has answered.  [Logged]
    wraps any machine so that every answer to [spawnSync] is written down
    next to its command line; the answers themselves are those of the
    machine inside.  The network leaves the record alone. *)

Record Logged (Sys : Type) : Type := mkLogged {
  inner : Sys;
  answered : list (string * list string * SpawnSyncReturns);
}.
Arguments mkLogged {Sys} inner answered.
Arguments inner {Sys} l.
Arguments answered {Sys} l.

#[export] Instance logged_subprocess {Sys : Type} `{Subprocess Sys}
  : Subprocess (Logged Sys) :=
  fun cmd args l =>
    let (r, s') := spawnSync cmd args (inner l) in
    (r, mkLogged s' (answered l ++ [(cmd, args, r)])).

#[export] Instance logged_network {Sys : Type} `{Network Sys}
  : Network (Logged Sys) := {|
  callAI_run := fun provider apiKey text l fs =>
    let r := callAI_run provider apiKey text (inner l) fs in
    mkAiRun (reply r) (emitted r) (mkLogged (sys_after r) (answered l)) (files_after r);
  https_get := fun url l =>
    let (r, s') := https_get url (inner l) in
    (r, mkLogged s' (answered l));
|}.

(** A git command line with the result [git] made of the answer. *)
Definition Answer : Type := list string * GitResult.

Fixpoint git_answers (entries : list (string * list string * SpawnSyncReturns))
  : list Answer :=
  match entries with
  | [] => []
  | (cmd, args, r) :: rest =>
      if String.eqb cmd "git" then (args, git_result r) :: git_answers rest
      else git_answers rest
  end.

(** The answers of git during the command [m] run on [mc]. *)
Definition answers_of {Sys A} (m : Proc (Logged Sys) A) (mc : Machine (Logged Sys))
  : list Answer :=
  git_answers (skipn (length (answered (sys (world mc))))
                     (answered (sys (world (snd (m mc)))))).

(** Run on any machine that keeps its answers, [m] only adds to them, and
    its outcome with the answers of git it has added satisfies [Q]. *)
Definition logs {Sys A} (m : Proc (Logged Sys) A)
           (Q : Outcome A -> list Answer -> Prop) : Prop :=
  forall mc,
    exists entries,
      answered (sys (world (snd (m mc)))) = answered (sys (world mc)) ++ entries /\
      Q (fst (m mc)) (git_answers entries).

(** The branch [getCurrentBranch] reads from an answer. *)
Definition reported (r : GitResult) : string := if ok r then stdout r else "main".

(** The switch to the branch [name]: the answers, and the branch the
    workflow goes on with. *)
Inductive switched (name : string) : list Answer -> string -> Prop :=
  | switched_existing (r : GitResult) :
      ok r = true ->
      switched name [ (["checkout"; name], r) ] name
  | switched_created (r1 r2 : GitResult) :
      ok r1 = false -> ok r2 = true ->
      switched name [ (["checkout"; name], r1); (["checkout"; "-b"; name], r2) ] name
  | switched_neither (r1 r2 r3 : GitResult) :
      ok r1 = false -> ok r2 = false ->
      switched name
        [ (["checkout"; name], r1); (["checkout"; "-b"; name], r2);
          (["branch"; "--show-current"], r3) ]
        (reported r3).

(** The repository check has passed, the remote and the branch have been
    asked for, and the branch named on the command line, if it is another
    one, has been switched to. *)
Inductive surveyed (opts : Opts) : list Answer -> string -> Prop :=
  | surveyed_in_place (r0 r1 r2 : GitResult) :
      ok r0 = true ->
      (forall wanted, branch opts = Some wanted ->
                      wanted = EmptyString \/ wanted = reported r2) ->
      surveyed opts
        [ (["rev-parse"; "--git-dir"], r0); (["remote"; "get-url"; "origin"], r1);
          (["branch"; "--show-current"], r2) ]
        (reported r2)
  | surveyed_after_switch (r0 r1 r2 : GitResult) (wanted : string)
                          (sw : list Answer) (name : string) :
      ok r0 = true ->
      branch opts = Some wanted ->
      wanted <> EmptyString ->
      wanted <> reported r2 ->
      spawnable ["checkout"; wanted] = true ->
      switched wanted sw name ->
      surveyed opts
        ([ (["rev-parse"; "--git-dir"], r0); (["remote"; "get-url"; "origin"], r1);
           (["branch"; "--show-current"], r2) ] ++ sw)
        name.

(** The status has shown changes. *)
Inductive inspected (opts : Opts) : list Answer -> string -> Prop :=
  | inspected_changes (g : list Answer) (name : string) (rs : GitResult) :
      surveyed opts g name ->
      ok rs = true ->
      stdout rs <> EmptyString ->
      inspected opts (g ++ [ (["status"; "--short"], rs) ]) name.

(** The diff of what is staged, and the diff of the work tree when there
    is none. *)
Inductive diffed : list Answer -> Prop :=
  | diffed_staged (r : GitResult) :
      ok r = true -> stdout r <> EmptyString ->
      diffed [ (["diff"; "--cached"], r) ]
  | diffed_unstaged (r1 r2 : GitResult) :
      ok r1 = false \/ stdout r1 = EmptyString ->
      diffed [ (["diff"; "--cached"], r1); (["diff"], r2) ].

(** The paths the user named have been staged. *)
Inductive staged (opts : Opts) : list Answer -> string -> Prop :=
  | staged_paths (g : list Answer) (name : string) (paths : list string)
                 (ra : GitResult) (d : list Answer) :
      inspected opts g name ->
      paths <> [] ->
      spawnable ("add" :: paths) = true ->
      ok ra = true ->
      diffed d ->
      staged opts (g ++ [ ("add" :: paths, ra) ] ++ d) name.

(** The commit has been made. *)
Inductive committed (opts : Opts) : list Answer -> string -> Prop :=
  | committed_message (g : list Answer) (name message : string) (rc : GitResult) :
      staged opts g name ->
      message <> EmptyString ->
      spawnable ["commit"; "-m"; message] = true ->
      ok rc = true ->
      committed opts (g ++ [ (["commit"; "-m"; message], rc) ]) name.

(** The answers of a push: each retry follows the failure that calls for
    it. *)
Inductive pushed (force : bool) (branch : string) : list Answer -> Prop :=
  | pushed_forced (r : GitResult) :
      force = true ->
      pushed force branch [ (force_push_cmd branch, r) ]
  | pushed_plain (r : GitResult) :
      force = false -> ok r = true ->
      pushed force branch [ (plain_push_cmd branch, r) ]
  | pushed_upstream (r1 r2 : GitResult) :
      force = false -> ok r1 = false ->
      no_upstream (stderr r1) = true ->
      pushed force branch [ (plain_push_cmd branch, r1); (set_upstream_cmd branch, r2) ]
  | pushed_rebase_failed (r1 rb : GitResult) :
      force = false -> ok r1 = false ->
      no_upstream (stderr r1) = false -> rejected (stderr r1) = true ->
      ok rb = false ->
      pushed force branch [ (plain_push_cmd branch, r1); (rebase_cmd branch, rb) ]
  | pushed_after_rebase (r1 rb r2 : GitResult) :
      force = false -> ok r1 = false ->
      no_upstream (stderr r1) = false -> rejected (stderr r1) = true ->
      ok rb = true ->
      pushed force branch
        [ (plain_push_cmd branch, r1); (rebase_cmd branch, rb); (plain_push_cmd branch, r2) ]
  | pushed_fatal (r1 : GitResult) :
      force = false -> ok r1 = false ->
      no_upstream (stderr r1) = false -> rejected (stderr r1) = false ->
      pushed force branch [ (plain_push_cmd branch, r1) ].

(** Every way the workflow can go, with what git answered: how it ends and
    the answers it has had by then. *)
Inductive conducted `{Engine} (opts : Opts) : Outcome unit -> list Answer -> Prop :=
  | conducted_no_repository (r0 : GitResult) :
      ok r0 = false ->
      conducted opts (Exited 1) [ (["rev-parse"; "--git-dir"], r0) ]
  | conducted_switch_refused (r0 r1 r2 : GitResult) (wanted : string) :
      ok r0 = true ->
      branch opts = Some wanted ->
      wanted <> EmptyString ->
      wanted <> reported r2 ->
      spawnable ["checkout"; wanted] = false ->
      conducted opts (Threw (Raised (arg_failure ["checkout"; wanted])))
        [ (["rev-parse"; "--git-dir"], r0); (["remote"; "get-url"; "origin"], r1);
          (["branch"; "--show-current"], r2) ]
  | conducted_no_changes (g : list Answer) (name : string) (rs : GitResult) :
      surveyed opts g name ->
      ok rs = false \/ stdout rs = EmptyString ->
      conducted opts (Exited 0) (g ++ [ (["status"; "--short"], rs) ])
  | conducted_no_paths (g : list Answer) (name : string) :
      inspected opts g name ->
      conducted opts Waiting g
  | conducted_paths_refused (g : list Answer) (name : string) (paths : list string) :
      inspected opts g name ->
      spawnable ("add" :: paths) = false ->
      conducted opts (Threw (Raised (arg_failure ("add" :: paths)))) g
  | conducted_staging_failed (g : list Answer) (name : string) (paths : list string)
                             (ra : GitResult) :
      inspected opts g name ->
      paths <> [] ->
      spawnable ("add" :: paths) = true ->
      ok ra = false ->
      conducted opts (Exited 1) (g ++ [ ("add" :: paths, ra) ])
  | conducted_no_message (g : list Answer) (name : string) :
      staged opts g name ->
      conducted opts Waiting g
  | conducted_empty_message (g : list Answer) (name : string) :
      staged opts g name ->
      conducted opts (Exited 1) g
  | conducted_null_config (g : list Answer) (name : string) :
      staged opts g name ->
      conducted opts (Threw (Raised (null_failure "apiKey"))) g
  | conducted_message_refused (g : list Answer) (name message : string) :
      staged opts g name ->
      spawnable ["commit"; "-m"; message] = false ->
      conducted opts (Threw (Raised (arg_failure ["commit"; "-m"; message]))) g
  | conducted_commit_failed (g : list Answer) (name message : string) (rc : GitResult) :
      staged opts g name ->
      message <> EmptyString ->
      spawnable ["commit"; "-m"; message] = true ->
      ok rc = false ->
      conducted opts (Exited 1) (g ++ [ (["commit"; "-m"; message], rc) ])
  | conducted_not_pushed (g : list Answer) (name : string) :
      committed opts g name ->
      conducted opts (Returned tt) g
  | conducted_no_push_answer (g : list Answer) (name : string) :
      committed opts g name ->
      noPush opts = false ->
      conducted opts Waiting g
  | conducted_branch_refused (g : list Answer) (name : string) :
      committed opts g name ->
      noPush opts = false ->
      has_nul name = true ->
      conducted opts
        (Threw (Raised (arg_failure (if forcePush opts
                                     then force_push_cmd name
                                     else plain_push_cmd name)))) g
  | conducted_pushed (g : list Answer) (name : string) (p : list Answer) :
      committed opts g name ->
      noPush opts = false ->
      has_nul name = false ->
      pushed (forcePush opts) name p ->
      conducted opts (Returned tt) (g ++ p).


(** Where the branch word of a push can come from: the command line, or an
    answer of git to [branch --show-current]. *)
Definition branch_source (opts : Opts) (answers : list Answer) (b : string) : Prop :=
  branch opts = Some b
  \/ exists r, In (["branch"; "--show-current"], r) answers /\ b = reported r.

(** A push or a pull that the workflow runs without [--force-push]. *)
Definition unforced (b : string) (args : list string) : Prop :=
  In args [ plain_push_cmd b; set_upstream_cmd b; rebase_cmd b ].

(** The machine inside: the same world, files, input and logs, without the
    record of the answers. *)
Definition forget_world {Sys} (w : World (Logged Sys)) : World Sys :=
  mkWorld (inner (sys w)) (trace w).

Definition forget {Sys} (mc : Machine (Logged Sys)) : Machine Sys :=
  mkMachine (forget_world (world mc)) (files mc) (stdin mc) (questions mc) (ai_log mc).

(** [m'] goes on the machine inside as [m] goes on the machine that keeps
    its answers: same outcome, same machine at the end. *)
Definition echoes_io {Sys A} (m : M (World (Logged Sys)) A) (m' : M (World Sys) A) : Prop :=
  forall w, m' (forget_world w) = (fst (m w), forget_world (snd (m w))).

Definition echoes {Sys A} (m : Proc (Logged Sys) A) (m' : Proc Sys A) : Prop :=
  forall mc, m' (forget mc) = (fst (m mc), forget (snd (m mc))).

(** ** A concrete engine and network

    [plain_engine] has fixed error texts and prints a number as its
    literal is written (which is what the engine prints for a literal in
    its shortest form, such as [12] or [1.5]); [canned] is a network on
    which every provider replies with the same message after installing its
    package, and the registry announces version 1.0.1. *)

(** The value of a string of decimal digits. *)
Fixpoint digits_value (acc : N) (s : string) : N :=
  match s with
  | EmptyString => acc
  | String c s' => digits_value (10 * acc + (code c - 48)) s'
  end.

(** The exponent part of a number literal, [e] or [E] included. *)
Definition exponent_value (e : string) : Z :=
  match e with
  | String _ (String d t) =>
      if (code d =? 45)%N then (- Z.of_N (digits_value 0 t))%Z
      else if (code d =? 43)%N then Z.of_N (digits_value 0 t)
      else Z.of_N (digits_value 0 (String d t))
  | _ => 0%Z
  end.

(** Whether a number literal is read as zero: its digits are all zero, or
    the number is at most 2^-1075, half of the smallest double above zero,
    and is rounded down to zero. *)
Definition literal_is_zero (lexeme : string) : bool :=
  let (_, s1) := parse_sign lexeme in
  match parse_int s1 with
  | Some (i, s2) =>
      match parse_frac s2 with
      | Some (f, e) =>
          let m := digits_value 0 (i +:+ drop_chars 1 f) in
          let ten := (exponent_value e - Z.of_nat (String.length (drop_chars 1 f)))%Z in
          (m =? 0)%N
          || ((ten <? 0)%Z && (Z.of_N m * 2 ^ 1075 <=? 10 ^ (- ten))%Z)
      | None => false
      end
  | None => false
  end.

(** [String(v)] for a value that is not a string. *)
Fixpoint to_string (v : json) : string :=
  match v with
  | JNull => "null"
  | JBool b => if b then "true" else "false"
  | JNumber lexeme => lexeme
  | JString s => s
  | JArray items =>
      join "," (map (fun item => if is_null item then EmptyString else to_string item) items)
  | JObject _ => "[object Object]"
  end.

#[export] Instance plain_engine : Engine := {|
  number_is_zero := literal_is_zero;
  ToString := to_string;
  parse_failure := fun _ => mkError (Some "Unexpected token");
  null_failure := fun key =>
    mkError (Some ("Cannot read properties of null (reading '" +:+ key +:+ "')"));
  native_error := fun _ => mkError (Some "EIO");
  arg_failure := fun _ =>
    mkError (Some "The argument 'args' must be a string without null bytes.");
|}.

#[export] Instance canned : Network (list SpawnSyncReturns) := {|
  callAI_run := fun _ _ _ script fs =>
    mkAiRun (inl "Update files")
            [ ConsoleLog (info_line "Installing openai...");
              Spawn "npm" ["install"; "--prefix"; "/home/u/.gtxr"; "--no-save";
                           "--loglevel"; "error"; "openai"] ]
            script fs;
  https_get := fun _ script =>
    (inl (JSON_stringify (JObject [("version", JString "1.0.1")])), script);
|}.

(** A machine with the given answers of git, typed lines and files. *)
Definition machine (script : list SpawnSyncReturns) (typed : list string) (fs : FS)
  : Machine (list SpawnSyncReturns) :=
  mkMachine (mkWorld script []) fs typed [] [].

(** The same machine, keeping the answers it gives. *)
Definition logged_machine (script : list SpawnSyncReturns) (typed : list string) (fs : FS)
  : Machine (Logged (list SpawnSyncReturns)) :=
  mkMachine (mkWorld (mkLogged script []) []) fs typed [] [].

(* ===================================================================== *)
(** * Part II: properties                                                  *)
(* ===================================================================== *)

(** ** Strings *)

Lemma startsWith_iff (s p : string) :
  startsWith s p = true <-> exists rest, s = p +:+ rest.
Proof.
  revert s; induction p as [|a p IH]; intros s; simpl.
  - split; [intros _; exists s; reflexivity | reflexivity].
  - destruct s as [|b s]; simpl.
    + split; [discriminate | intros [rest Hr]; discriminate].
    + destruct (Ascii.eqb_spec a b) as [->|Hne].
      * rewrite IH. split; intros [rest Hr]; exists rest; simpl in *; congruence.
      * split; [discriminate | intros [rest Hr]; simpl in Hr; congruence].
Qed.

Lemma includes_iff (s needle : string) :
  includes s needle = true <-> contains s needle.
Proof.
  induction s as [|c s IH].
  - simpl. rewrite orb_false_r, startsWith_iff. split.
    + intros [rest Hr]. exists EmptyString, rest. exact Hr.
    + intros [[|x before] [rest Hr]]; [exists rest; exact Hr | discriminate].
  - cbn [includes]. rewrite orb_true_iff, IH, startsWith_iff. split.
    + intros [[rest Hr] | [before [rest Hr]]].
      * exists EmptyString, rest. exact Hr.
      * exists (String c before), rest. simpl. congruence.
    + intros [[|x before] [rest Hr]].
      * left. exists rest. exact Hr.
      * right. exists before, rest. simpl in Hr. congruence.
Qed.

Lemma no_upstream_iff (e : string) :
  no_upstream e = true <-> exists k, In k no_upstream_words /\ contains e k.
Proof.
  unfold no_upstream, no_upstream_words. rewrite orb_true_iff, !includes_iff. split.
  - intros [Hc | Hc]; eexists; (split; [|exact Hc]); simpl; auto.
  - intros [k [[<- | [<- | []]] Hc]]; auto.
Qed.

Lemma rejected_iff (e : string) :
  rejected e = true <-> exists k, In k rejection_words /\ contains (toLowerCase e) k.
Proof.
  unfold rejected, rejection_words. rewrite existsb_exists. split.
  - intros [k [Hin Hc]]. exists k. split; [exact Hin | apply includes_iff, Hc].
  - intros [k [Hin Hc]]. exists k. split; [exact Hin | apply includes_iff, Hc].
Qed.

(** ** Running a computation step by step *)

Lemma log_step {Sys B} (line : string) (k : unit -> M (World Sys) B) (w : World Sys) :
  bind (console_log line) k w = k tt (after w [ConsoleLog line]).
Proof. reflexivity. Qed.

Lemma git_step {Sys} `{Subprocess Sys} {B} (args : list string) (k : GitResult -> M (World Sys) B)
      (w : World Sys) (r : SpawnSyncReturns) (s : Sys) :
  spawnSync "git" args (sys w) = (r, s) ->
  bind (git args) k w = k (git_result r) (mkWorld s (trace w ++ [Spawn "git" args])).
Proof. intros Hr. unfold bind, git. rewrite Hr. reflexivity. Qed.

Lemma git_last {Sys} `{Subprocess Sys} (args : list string) (w : World Sys) (r : SpawnSyncReturns) (s : Sys) :
  spawnSync "git" args (sys w) = (r, s) ->
  git args w = (Ret (git_result r), mkWorld s (trace w ++ [Spawn "git" args])).
Proof. intros Hr. unfold git. rewrite Hr. reflexivity. Qed.

Ltac start_push :=
  unfold push, Console.ok, Console.err, Console.info, Console.warn; rewrite ?log_step;
  match goal with
  | Hr : spawnSync "git" ?args (sys ?w) = _ |- context [bind (git ?args) _ (after ?w _)] =>
      rewrite (git_step args _ (after w _) _ _ Hr)
  end.

Ltac finish :=
  cbv [bind console_log ret after sys trace];
  rewrite <- ?List.app_assoc; reflexivity.

Section Dispatch.
Context {Sys : Type} `{Subprocess Sys}.

(** A plain push that fails for want of an upstream is followed by one
    set-upstream push, whose answer is final. *)
Lemma push_set_upstream_path (branch : string) (w : World Sys)
      (r1 r2 : SpawnSyncReturns) (s1 s2 : Sys) :
  spawnSync "git" ["push"; "origin"; branch] (sys w) = (r1, s1) ->
  ok (git_result r1) = false ->
  no_upstream (stderr (git_result r1)) = true ->
  spawnSync "git" ["push"; "--set-upstream"; "origin"; branch] s1 = (r2, s2) ->
  push branch false w =
    (Ret (ok (git_result r2)),
     mkWorld s2 (trace w ++ set_upstream_events branch (git_result r2))).
Proof.
  intros H1 Hko Hnu H2. start_push. rewrite Hko, Hnu, log_step.
  rewrite (git_step _ _ _ r2 s2) by exact H2.
  unfold set_upstream_events. destruct (ok (git_result r2)); finish.
Qed.

(** A rejected plain push is followed by one rebase-pull; when that fails,
    nothing else is run. *)
Lemma push_rebase_failed_path (branch : string) (w : World Sys)
      (r1 rb : SpawnSyncReturns) (s1 sb : Sys) :
  spawnSync "git" ["push"; "origin"; branch] (sys w) = (r1, s1) ->
  ok (git_result r1) = false ->
  no_upstream (stderr (git_result r1)) = false ->
  rejected (stderr (git_result r1)) = true ->
  spawnSync "git" ["pull"; "--rebase"; "origin"; branch] s1 = (rb, sb) ->
  ok (git_result rb) = false ->
  push branch false w =
    (Ret false, mkWorld sb (trace w ++ rebase_failed_events branch)).
Proof.
  intros H1 Hko Hnu Hrej Hb Hbko. start_push. rewrite Hko, Hnu, Hrej, log_step.
  rewrite (git_step _ _ _ rb sb) by exact Hb.
  rewrite Hbko. unfold rebase_failed_events. cbn [negb]. finish.
Qed.

(** When the rebase-pull succeeds the plain push is run once more, and its
    answer is final. *)
Lemma push_rebase_retry_path (branch : string) (w : World Sys)
      (r1 rb r2 : SpawnSyncReturns) (s1 sb s2 : Sys) :
  spawnSync "git" ["push"; "origin"; branch] (sys w) = (r1, s1) ->
  ok (git_result r1) = false ->
  no_upstream (stderr (git_result r1)) = false ->
  rejected (stderr (git_result r1)) = true ->
  spawnSync "git" ["pull"; "--rebase"; "origin"; branch] s1 = (rb, sb) ->
  ok (git_result rb) = true ->
  spawnSync "git" ["push"; "origin"; branch] sb = (r2, s2) ->
  push branch false w =
    (Ret (ok (git_result r2)),
     mkWorld s2 (trace w ++ rebase_retry_events branch (git_result r2))).
Proof.
  intros H1 Hko Hnu Hrej Hb Hbok H2. start_push. rewrite Hko, Hnu, Hrej, log_step.
  rewrite (git_step _ _ _ rb sb) by exact Hb.
  rewrite Hbok. cbn [negb].
  rewrite (git_step _ _ _ r2 s2) by exact H2.
  unfold rebase_retry_events. destruct (ok (git_result r2)); finish.
Qed.

(** Any other failure of the plain push is reported and nothing is retried. *)
Lemma push_fatal_path (branch : string) (w : World Sys)
      (r1 : SpawnSyncReturns) (s1 : Sys) :
  spawnSync "git" ["push"; "origin"; branch] (sys w) = (r1, s1) ->
  ok (git_result r1) = false ->
  no_upstream (stderr (git_result r1)) = false ->
  rejected (stderr (git_result r1)) = false ->
  push branch false w =
    (Ret false,
     mkWorld s1 (trace w ++
       [ ConsoleLog (info_line ("Pushing to origin/" +:+ branch +:+ "..."));
         Spawn "git" ["push"; "origin"; branch];
         ConsoleLog (err_line ("Push failed: " +:+ stderr (git_result r1))) ])).
Proof.
  intros H1 Hko Hnu Hrej. start_push. rewrite Hko, Hnu, Hrej. finish.
Qed.

End Dispatch.

(** ** The trace *)

Lemma added_events {Sys A} (m : M (World Sys) A) (w : World Sys)
      (r : Res A) (s : Sys) (evs : list Event) :
  m w = (r, mkWorld s (trace w ++ evs)) -> added m w = evs.
Proof.
  intros Hm. unfold added. rewrite Hm. cbn [snd trace].
  rewrite skipn_app, skipn_all, Nat.sub_diag. reflexivity.
Qed.


(** ** The push dispatcher *)

Section PushProperties.
Context {Sys : Type} `{Subprocess Sys}.

(** C1. When the plain push fails and its stderr contains a no-upstream
    substring ("no upstream" or "has no upstream") as well as a rejection
    substring ("fetch first", "non-fast-forward" or "rejected", in any case),
    the dispatcher takes the set-upstream path: the commands run are the
    plain push and one set-upstream push, and no rebase-pull. *)
Theorem push_no_upstream_before_rejected (branch : string) (w : World Sys)
      (r1 r2 : SpawnSyncReturns) (s1 s2 : Sys) :
  spawnSync "git" ["push"; "origin"; branch] (sys w) = (r1, s1) ->
  ok (git_result r1) = false ->
  (exists k, In k no_upstream_words /\ contains (stderr (git_result r1)) k) ->
  (exists k, In k rejection_words /\ contains (toLowerCase (stderr (git_result r1))) k) ->
  spawnSync "git" ["push"; "--set-upstream"; "origin"; branch] s1 = (r2, s2) ->
  push branch false w =
    (Ret (ok (git_result r2)),
     mkWorld s2 (trace w ++ set_upstream_events branch (git_result r2)))
  /\ git_calls (added (push branch false) w) =
       [ ["push"; "origin"; branch]; ["push"; "--set-upstream"; "origin"; branch] ].
Proof.
  intros H1 Hko Hnu _ H2. apply no_upstream_iff in Hnu.
  pose proof (push_set_upstream_path branch w r1 r2 s1 s2 H1 Hko Hnu H2) as Hp.
  split; [exact Hp|]. rewrite (added_events _ _ _ _ _ Hp). reflexivity.
Qed.

(** C2. When a non-forced plain push fails with stderr
    "fatal: The current branch has no upstream branch", the dispatcher runs
    exactly one [push --set-upstream origin <branch>]; its success or failure
    is the result, and nothing is run after it. *)
Theorem push_sets_upstream_once (branch : string) (w : World Sys)
      (r1 r2 : SpawnSyncReturns) (s1 s2 : Sys) :
  spawnSync "git" ["push"; "origin"; branch] (sys w) = (r1, s1) ->
  ok (git_result r1) = false ->
  stderr (git_result r1) = "fatal: The current branch has no upstream branch" ->
  spawnSync "git" ["push"; "--set-upstream"; "origin"; branch] s1 = (r2, s2) ->
  push branch false w =
    (Ret (ok (git_result r2)),
     mkWorld s2 (trace w ++
       [ ConsoleLog (info_line ("Pushing to origin/" +:+ branch +:+ "..."));
         Spawn "git" ["push"; "origin"; branch];
         ConsoleLog (info_line "New branch — setting upstream automatically...");
         Spawn "git" ["push"; "--set-upstream"; "origin"; branch];
         ConsoleLog (if ok (git_result r2)
                     then ok_line ("Pushed and upstream set for origin/" +:+ branch)
                     else err_line ("Failed to set upstream: " +:+ stderr (git_result r2))) ])).
Proof.
  intros H1 Hko He H2.
  apply (push_set_upstream_path branch w r1 r2 s1 s2 H1 Hko); [|exact H2].
  rewrite He. reflexivity.
Qed.

(** C3. When a non-forced plain push fails with stderr
    "! [rejected] main -> main (non-fast-forward)", the dispatcher runs exactly
    one [pull --rebase].  If the rebase fails it prints the instructions for a
    manual resolution, returns false and runs no push.  If the rebase succeeds
    it runs the plain push once more, and the success or failure of that push
    is the result. *)
Theorem push_rebases_once (branch : string) (w : World Sys)
      (r1 rb : SpawnSyncReturns) (s1 sb : Sys) :
  spawnSync "git" ["push"; "origin"; branch] (sys w) = (r1, s1) ->
  ok (git_result r1) = false ->
  stderr (git_result r1) = "! [rejected] main -> main (non-fast-forward)" ->
  spawnSync "git" ["pull"; "--rebase"; "origin"; branch] s1 = (rb, sb) ->
  (ok (git_result rb) = false ->
   push branch false w =
     (Ret false,
      mkWorld sb (trace w ++
        [ ConsoleLog (info_line ("Pushing to origin/" +:+ branch +:+ "..."));
          Spawn "git" ["push"; "origin"; branch];
          ConsoleLog (info_line "Remote has new commits — rebasing automatically...");
          Spawn "git" ["pull"; "--rebase"; "origin"; branch];
          ConsoleLog (err_line "Auto-rebase failed — conflicts need manual resolution.");
          ConsoleLog (info_line "Your repo is in rebase state. To resolve:");
          ConsoleLog (info_line "  1. Open conflicted files and fix the markers");
          ConsoleLog (info_line "  2. git add .");
          ConsoleLog (info_line "  3. git rebase --continue");
          ConsoleLog (info_line ("  4. git push origin " +:+ branch));
          ConsoleLog (info_line "  Or to cancel: git rebase --abort") ])))
  /\
  (ok (git_result rb) = true ->
   forall (r2 : SpawnSyncReturns) (s2 : Sys),
     spawnSync "git" ["push"; "origin"; branch] sb = (r2, s2) ->
     push branch false w =
       (Ret (ok (git_result r2)),
        mkWorld s2 (trace w ++
          [ ConsoleLog (info_line ("Pushing to origin/" +:+ branch +:+ "..."));
            Spawn "git" ["push"; "origin"; branch];
            ConsoleLog (info_line "Remote has new commits — rebasing automatically...");
            Spawn "git" ["pull"; "--rebase"; "origin"; branch];
            Spawn "git" ["push"; "origin"; branch];
            ConsoleLog (if ok (git_result r2)
                        then ok_line ("Pushed to origin/" +:+ branch +:+ " after rebase.")
                        else err_line ("Push failed after rebase: " +:+ stderr (git_result r2))) ]))).
Proof.
  intros H1 Hko He Hb.
  assert (Hnu : no_upstream (stderr (git_result r1)) = false) by (rewrite He; reflexivity).
  assert (Hrej : rejected (stderr (git_result r1)) = true) by (rewrite He; reflexivity).
  split.
  - intros Hbko. exact (push_rebase_failed_path branch w r1 rb s1 sb H1 Hko Hnu Hrej Hb Hbko).
  - intros Hbok r2 s2 H2.
    exact (push_rebase_retry_path branch w r1 rb r2 s1 sb s2 H1 Hko Hnu Hrej Hb Hbok H2).
Qed.

(** C8. A force push runs exactly one [push --force]; whether it succeeds or
    fails, that is the result: no plain push, no set-upstream push and no
    rebase-pull is run. *)
Theorem push_force_is_terminal (branch : string) (w : World Sys)
      (r : SpawnSyncReturns) (s : Sys) :
  spawnSync "git" ["push"; "--force"; "origin"; branch] (sys w) = (r, s) ->
  push branch true w =
    (Ret (ok (git_result r)),
     mkWorld s (trace w ++
       [ ConsoleLog (warn_line "Force pushing — this overwrites remote history.");
         Spawn "git" ["push"; "--force"; "origin"; branch];
         ConsoleLog (if ok (git_result r)
                     then ok_line ("Force-pushed to origin/" +:+ branch)
                     else err_line ("Force push failed: " +:+ stderr (git_result r))) ])).
Proof.
  intros Hr. start_push. destruct (ok (git_result r)); finish.
Qed.

(** C10. The no-upstream test is an exact, case-sensitive search for
    "no upstream" / "has no upstream"; the rejection test searches the
    lower-cased stderr for "fetch first", "non-fast-forward" and "rejected".
    After a failed plain push the set-upstream push is run exactly when
    stderr has a no-upstream word in that exact spelling, and the rebase-pull
    is run exactly when it has none and its lower-cased form has a rejection
    word.  So "HAS NO UPSTREAM" is never taken for a missing upstream, and
    with "REJECTED" next to it the rebase path is taken. *)
Theorem push_upstream_test_is_case_sensitive (branch : string) (w : World Sys)
      (r1 : SpawnSyncReturns) (s1 : Sys) :
  spawnSync "git" ["push"; "origin"; branch] (sys w) = (r1, s1) ->
  ok (git_result r1) = false ->
  (In ["push"; "--set-upstream"; "origin"; branch] (git_calls (added (push branch false) w))
   <-> exists k, In k no_upstream_words /\ contains (stderr (git_result r1)) k)
  /\
  (In ["pull"; "--rebase"; "origin"; branch] (git_calls (added (push branch false) w))
   <-> ~ (exists k, In k no_upstream_words /\ contains (stderr (git_result r1)) k)
       /\ exists k, In k rejection_words /\ contains (toLowerCase (stderr (git_result r1))) k).
Proof.
  intros H1 Hko. rewrite <- no_upstream_iff, <- rejected_iff.
  destruct (no_upstream (stderr (git_result r1))) eqn:Hnu.
  - destruct (spawnSync "git" ["push"; "--set-upstream"; "origin"; branch] s1)
      as [r2 s2] eqn:H2.
    rewrite (added_events _ _ _ _ _ (push_set_upstream_path branch w r1 r2 s1 s2 H1 Hko Hnu H2)).
    cbn [git_calls set_upstream_events In]. split.
    + split; [reflexivity | auto].
    + split; [intros [Hc | [Hc | []]]; discriminate | intros [Hc _]; congruence].
  - destruct (rejected (stderr (git_result r1))) eqn:Hrej.
    + destruct (spawnSync "git" ["pull"; "--rebase"; "origin"; branch] s1) as [rb sb] eqn:Hb.
      destruct (ok (git_result rb)) eqn:Hbok.
      * destruct (spawnSync "git" ["push"; "origin"; branch] sb) as [r2 s2] eqn:H2.
        rewrite (added_events _ _ _ _ _
                   (push_rebase_retry_path branch w r1 rb r2 s1 sb s2
                      H1 Hko Hnu Hrej Hb Hbok H2)).
        cbn [git_calls rebase_retry_events In]. split.
        -- split; [intros [Hc | [Hc | [Hc | []]]]; discriminate | discriminate].
        -- split; [intros _; split; [discriminate | reflexivity] | auto].
      * rewrite (added_events _ _ _ _ _
                   (push_rebase_failed_path branch w r1 rb s1 sb H1 Hko Hnu Hrej Hb Hbok)).
        cbn [git_calls rebase_failed_events In]. split.
        -- split; [intros [Hc | [Hc | []]]; discriminate | discriminate].
        -- split; [intros _; split; [discriminate | reflexivity] | auto].
    + rewrite (added_events _ _ _ _ _ (push_fatal_path branch w r1 s1 H1 Hko Hnu Hrej)).
      cbn [git_calls In]. split.
      * split; [intros [Hc | []]; discriminate | discriminate].
      * split; [intros [Hc | []]; discriminate | intros [_ Hc]; discriminate].
Qed.

End PushProperties.

Lemma push_no_upstream_before_rejected_witness :
  push "main" false
    (mkWorld [ exited 1 EmptyString "fatal: no upstream, and ! [rejected]";
               exited 0 EmptyString EmptyString ] []) =
    (Ret true,
     mkWorld [] (set_upstream_events "main" (git_result (exited 0 EmptyString EmptyString))))
  /\ git_calls (added (push "main" false)
       (mkWorld [ exited 1 EmptyString "fatal: no upstream, and ! [rejected]";
                  exited 0 EmptyString EmptyString ] [])) =
       [ ["push"; "origin"; "main"]; ["push"; "--set-upstream"; "origin"; "main"] ].
Proof.
  apply (push_no_upstream_before_rejected "main"
           (mkWorld [ exited 1 EmptyString "fatal: no upstream, and ! [rejected]";
                      exited 0 EmptyString EmptyString ] [])
           (exited 1 EmptyString "fatal: no upstream, and ! [rejected]")
           (exited 0 EmptyString EmptyString)
           [exited 0 EmptyString EmptyString] []).
  - reflexivity.
  - reflexivity.
  - exists "no upstream". split; [simpl; auto|].
    exists "fatal: ", ", and ! [rejected]". reflexivity.
  - exists "rejected". split; [simpl; auto|].
    exists "fatal: no upstream, and ! [", "]". reflexivity.
  - reflexivity.
Defined.

Lemma push_sets_upstream_once_witness :
  push "feature" false
    (mkWorld [ exited 128 EmptyString
                 ("fatal: The current branch has no upstream branch" +:+ LF);
               exited 1 EmptyString "remote: permission denied" ] []) =
    (Ret false,
     mkWorld []
       [ ConsoleLog (info_line "Pushing to origin/feature...");
         Spawn "git" ["push"; "origin"; "feature"];
         ConsoleLog (info_line "New branch — setting upstream automatically...");
         Spawn "git" ["push"; "--set-upstream"; "origin"; "feature"];
         ConsoleLog (err_line "Failed to set upstream: remote: permission denied") ]).
Proof.
  apply (push_sets_upstream_once "feature"
           (mkWorld [ exited 128 EmptyString
                        ("fatal: The current branch has no upstream branch" +:+ LF);
                      exited 1 EmptyString "remote: permission denied" ] [])
           (exited 128 EmptyString ("fatal: The current branch has no upstream branch" +:+ LF))
           (exited 1 EmptyString "remote: permission denied")
           [exited 1 EmptyString "remote: permission denied"] []);
    reflexivity.
Defined.

Lemma push_rebases_once_witness :
  push "main" false
    (mkWorld [ exited 1 EmptyString "! [rejected] main -> main (non-fast-forward)";
               exited 1 EmptyString "CONFLICT (content)";
               exited 0 EmptyString EmptyString ] []) =
    (Ret false,
     mkWorld [exited 0 EmptyString EmptyString] (rebase_failed_events "main"))
  /\
  push "main" false
    (mkWorld [ exited 1 EmptyString "! [rejected] main -> main (non-fast-forward)";
               exited 0 EmptyString EmptyString;
               exited 0 EmptyString EmptyString ] []) =
    (Ret true,
     mkWorld [] (rebase_retry_events "main" (git_result (exited 0 EmptyString EmptyString)))).
Proof.
  split.
  - apply (proj1 (push_rebases_once "main"
             (mkWorld [ exited 1 EmptyString "! [rejected] main -> main (non-fast-forward)";
                        exited 1 EmptyString "CONFLICT (content)";
                        exited 0 EmptyString EmptyString ] [])
             (exited 1 EmptyString "! [rejected] main -> main (non-fast-forward)")
             (exited 1 EmptyString "CONFLICT (content)")
             [ exited 1 EmptyString "CONFLICT (content)"; exited 0 EmptyString EmptyString ]
             [ exited 0 EmptyString EmptyString ]
             eq_refl eq_refl eq_refl eq_refl)).
    reflexivity.
  - apply (proj2 (push_rebases_once "main"
             (mkWorld [ exited 1 EmptyString "! [rejected] main -> main (non-fast-forward)";
                        exited 0 EmptyString EmptyString;
                        exited 0 EmptyString EmptyString ] [])
             (exited 1 EmptyString "! [rejected] main -> main (non-fast-forward)")
             (exited 0 EmptyString EmptyString)
             [ exited 0 EmptyString EmptyString; exited 0 EmptyString EmptyString ]
             [ exited 0 EmptyString EmptyString ]
             eq_refl eq_refl eq_refl eq_refl)
           eq_refl (exited 0 EmptyString EmptyString) []).
    reflexivity.
Defined.

Lemma push_force_is_terminal_witness :
  push "main" true
    (mkWorld [ exited 1 EmptyString "! [rejected] main -> main (non-fast-forward)";
               exited 0 EmptyString EmptyString ] []) =
    (Ret false,
     mkWorld [exited 0 EmptyString EmptyString]
       [ ConsoleLog (warn_line "Force pushing — this overwrites remote history.");
         Spawn "git" ["push"; "--force"; "origin"; "main"];
         ConsoleLog (err_line
           "Force push failed: ! [rejected] main -> main (non-fast-forward)") ]).
Proof.
  apply (push_force_is_terminal "main"
           (mkWorld [ exited 1 EmptyString "! [rejected] main -> main (non-fast-forward)";
                      exited 0 EmptyString EmptyString ] [])
           (exited 1 EmptyString "! [rejected] main -> main (non-fast-forward)")
           [exited 0 EmptyString EmptyString]).
  reflexivity.
Defined.

Lemma push_upstream_test_is_case_sensitive_witness :
  ~ In ["push"; "--set-upstream"; "origin"; "main"]
      (git_calls (added (push "main" false)
         (mkWorld [ exited 1 EmptyString "FATAL: BRANCH HAS NO UPSTREAM; REJECTED";
                    exited 0 EmptyString EmptyString;
                    exited 0 EmptyString EmptyString ] [])))
  /\
  In ["pull"; "--rebase"; "origin"; "main"]
      (git_calls (added (push "main" false)
         (mkWorld [ exited 1 EmptyString "FATAL: BRANCH HAS NO UPSTREAM; REJECTED";
                    exited 0 EmptyString EmptyString;
                    exited 0 EmptyString EmptyString ] []))).
Proof.
  destruct (push_upstream_test_is_case_sensitive "main"
              (mkWorld [ exited 1 EmptyString "FATAL: BRANCH HAS NO UPSTREAM; REJECTED";
                         exited 0 EmptyString EmptyString;
                         exited 0 EmptyString EmptyString ] [])
              (exited 1 EmptyString "FATAL: BRANCH HAS NO UPSTREAM; REJECTED")
              [ exited 0 EmptyString EmptyString; exited 0 EmptyString EmptyString ]
              eq_refl eq_refl) as [Hup Hreb].
  assert (Hno : ~ (exists k, In k no_upstream_words /\
                     contains "FATAL: BRANCH HAS NO UPSTREAM; REJECTED" k)).
  { intros [k [[<- | [<- | []]] Hc]]; apply includes_iff in Hc; vm_compute in Hc;
      discriminate. }
  split.
  - intros Hin. exact (Hno (proj1 Hup Hin)).
  - refine (proj2 Hreb (conj Hno _)).
    exists "rejected". split; [simpl; auto|].
    exists "fatal: branch has no upstream; ", EmptyString. reflexivity.
Defined.

(** ** Branch switching *)

(** C9. [switchBranch] first runs [checkout <name>] and returns the name when
    that succeeds; when it fails it runs [checkout -b <name>] and returns the
    name when that succeeds; when that fails too it reports the failure,
    asks [git branch --show-current] and returns the trimmed answer, or
    [main] when that query fails.  What is returned is what git reports
    after the two attempts, which need not be the branch that was current
    before them. *)
Theorem switchBranch_falls_back_to_reported {Sys : Type} `{Subprocess Sys}
      (name : string) (w : World Sys) (r1 : SpawnSyncReturns) (s1 : Sys) :
  has_nul name = false ->
  spawnSync "git" ["checkout"; name] (sys w) = (r1, s1) ->
  (ok (git_result r1) = true ->
   switchBranch name w =
     (Ret name,
      mkWorld s1 (trace w ++
        [ Spawn "git" ["checkout"; name];
          ConsoleLog (ok_line ("Switched to branch: " +:+ name)) ])))
  /\
  (ok (git_result r1) = false ->
   forall (r2 : SpawnSyncReturns) (s2 : Sys),
     spawnSync "git" ["checkout"; "-b"; name] s1 = (r2, s2) ->
     (ok (git_result r2) = true ->
      switchBranch name w =
        (Ret name,
         mkWorld s2 (trace w ++
           [ Spawn "git" ["checkout"; name];
             ConsoleLog (info_line ("Branch '" +:+ name +:+ "' not found — creating it..."));
             Spawn "git" ["checkout"; "-b"; name];
             ConsoleLog (ok_line ("Created and switched to: " +:+ name)) ])))
     /\
     (ok (git_result r2) = false ->
      forall (r3 : SpawnSyncReturns) (s3 : Sys),
        spawnSync "git" ["branch"; "--show-current"] s2 = (r3, s3) ->
        switchBranch name w =
          (Ret (if ok (git_result r3) then trim (or_empty (raw_stdout r3)) else "main"),
           mkWorld s3 (trace w ++
             [ Spawn "git" ["checkout"; name];
               ConsoleLog (info_line ("Branch '" +:+ name +:+ "' not found — creating it..."));
               Spawn "git" ["checkout"; "-b"; name];
               ConsoleLog (err_line ("Could not switch/create branch '" +:+ name +:+ "': "
                                     +:+ stderr (git_result r2)));
               Spawn "git" ["branch"; "--show-current"] ])))).
Proof.
  intros _ H1. split.
  - intros Hok1. unfold switchBranch, Console.ok.
    rewrite (git_step _ _ _ r1 s1) by exact H1. rewrite Hok1. finish.
  - intros Hko1 r2 s2 H2. split.
    + intros Hok2. unfold switchBranch, Console.ok, Console.info.
      rewrite (git_step _ _ _ r1 s1) by exact H1. rewrite Hko1, log_step.
      rewrite (git_step _ _ _ r2 s2) by exact H2. rewrite Hok2. finish.
    + intros Hko2 r3 s3 H3.
      unfold switchBranch, getCurrentBranch, Console.ok, Console.err, Console.info.
      rewrite (git_step _ _ _ r1 s1) by exact H1. rewrite Hko1, log_step.
      rewrite (git_step _ _ _ r2 s2) by exact H2. rewrite Hko2, log_step.
      rewrite (git_step _ _ _ r3 s3) by exact H3. finish.
Qed.

(** With a [post-checkout] hook that fails, the checkout of an existing
    branch moves [HEAD] and fails, the creation fails because the branch
    exists, and the branch returned is the one asked for, not the one that
    was current before. *)
Lemma switchBranch_after_failing_hook :
  fst (getCurrentBranch (mkWorld (mkHooked (mkRepo "main" ["main"; "dev"])) [])) = Ret "main"
  /\ fst (switchBranch "dev" (mkWorld (mkHooked (mkRepo "main" ["main"; "dev"])) [])) =
     Ret "dev"
  /\ console (added (switchBranch "dev")
                    (mkWorld (mkHooked (mkRepo "main" ["main"; "dev"])) [])) =
       [ info_line "Branch 'dev' not found — creating it...";
         err_line "Could not switch/create branch 'dev': fatal: cannot create branch 'dev'" ].
Proof. vm_compute. auto. Qed.

Lemma switchBranch_falls_back_to_reported_witness :
  switchBranch "-x" (mkWorld (mkRepo "main" ["main"]) []) =
    (Ret "main",
     mkWorld (mkRepo "main" ["main"])
       [ Spawn "git" ["checkout"; "-x"];
         ConsoleLog (info_line "Branch '-x' not found — creating it...");
         Spawn "git" ["checkout"; "-b"; "-x"];
         ConsoleLog (err_line
           "Could not switch/create branch '-x': fatal: cannot create branch '-x'");
         Spawn "git" ["branch"; "--show-current"] ]).
Proof.
  exact (proj2 (proj2 (switchBranch_falls_back_to_reported "-x"
                  (mkWorld (mkRepo "main" ["main"]) [])
                  (exited 1 EmptyString "error: pathspec '-x' did not match")
                  (mkRepo "main" ["main"]) eq_refl eq_refl)
                eq_refl
                (exited 128 EmptyString "fatal: cannot create branch '-x'")
                (mkRepo "main" ["main"]) eq_refl)
          eq_refl
          (exited 0 ("main" +:+ LF) EmptyString)
          (mkRepo "main" ["main"]) eq_refl).
Defined.

(** ** Trimming *)

Lemma append_nil_r (s : string) : s +:+ EmptyString = s.
Proof. induction s as [|c s IH]; simpl; [reflexivity | rewrite IH; reflexivity]. Qed.

Lemma append_assoc (a b c : string) : (a +:+ b) +:+ c = a +:+ (b +:+ c).
Proof. induction a as [|x a IH]; simpl; [reflexivity | rewrite IH; reflexivity]. Qed.





Lemma all_space_unit (u : string) : In u white_space -> all_space u.
Proof.
  intros Hu. rewrite <- (append_nil_r u). constructor; [exact Hu | constructor].
Qed.


















(** A no-break space, an ideographic space and a byte order mark are
    trimmed as a space is; a zero width space is kept. *)
Lemma trim_unicode_spaces :
  trim (utf8 160 +:+ utf8 65279 +:+ " y" +:+ utf8 12288 +:+ LF) = "y"
  /\ trim (utf8 8203 +:+ "y") = utf8 8203 +:+ "y".
Proof. split; vm_compute; reflexivity. Qed.

(** ** The version-control adapter *)




(** ** The AI failure classifier *)

(** C4, as the code has it.  [handleAiError] lower-cases the message and
    reports the class of the first rule that matches, in the order
    credit / quota / insufficient, then invalid / auth / 401, then rate / 429;
    a message that matches no rule is printed as it is.  "insufficient_quota"
    is reported as exhausted credits, "401 Unauthorized" as an invalid key,
    "429 too many requests" as a rate limit and "ECONNRESET" as unknown. *)
Theorem handleAiError_first_match :
  (forall (Sys : Type) (provider : string) (error : JsError) (w : World Sys),
     handleAiError provider error w =
       (Ret tt,
        after w (map ConsoleLog
          (report (first_match rules_in_code (or_empty (message error))) provider error))))
  /\ first_match rules_in_code "insufficient_quota" = CreditsExhausted
  /\ first_match rules_in_code "401 Unauthorized" = InvalidKey
  /\ first_match rules_in_code "429 too many requests" = RateLimited
  /\ first_match rules_in_code "ECONNRESET" = Unknown
  /\ (forall (provider text : string),
        report Unknown provider (mkError (Some text)) =
          [err_line ("AI generation failed: " +:+ text)]).
Proof.
  split; [|repeat split; reflexivity].
  intros Sys provider error w.
  unfold handleAiError, rules_in_code.
  set (msg := toLowerCase (or_empty (message error))).
  cbn [first_match existsb]. fold msg.
  unfold Console.err, Console.info.
  destruct (includes msg "credit"), (includes msg "quota"), (includes msg "insufficient");
    cbn [orb report];
    try (destruct (String.eqb provider "anthropic"), (String.eqb provider "openai"); finish).
  all: destruct (includes msg "invalid"), (includes msg "auth"), (includes msg "401");
    cbn [orb report]; try finish.
  all: destruct (includes msg "rate"), (includes msg "429"); cbn [orb report]; finish.
Qed.

(** C4, as stated, fails: with "credits" for a keyword the message
    "Your credit balance is too low" would match no rule, and the code
    reports it as exhausted credits. *)
Lemma handleAiError_matches_credit :
  console (added (handleAiError "anthropic" (mkError (Some "Your credit balance is too low")))
                 (mkWorld tt []))
  <> report (first_match rules_as_specified "Your credit balance is too low")
            "anthropic" (mkError (Some "Your credit balance is too low")).
Proof. vm_compute. discriminate. Qed.

(** ** The argument parser *)

Lemma is_flag_cases (x : string) :
  is_flag x = true -> In (toLowerCase x) flag_words.
Proof.
  unfold is_flag. rewrite existsb_exists. intros [k [Hin Hk]].
  apply String.eqb_eq in Hk. rewrite Hk. exact Hin.
Qed.

Lemma is_branch_option_cases (x : string) :
  is_branch_option x = true -> toLowerCase x = "--branch" \/ toLowerCase x = "-b".
Proof.
  unfold is_branch_option. cbn [existsb]. rewrite !orb_true_iff, !String.eqb_eq.
  intuition discriminate.
Qed.

Section Parser.
Context {Sys : Type}.
Implicit Types (o : Opts) (w : World Sys).

Lemma parse_loop_unknown (x : string) (post : list string) o w :
  has (toLowerCase x) = false ->
  parse_loop (x :: post) o w =
    (Exit 1,
     after w [ ConsoleLog (err_line ("Unknown argument: '" +:+ x +:+ "'"));
               ConsoleLog (info_line "Run 'gtxr --help' to see valid commands.") ]).
Proof.
  intros Hx. cbn [parse_loop]. rewrite Hx. cbn [negb].
  unfold Console.err, Console.info, exit. finish.
Qed.

Lemma parse_loop_branch_last (x : string) o w :
  is_branch_option x = true ->
  parse_loop [x] o w =
    (Exit 1, after w [ConsoleLog (err_line "--branch requires a branch name.")]).
Proof.
  intros [Hx | Hx]%is_branch_option_cases; cbn [parse_loop]; rewrite Hx; reflexivity.
Qed.

Lemma parse_loop_branch_operand (x name : string) (rest : list string) o w :
  is_branch_option x = true ->
  parse_loop (x :: name :: rest) o w = parse_loop rest (set_branch name o) w.
Proof.
  intros [Hx | Hx]%is_branch_option_cases; cbn [parse_loop]; rewrite Hx; reflexivity.
Qed.

Lemma resumes_step (post : list string) (y : string) (rest : list string) :
  resumes (Sys := Sys) post rest ->
  (forall x rest', rest = x :: rest' -> resumes (Sys := Sys) post rest') ->
  resumes (Sys := Sys) post (y :: rest).
Proof.
  intros HP HP' o o' w w'. cbn [parse_loop app].
  repeat match goal with
         | |- context [if ?c then _ else _] => destruct c
         end;
    try (apply HP); try (intros Hx; discriminate Hx).
  destruct rest as [|x rest']; [intros Hx; discriminate Hx|].
  apply (HP' x rest' eq_refl).
Qed.

Lemma parse_loop_resumes (post pre : list string) :
  resumes (Sys := Sys) post pre /\ forall y, resumes (Sys := Sys) post (y :: pre).
Proof.
  induction pre as [|x pre [IH1 IH2]].
  - assert (H0 : resumes (Sys := Sys) post []).
    { intros o o' w w' Hr. cbn in Hr. injection Hr as -> ->. reflexivity. }
    split; [exact H0|]. intros y. apply resumes_step; [exact H0 | discriminate].
  - split; [apply IH2|]. intros y. apply resumes_step; [apply IH2|].
    intros x' rest' E. injection E as -> ->. exact IH1.
Qed.

End Parser.

Lemma parse_loop_flags {Sys : Type} (args : list string) :
  forall (o : Opts) (w : World Sys),
    forallb is_flag args = true ->
    parse_loop args o w =
      (Ret {| version := version o || given ["-v"; "--version"] args;
              help := help o || given ["-h"; "--help"] args;
              setup := setup o || given ["setup"] args;
              upgrade := upgrade o || given ["upgrade"] args;
              uninstall := uninstall o || given ["uninstall"] args;
              noPush := noPush o || given ["--no-push"] args;
              noAi := noAi o || given ["--no-ai"] args;
              forcePush := forcePush o || given ["--force-push"] args;
              branch := branch o |}, w).
Proof.
  induction args as [|x args IH]; intros o w Hall.
  - destruct o. cbn. rewrite !orb_false_r. reflexivity.
  - cbn [forallb] in Hall. apply andb_true_iff in Hall as [Hx Hall].
    apply is_flag_cases in Hx. unfold given. cbn [parse_loop existsb].
    unfold flag_words in Hx. cbn [In] in Hx.
    repeat (destruct Hx as [Hx | Hx]); try contradiction;
      rewrite <- Hx;
      match goal with
      | |- context [has ?lit] => replace (has lit) with true by reflexivity
      end;
      cbn -[parse_loop existsb]; rewrite (IH _ w Hall);
      destruct o; cbn; rewrite ?orb_true_r; reflexivity.
Qed.

Lemma parseArgs_slice {Sys : Type} (node script : string) (args : list string) :
  parseArgs (Sys := Sys) (node :: script :: args) = parse_loop args default_opts.
Proof. reflexivity. Qed.

(** C6, as the code has it.  Let the tokens [pre] be read to the end without
    an exit, so that the token after them is read as an option.  Then
    (1) a token whose lower-case form is not in the recognized set exits with
    code 1 after the error and the hint to run [--help];
    (2) [--branch] or [-b] (in any case) as the last token exits with code 1
    after the error that a branch name is required;
    (3) the token after [--branch] or [-b] is stored as the branch name
    whatever it is.
    (4) On a command line of boolean flags only, each option is set exactly
    when one of its own flags is given, whatever the other flags are. *)
Theorem parseArgs_errors_and_flags {Sys : Type} (node script : string) (w : World Sys) :
  (forall (pre : list string) (x : string) (post : list string) (o : Opts) (w' : World Sys),
     parseArgs (node :: script :: pre) w = (Ret o, w') ->
     has (toLowerCase x) = false ->
     parseArgs (node :: script :: pre ++ x :: post) w =
       (Exit 1,
        after w' [ ConsoleLog (err_line ("Unknown argument: '" +:+ x +:+ "'"));
                   ConsoleLog (info_line "Run 'gtxr --help' to see valid commands.") ]))
  /\
  (forall (pre : list string) (x : string) (o : Opts) (w' : World Sys),
     parseArgs (node :: script :: pre) w = (Ret o, w') ->
     is_branch_option x = true ->
     parseArgs (node :: script :: pre ++ [x]) w =
       (Exit 1, after w' [ConsoleLog (err_line "--branch requires a branch name.")]))
  /\
  (forall (pre : list string) (x name : string) (o : Opts) (w' : World Sys),
     parseArgs (node :: script :: pre) w = (Ret o, w') ->
     is_branch_option x = true ->
     parseArgs (node :: script :: pre ++ [x; name]) w = (Ret (set_branch name o), w'))
  /\
  (forall (args : list string),
     forallb is_flag args = true ->
     parseArgs (node :: script :: args) w = (Ret (flags_of args), w)).
Proof.
  split; [|split; [|split]].
  all: intros; rewrite parseArgs_slice in *.
  - rewrite (proj1 (parse_loop_resumes (x :: post) pre) _ _ _ _ H).
    apply parse_loop_unknown. assumption.
  - rewrite (proj1 (parse_loop_resumes [x] pre) _ _ _ _ H).
    apply parse_loop_branch_last. assumption.
  - rewrite (proj1 (parse_loop_resumes [x; name] pre) _ _ _ _ H).
    rewrite parse_loop_branch_operand by assumption. reflexivity.
  - rewrite (parse_loop_flags args default_opts w) by assumption. reflexivity.
Qed.

Lemma parseArgs_errors_and_flags_witness :
  parseArgs ["node"; "gtxr"; "--no-push"; "foobar"; "--no-ai"] (mkWorld tt []) =
    (Exit 1,
     mkWorld tt [ ConsoleLog (err_line "Unknown argument: 'foobar'");
                  ConsoleLog (info_line "Run 'gtxr --help' to see valid commands.") ])
  /\ parseArgs ["node"; "gtxr"; "--no-push"; "--branch"] (mkWorld tt []) =
       (Exit 1, mkWorld tt [ConsoleLog (err_line "--branch requires a branch name.")])
  /\ parseArgs ["node"; "gtxr"; "--no-push"; "-b"; "feature/x"] (mkWorld tt []) =
       (Ret (set_branch "feature/x" (set_noPush default_opts)), mkWorld tt [])
  /\ parseArgs ["node"; "gtxr"; "--no-push"; "--no-ai"] (mkWorld tt []) =
       (Ret (set_noAi (set_noPush default_opts)), mkWorld tt []).
Proof.
  destruct (parseArgs_errors_and_flags "node" "gtxr" (mkWorld tt [])) as [H1 [H2 [H3 H4]]].
  split; [|split; [|split]].
  - exact (H1 ["--no-push"] "foobar" ["--no-ai"] (set_noPush default_opts) (mkWorld tt [])
              eq_refl eq_refl).
  - exact (H2 ["--no-push"] "--branch" (set_noPush default_opts) (mkWorld tt [])
              eq_refl eq_refl).
  - exact (H3 ["--no-push"] "-b" "feature/x" (set_noPush default_opts) (mkWorld tt [])
              eq_refl eq_refl).
  - exact (H4 ["--no-push"; "--no-ai"] eq_refl).
Defined.

(** C6, as stated, fails: in [gtxr -b -b] the last token is [-b] and no
    branch name follows it, yet the parser returns: the second [-b] was
    taken as the name of the branch.  And [--NO-PUSH], which is not a member
    of the recognized set, is accepted: tokens are lower-cased before they
    are looked up. *)
Lemma parseArgs_branch_name_unchecked :
  parseArgs ["node"; "gtxr"; "-b"; "-b"] (mkWorld tt []) =
    (Ret (set_branch "-b" default_opts), mkWorld tt [])
  /\ has "--NO-PUSH" = false
  /\ parseArgs ["node"; "gtxr"; "--NO-PUSH"] (mkWorld tt []) =
       (Ret (set_noPush default_opts), mkWorld tt []).
Proof. repeat split; reflexivity. Qed.

(** ** JSON: the fuel of the parser is enough *)

Lemma skip_ws_length (s : string) : String.length (skip_ws s) <= String.length s.
Proof.
  induction s as [|c s IH]; simpl; [lia|].
  destruct (is_json_ws c); simpl; lia.
Qed.

Lemma drop_chars_length (n : nat) (s : string) :
  String.length (drop_chars n s) <= String.length s.
Proof.
  revert s; induction n as [|n IH]; intros [|c s]; simpl; try lia.
  specialize (IH s). lia.
Qed.

Lemma parse_chars_length_aux (n : nat) :
  forall s body rest,
    String.length s <= n ->
    parse_chars s = Some (body, rest) -> String.length rest < String.length s.
Proof.
  induction n as [|n IH]; intros s body rest Hn Hp.
  - destruct s; [discriminate Hp | simpl in Hn; lia].
  - destruct s as [|c s1]; [discriminate Hp|].
    cbn [parse_chars] in Hp. simpl in Hn |- *.
    destruct (code c =? 34)%N; [injection Hp as _ <-; lia|].
    destruct (code c =? 92)%N.
    + destruct s1 as [|e s2]; [discriminate Hp|].
      destruct (code e =? 117)%N.
      * destruct s2 as [|h1 [|h2 [|h3 [|h4 s3]]]]; try discriminate Hp.
        destruct (hex4 h1 h2 h3 h4) as [u|]; [|discriminate Hp].
        assert (Hsingle :
          match parse_chars s3 with
          | Some (b, r) => Some (utf8 u +:+ b, r)
          | None => None
          end = Some (body, rest) ->
          String.length rest < S (S (S (S (S (S (String.length s3))))))).
        { destruct (parse_chars s3) as [[b r]|] eqn:E; [|discriminate].
          intros Hq. injection Hq as _ <-. apply IH in E; simpl in *; lia. }
        cbv zeta in Hp.
        destruct (is_high u); [|exact (Hsingle Hp)].
        destruct s3 as [|x1 [|x2 [|l1 [|l2 [|l3 [|l4 s4]]]]]]; try exact (Hsingle Hp).
        destruct ((code x1 =? 92)%N && (code x2 =? 117)%N); [|exact (Hsingle Hp)].
        destruct (hex4 l1 l2 l3 l4) as [l|]; [|exact (Hsingle Hp)].
        destruct (is_low l); [|exact (Hsingle Hp)].
        destruct (parse_chars s4) as [[b r]|] eqn:E; [|discriminate Hp].
        injection Hp as _ <-. apply IH in E; simpl in *; lia.
      * destruct (unescape e); [|discriminate Hp].
        destruct (parse_chars s2) as [[b r]|] eqn:E; [|discriminate Hp].
        injection Hp as _ <-. apply IH in E; simpl in *; lia.
    + destruct (code c <? 32)%N; [discriminate Hp|].
      destruct (parse_chars s1) as [[b r]|] eqn:E; [|discriminate Hp].
      injection Hp as _ <-. apply IH in E; simpl in *; lia.
Qed.

Lemma parse_chars_length (s body rest : string) :
  parse_chars s = Some (body, rest) -> String.length rest < String.length s.
Proof. apply (parse_chars_length_aux (String.length s)). lia. Qed.

Lemma span_digits_length (s : string) :
  String.length (snd (span_digits s)) <= String.length s.
Proof.
  induction s as [|c s IH]; simpl; [lia|].
  destruct (is_digit c); [|simpl; lia].
  destruct (span_digits s) as [ds rest]. simpl in *. lia.
Qed.

Lemma digits1_length (s ds rest : string) :
  digits1 s = Some (ds, rest) -> String.length rest <= String.length s.
Proof.
  unfold digits1. pose proof (span_digits_length s) as Hs.
  destruct (span_digits s) as [ds' rest']. destruct (is_empty ds'); [discriminate|].
  intros E. injection E as _ <-. exact Hs.
Qed.

Lemma parse_number_length (s lexeme rest : string) :
  parse_number s = Some (lexeme, rest) -> String.length rest < String.length s.
Proof.
  unfold parse_number.
  destruct (parse_sign s) as [sg s1] eqn:Hsg.
  assert (H1 : String.length s1 <= String.length s).
  { unfold parse_sign in Hsg. destruct s as [|c s']; [injection Hsg as _ <-; lia|].
    destruct (code c =? 45)%N; injection Hsg as _ <-; simpl; lia. }
  destruct (parse_int s1) as [[i s2]|] eqn:Hi; [|discriminate].
  assert (H2 : String.length s2 < String.length s1).
  { unfold parse_int in Hi. destruct s1 as [|c s']; [discriminate|].
    destruct (code c =? 48)%N; [injection Hi as _ <-; simpl; lia|].
    destruct (is_digit c); [|discriminate].
    pose proof (span_digits_length s') as Hs.
    destruct (span_digits s') as [ds r]. injection Hi as _ <-. simpl in *. lia. }
  destruct (parse_frac s2) as [[fr s3]|] eqn:Hf; [|discriminate].
  assert (H3 : String.length s3 <= String.length s2).
  { unfold parse_frac in Hf. destruct s2 as [|c s']; [injection Hf as _ <-; lia|].
    destruct (code c =? 46)%N; [|injection Hf as _ <-; simpl; lia].
    destruct (digits1 s') as [[ds r]|] eqn:Hd; [|discriminate].
    apply digits1_length in Hd. injection Hf as _ <-. simpl; lia. }
  destruct (parse_exp s3) as [[ex s4]|] eqn:He; [|discriminate].
  assert (H4 : String.length s4 <= String.length s3).
  { unfold parse_exp in He. destruct s3 as [|c s']; [injection He as _ <-; lia|].
    destruct ((code c =? 101)%N || (code c =? 69)%N); [|injection He as _ <-; simpl; lia].
    destruct s' as [|d t].
    - destruct (digits1 EmptyString) as [[ds r]|] eqn:Hd; [|discriminate].
      apply digits1_length in Hd. injection He as _ <-. simpl in *; lia.
    - destruct ((code d =? 43)%N || (code d =? 45)%N).
      + destruct (digits1 t) as [[ds r]|] eqn:Hd; [|discriminate].
        apply digits1_length in Hd. injection He as _ <-. simpl in *; lia.
      + destruct (digits1 (String d t)) as [[ds r]|] eqn:Hd; [|discriminate].
        apply digits1_length in Hd. injection He as _ <-. simpl in *; lia. }
  intros E. injection E as _ <-. lia.
Qed.

Lemma parse_fuel_step (f f' : nat) :
  (forall s r, parse_value f s = Some r -> parse_value f' s = Some r) ->
  (forall s acc r, parse_members f s acc = Some r -> parse_members f' s acc = Some r) ->
  (forall s acc r, parse_elements f s acc = Some r -> parse_elements f' s acc = Some r) ->
  (forall s r, parse_value (S f) s = Some r -> parse_value (S f') s = Some r) /\
  (forall s acc r, parse_members (S f) s acc = Some r -> parse_members (S f') s acc = Some r) /\
  (forall s acc r, parse_elements (S f) s acc = Some r -> parse_elements (S f') s acc = Some r).
Proof.
  intros IHv IHm IHe.
  split; [|split]; intros s; intros;
    match goal with Hp : _ = Some _ |- _ =>
      cbn [parse_value parse_members parse_elements] in Hp |- *;
      repeat match type of Hp with
             | context [parse_value f ?a] =>
                 destruct (parse_value f a) eqn:E;
                   [apply IHv in E; rewrite E; clear E | discriminate Hp]
             | context [parse_members f ?a ?b] =>
                 destruct (parse_members f a b) eqn:E;
                   [apply IHm in E; rewrite E; clear E | discriminate Hp]
             | context [parse_elements f ?a ?b] =>
                 destruct (parse_elements f a b) eqn:E;
                   [apply IHe in E; rewrite E; clear E | discriminate Hp]
             | context [if ?c then _ else _] => destruct c
             | context [match ?x with _ => _ end] => destruct x
             end; try exact Hp; try discriminate Hp
    end.
Qed.

Lemma parse_fuel_S (f : nat) :
  (forall s r, parse_value f s = Some r -> parse_value (S f) s = Some r) /\
  (forall s acc r, parse_members f s acc = Some r -> parse_members (S f) s acc = Some r) /\
  (forall s acc r, parse_elements f s acc = Some r -> parse_elements (S f) s acc = Some r).
Proof.
  induction f as [|f [IHv [IHm IHe]]].
  - repeat split; intros; discriminate.
  - apply parse_fuel_step; assumption.
Qed.

Lemma parse_fuel_le (f f' : nat) :
  f <= f' ->
  (forall s r, parse_value f s = Some r -> parse_value f' s = Some r) /\
  (forall s acc r, parse_members f s acc = Some r -> parse_members f' s acc = Some r) /\
  (forall s acc r, parse_elements f s acc = Some r -> parse_elements f' s acc = Some r).
Proof.
  induction 1 as [|f' Hle [IHv [IHm IHe]]].
  - repeat split; intros; assumption.
  - destruct (parse_fuel_S f') as [Sv [Sm Se]]. repeat split; intros; auto.
Qed.

(** Arithmetic on the lengths of strings. *)
Ltac len_lia := cbn [String.length snd fst] in *; lia.

Ltac absorb IHv IHm IHe Hp :=
  repeat match type of Hp with
  | context [parse_value ?f ?a] =>
      let E := fresh "E" in
      destruct (parse_value f a) as [[? ?]|] eqn:E; [|discriminate Hp];
      let Hl := fresh "Hl" in let Hf := fresh "Hf" in
      destruct (IHv _ _ E) as [Hl Hf]; clear E;
      match goal with
      | |- context [parse_value ?g a] =>
          rewrite (proj1 (parse_fuel_le (2 * String.length a - 1) g ltac:(len_lia)) _ _ Hf)
      end
  | context [parse_members ?f ?a ?b] =>
      let E := fresh "E" in
      destruct (parse_members f a b) as [[? ?]|] eqn:E; [|discriminate Hp];
      let Hl := fresh "Hl" in let Hf := fresh "Hf" in
      destruct (IHm _ _ _ E) as [Hl Hf]; clear E;
      match goal with
      | |- context [parse_members ?g a b] =>
          rewrite (proj1 (proj2 (parse_fuel_le (2 * String.length a) g ltac:(len_lia))) _ _ _ Hf)
      end
  | context [parse_elements ?f ?a ?b] =>
      let E := fresh "E" in
      destruct (parse_elements f a b) as [[? ?]|] eqn:E; [|discriminate Hp];
      let Hl := fresh "Hl" in let Hf := fresh "Hf" in
      destruct (IHe _ _ _ E) as [Hl Hf]; clear E;
      match goal with
      | |- context [parse_elements ?g a b] =>
          rewrite (proj2 (proj2 (parse_fuel_le (2 * String.length a) g ltac:(len_lia))) _ _ _ Hf)
      end
  | context [skip_ws ?x] =>
      let Hw := fresh "Hw" in
      pose proof (skip_ws_length x) as Hw;
      destruct (skip_ws x)
  | context [parse_chars ?x] =>
      let E := fresh "E" in
      destruct (parse_chars x) as [[? ?]|] eqn:E; [|discriminate Hp];
      apply parse_chars_length in E
  | context [parse_number ?x] =>
      let E := fresh "E" in
      destruct (parse_number x) as [[? ?]|] eqn:E; [|discriminate Hp];
      apply parse_number_length in E
  | context [if ?c then _ else _] => destruct c
  | context [match ?x with _ => _ end] => destruct x
  end; try discriminate Hp.

Lemma drop_chars_cons (n : nat) (c : ascii) (s : string) :
  drop_chars (S n) (String c s) = drop_chars n s.
Proof. reflexivity. Qed.

#[local] Arguments drop_chars : simpl never.

Lemma parse_fuel_enough (f : nat) :
  (forall s r, parse_value f s = Some r ->
     String.length (snd r) < String.length s /\
     parse_value (2 * String.length s - 1) s = Some r) /\
  (forall s acc r, parse_members f s acc = Some r ->
     String.length (snd r) < String.length s /\
     parse_members (2 * String.length s) s acc = Some r) /\
  (forall s acc r, parse_elements f s acc = Some r ->
     String.length (snd r) < String.length s /\
     parse_elements (2 * String.length s) s acc = Some r).
Proof.
  induction f as [|f [IHv [IHm IHe]]].
  - repeat split; intros; discriminate.
  - split; [|split].
    + intros [|c s'] r Hp; [discriminate Hp|].
      replace (2 * String.length (String c s') - 1) with (S (2 * String.length s'))
        by (cbn [String.length]; lia).
      cbn [parse_value] in Hp |- *.
      absorb IHv IHm IHe Hp.
      all: injection Hp as <-; split; [|reflexivity].
      all: cbn [snd]; rewrite ?drop_chars_cons;
        try (pose proof (drop_chars_length 3 s')); try (pose proof (drop_chars_length 4 s'));
        len_lia.
    + intros [|c s1] acc r Hp; [discriminate Hp|].
      replace (2 * String.length (String c s1)) with (S (2 * String.length (String c s1) - 1))
        by (cbn [String.length]; lia).
      cbn [parse_members] in Hp |- *.
      absorb IHv IHm IHe Hp.
      all: injection Hp as <-; split; [|reflexivity].
      all: len_lia.
    + intros s acc r Hp. cbn [parse_elements] in Hp.
      destruct (parse_value f s) as [[v s1]|] eqn:E; [|discriminate Hp].
      destruct (IHv _ _ E) as [Hl Hf]. clear E. cbn [snd] in Hl.
      replace (2 * String.length s) with (S (2 * String.length s - 1)) by lia.
      cbn [parse_elements]. rewrite Hf.
      absorb IHv IHm IHe Hp.
      all: injection Hp as <-; split; [|reflexivity].
      all: len_lia.
Qed.


(** [JSON_parse] gives itself enough fuel: it returns [v] exactly when the
    text is a JSON text for [v], and fails exactly when the text is not
    valid JSON. *)
Lemma JSON_parse_Some_iff (text : string) (v : json) :
  JSON_parse text = Some v <-> parses_to text v.
Proof.
  unfold JSON_parse, parses_to. split.
  - destruct (parse_value _ (skip_ws text)) as [[v' rest]|] eqn:E; [|discriminate].
    destruct (skip_ws rest) eqn:Hr; [|discriminate].
    cbn [is_empty]. intros Hv. injection Hv as <-.
    eexists _, rest. split; [exact E | exact Hr].
  - intros [fuel [rest [Hp Hr]]].
    destruct (proj1 (parse_fuel_enough fuel) _ _ Hp) as [_ Hf].
    pose proof (skip_ws_length text) as Hw.
    rewrite (proj1 (parse_fuel_le (2 * String.length (skip_ws text) - 1)
                      (S (String.length text + String.length text)) ltac:(lia)) _ _ Hf).
    rewrite Hr. reflexivity.
Qed.

Lemma JSON_parse_None_iff (text : string) :
  JSON_parse text = None <-> ~ valid_json text.
Proof.
  unfold valid_json. split.
  - intros Hn [v Hv]. apply JSON_parse_Some_iff in Hv. congruence.
  - intros Hn. destruct (JSON_parse text) as [v|] eqn:E; [|reflexivity].
    exfalso. apply Hn. exists v. apply JSON_parse_Some_iff, E.
Qed.

(** ** JSON: what is printed is read back *)

(** Reading the escaped form of [s] up to the closing quote gives [s] back,
    whatever the characters of [s] are. *)
Lemma parse_chars_escape (s rest : string) :
  parse_chars (escape s +:+ String "034"%char rest) = Some (s, rest).
Proof.
  induction s as [|c s IH].
  - reflexivity.
  - cbn [escape]. rewrite append_assoc.
    destruct c as [b0 b1 b2 b3 b4 b5 b6 b7].
    destruct b0, b1, b2, b3, b4, b5, b6, b7; simpl; rewrite IH; reflexivity.
Qed.

(** The two escapes of a surrogate pair are read as one character, here
    U+1F600; a high surrogate on its own is kept as it is. *)
Lemma parse_chars_surrogate_pair :
  parse_chars ("\ud83d\ude00" +:+ DQ) = Some (utf8 128512, EmptyString)
  /\ parse_chars ("\ud83dx" +:+ DQ) = Some (utf8 55357 +:+ "x", EmptyString).
Proof. split; vm_compute; reflexivity. Qed.

Lemma quote_append (s rest : string) :
  quote s +:+ rest = String "034"%char (escape s +:+ String "034"%char rest).
Proof. unfold quote. rewrite !append_assoc. reflexivity. Qed.

#[local] Arguments parse_chars : simpl never.
#[local] Arguments escape : simpl never.

Lemma config_text_shape (p k : string) :
  exists tail,
    JSON_stringify (config_object (mkConfig p k)) = String "{"%char tail
    /\ exists f, String.length (JSON_stringify (config_object (mkConfig p k))) = S (S (S (S f))).
Proof.
  unfold JSON_stringify, config_object.
  cbn [serialize map join fst snd provider apiKey].
  rewrite !append_assoc, !quote_append. simpl.
  eexists. split; [reflexivity|]. eexists. reflexivity.
Qed.

Lemma parse_config_text (f : nat) (p k : string) :
  parse_value (S (S (S (S (S f))))) (JSON_stringify (config_object (mkConfig p k))) =
    Some (config_object (mkConfig p k), EmptyString).
Proof.
  unfold JSON_stringify, config_object.
  cbn [serialize map join fst snd provider apiKey].
  rewrite !append_assoc, !quote_append. simpl.
  repeat (rewrite parse_chars_escape; simpl).
  reflexivity.
Qed.

Lemma JSON_parse_stringify_config (c : Config) :
  JSON_parse (JSON_stringify (config_object c)) = Some (config_object c).
Proof.
  destruct c as [p k]. unfold JSON_parse.
  destruct (config_text_shape p k) as [tail [Ht [f Hf]]].
  rewrite Hf. cbn [Nat.add].
  replace (skip_ws (JSON_stringify (config_object (mkConfig p k))))
    with (JSON_stringify (config_object (mkConfig p k)))
    by (rewrite Ht; reflexivity).
  rewrite parse_config_text. reflexivity.
Qed.

(** ** The config store *)

Section ConfigProperties.
Context (homedir : Path).

Lemma saveConfig_writes (data : json) (fs fs' : FS) :
  saveConfig homedir data fs = (Ret tt, fs') ->
  fs' !! CONFIG_FILE homedir = Some (File (JSON_stringify data) 384%N).
Proof.
  unfold saveConfig, bind, try_catch, mkdirSync, writeFileSync, chmodSync, ret.
  intros Hs.
  repeat (case_match; simplify_eq); rewrite ?lookup_insert_eq in *; simplify_eq;
    rewrite ?lookup_insert_eq; reflexivity.
Qed.

Lemma loadConfig_reads (fs : FS) (text : string) (mode : N) (v : json) :
  fs !! CONFIG_FILE homedir = Some (File text mode) ->
  readable mode = true ->
  JSON_parse text = Some v ->
  loadConfig homedir fs = (Ret v, fs).
Proof.
  intros Hf Hm Hp.
  unfold loadConfig, bind, try_catch, existsSync, readFileSync, JSON_parse_m, ret.
  rewrite bool_decide_true by eauto. rewrite Hf, Hm. cbv beta iota.
  rewrite Hp. reflexivity.
Qed.

Lemma loadConfig_total (fs : FS) :
  exists v, loadConfig homedir fs = (Ret v, fs).
Proof.
  destruct (fs !! CONFIG_FILE homedir) as [[text mode|]|] eqn:Hf;
    unfold loadConfig, bind, try_catch, existsSync, readFileSync, JSON_parse_m, ret, throw.
  - rewrite bool_decide_true by eauto. rewrite Hf.
    destruct (readable mode); [|eexists; reflexivity]. cbv beta iota.
    destruct (JSON_parse text); eexists; reflexivity.
  - rewrite bool_decide_true by eauto. rewrite Hf. eexists; reflexivity.
  - rewrite bool_decide_false by (rewrite Hf; intros [x Hx]; discriminate).
    eexists; reflexivity.
Qed.

(** C5. Saving a configuration record and then loading gives the same
    record back, whatever its two strings are; loading when the config file
    is absent, or when its text is not valid JSON, gives the empty record;
    and [loadConfig] always returns a value: it never throws. *)
Theorem config_round_trip :
  (forall (c : Config) (fs fs' : FS),
     saveConfig homedir (config_object c) fs = (Ret tt, fs') ->
     loadConfig homedir fs' = (Ret (config_object c), fs'))
  /\
  (forall (fs : FS),
     fs !! CONFIG_FILE homedir = None ->
     loadConfig homedir fs = (Ret empty_record, fs))
  /\
  (forall (fs : FS) (text : string) (mode : N),
     fs !! CONFIG_FILE homedir = Some (File text mode) ->
     ~ valid_json text ->
     loadConfig homedir fs = (Ret empty_record, fs))
  /\
  (forall (fs : FS), exists v, loadConfig homedir fs = (Ret v, fs)).
Proof.
  split; [|split; [|split]].
  - intros c fs fs' Hs. apply saveConfig_writes in Hs.
    apply (loadConfig_reads fs' _ _ _ Hs); [reflexivity|].
    apply JSON_parse_stringify_config.
  - intros fs Hf.
    unfold loadConfig, bind, try_catch, existsSync, ret.
    rewrite bool_decide_false by (rewrite Hf; intros [x Hx]; discriminate). reflexivity.
  - intros fs text mode Hf Hp. apply JSON_parse_None_iff in Hp.
    unfold loadConfig, bind, try_catch, existsSync, readFileSync, JSON_parse_m, ret, throw.
    rewrite bool_decide_true by eauto. rewrite Hf.
    destruct (readable mode); [|reflexivity]. cbv beta iota. rewrite Hp. reflexivity.
  - apply loadConfig_total.
Qed.

End ConfigProperties.

Lemma config_round_trip_witness :
  loadConfig ["home"; "u"]
    (snd (saveConfig ["home"; "u"] (config_object (mkConfig "gemini" "k"))
            {[ ["home"; "u"] := Dir ]})) =
    (Ret (config_object (mkConfig "gemini" "k")),
     snd (saveConfig ["home"; "u"] (config_object (mkConfig "gemini" "k"))
            {[ ["home"; "u"] := Dir ]}))
  /\ loadConfig ["home"; "u"] {[ ["home"; "u"] := Dir ]} =
       (Ret empty_record, {[ ["home"; "u"] := Dir ]})
  /\ loadConfig ["home"; "u"]
       {[ ["home"; "u"; ".gtxr"; "config.json"] := File "{{not valid json}}" 420%N ]} =
       (Ret empty_record,
        {[ ["home"; "u"; ".gtxr"; "config.json"] := File "{{not valid json}}" 420%N ]}).
Proof.
  destruct (config_round_trip ["home"; "u"]) as [H1 [H2 [H3 _]]].
  split; [|split].
  - apply (H1 (mkConfig "gemini" "k") {[ ["home"; "u"] := Dir ]}).
    vm_compute. reflexivity.
  - apply H2. vm_compute. reflexivity.
  - apply (H3 _ "{{not valid json}}" 420%N); [vm_compute; reflexivity|].
    apply JSON_parse_None_iff. vm_compute. reflexivity.
Defined.

(** ** The push dispatcher: every run *)

Lemma push_force_path {Sys : Type} `{Subprocess Sys}
      (branch : string) (w : World Sys) (r : SpawnSyncReturns) (s : Sys) :
  spawnSync "git" ["push"; "--force"; "origin"; branch] (sys w) = (r, s) ->
  push branch true w =
    (Ret (ok (git_result r)),
     mkWorld s (trace w ++
       [ ConsoleLog (warn_line "Force pushing — this overwrites remote history.");
         Spawn "git" ["push"; "--force"; "origin"; branch];
         ConsoleLog (if ok (git_result r)
                     then ok_line ("Force-pushed to origin/" +:+ branch)
                     else err_line ("Force push failed: " +:+ stderr (git_result r))) ])).
Proof. intros Hr. start_push. destruct (ok (git_result r)); finish. Qed.

Lemma push_plain_ok_path {Sys : Type} `{Subprocess Sys}
      (branch : string) (w : World Sys) (r : SpawnSyncReturns) (s : Sys) :
  spawnSync "git" ["push"; "origin"; branch] (sys w) = (r, s) ->
  ok (git_result r) = true ->
  push branch false w =
    (Ret true,
     mkWorld s (trace w ++
       [ ConsoleLog (info_line ("Pushing to origin/" +:+ branch +:+ "..."));
         Spawn "git" ["push"; "origin"; branch];
         ConsoleLog (ok_line ("Pushed to origin/" +:+ branch)) ])).
Proof. intros Hr Hok. start_push. rewrite Hok. finish. Qed.

(** Case analysis on a run of [push]: in every case the equation of the run
    is left in the context as [Hrun]. *)
Ltac push_paths branch force w :=
  destruct force;
  [ let r := fresh "r" in let s := fresh "s" in let Hf := fresh "Hf" in
    destruct (spawnSync "git" ["push"; "--force"; "origin"; branch] (sys w)) as [r s] eqn:Hf;
    pose proof (push_force_path branch w r s Hf) as Hrun
  | let r1 := fresh "r1" in let s1 := fresh "s1" in let H1 := fresh "H1" in
    destruct (spawnSync "git" ["push"; "origin"; branch] (sys w)) as [r1 s1] eqn:H1;
    let Hok := fresh "Hok" in
    destruct (ok (git_result r1)) eqn:Hok;
    [ pose proof (push_plain_ok_path branch w r1 s1 H1 Hok) as Hrun
    | let Hnu := fresh "Hnu" in
      destruct (no_upstream (stderr (git_result r1))) eqn:Hnu;
      [ let r2 := fresh "r2" in let s2 := fresh "s2" in let H2 := fresh "H2" in
        destruct (spawnSync "git" ["push"; "--set-upstream"; "origin"; branch] s1)
          as [r2 s2] eqn:H2;
        pose proof (push_set_upstream_path branch w r1 r2 s1 s2 H1 Hok Hnu H2) as Hrun
      | let Hrej := fresh "Hrej" in
        destruct (rejected (stderr (git_result r1))) eqn:Hrej;
        [ let rb := fresh "rb" in let sb := fresh "sb" in let Hb := fresh "Hb" in
          destruct (spawnSync "git" ["pull"; "--rebase"; "origin"; branch] s1)
            as [rb sb] eqn:Hb;
          let Hbok := fresh "Hbok" in
          destruct (ok (git_result rb)) eqn:Hbok;
          [ let r2 := fresh "r2" in let s2 := fresh "s2" in let H2 := fresh "H2" in
            destruct (spawnSync "git" ["push"; "origin"; branch] sb) as [r2 s2] eqn:H2;
            pose proof (push_rebase_retry_path branch w r1 rb r2 s1 sb s2
                          H1 Hok Hnu Hrej Hb Hbok H2) as Hrun
          | pose proof (push_rebase_failed_path branch w r1 rb s1 sb
                          H1 Hok Hnu Hrej Hb Hbok) as Hrun ]
        | pose proof (push_fatal_path branch w r1 s1 H1 Hok Hnu Hrej) as Hrun ] ] ] ].

(** X1. [push] always returns (it never exits and never throws), and the git
    commands it runs form one of five sequences: the forced push alone when
    a force push is asked for; otherwise the plain push alone, the plain push
    and the set-upstream push, the plain push and the rebase-pull, or the
    plain push, the rebase-pull and the plain push again.  In particular a
    forced push is never run unless it was asked for. *)
Theorem push_runs_one_of_five_sequences {Sys : Type} `{Subprocess Sys}
      (branch : string) (forcePush : bool) (w : World Sys) :
  exists (b : bool) (w' : World Sys),
    push branch forcePush w = (Ret b, w') /\
    if forcePush
    then git_calls (added (push branch forcePush) w) = [force_push_cmd branch]
    else In (git_calls (added (push branch forcePush) w))
            [ [plain_push_cmd branch];
              [plain_push_cmd branch; set_upstream_cmd branch];
              [plain_push_cmd branch; rebase_cmd branch];
              [plain_push_cmd branch; rebase_cmd branch; plain_push_cmd branch] ].
Proof.
  push_paths branch forcePush w;
    rewrite (added_events _ _ _ _ _ Hrun); rewrite Hrun;
    eexists _, _; (split; [reflexivity|]); cbn; auto.
Qed.

(** X2. The value [push] returns is the success of the last git command it
    ran: true exactly when that command exited with status 0. *)
Theorem push_returns_last_answer {Sys : Type} `{Subprocess Sys}
      (branch : string) (forcePush : bool) (w : World Sys) :
  exists (b : bool) (w' : World Sys),
    push branch forcePush w = (Ret b, w') /\
    last (map ok (answers (sys w) (git_calls (added (push branch forcePush) w)))) = Some b.
Proof.
  push_paths branch forcePush w;
    rewrite (added_events _ _ _ _ _ Hrun); rewrite Hrun;
    eexists _, _; (split; [reflexivity|]);
    cbn [git_calls set_upstream_events rebase_failed_events rebase_retry_events answers];
    repeat match goal with
           | Hs : spawnSync "git" ?a ?s = _ |- context [spawnSync "git" ?a ?s] => rewrite Hs
           end;
    cbn [answers map last]; congruence.
Qed.

(** ** The argument parser: every command line *)

Section ParserRuns.
Context {Sys : Type}.

Lemma outcome_ok_step (y : string) (rest : list string) :
  reads_or_exits (Sys := Sys) rest ->
  (forall x rest', rest = x :: rest' -> reads_or_exits (Sys := Sys) rest') ->
  reads_or_exits (Sys := Sys) (y :: rest).
Proof.
  intros HP HP' o w. unfold reads_or_exits in *.
  assert (Hgo : forall o1,
    (exists o', parse_loop rest o1 w = (Ret o', w))
    \/ (exists x, In x (y :: rest) /\
          parse_loop rest o1 w =
            (Exit 1,
             after w [ ConsoleLog (err_line ("Unknown argument: '" +:+ x +:+ "'"));
                       ConsoleLog (info_line "Run 'gtxr --help' to see valid commands.") ]))
    \/ parse_loop rest o1 w =
         (Exit 1, after w [ConsoleLog (err_line "--branch requires a branch name.")])).
  { intros o1. destruct (HP o1 w) as [Hr | [[x [Hin Hx]] | Hb]]; auto.
    right; left. exists x. split; [right; exact Hin | exact Hx]. }
  destruct (has (toLowerCase y)) eqn:Hy.
  - cbn [parse_loop]. rewrite Hy. cbn [negb].
    repeat match goal with
           | |- context [if ?c then _ else _] => destruct c
           end; try apply Hgo.
    destruct rest as [|x rest'].
    + right; right. reflexivity.
    + destruct (HP' x rest' eq_refl (set_branch x o) w) as [Hr | [[z [Hin Hz]] | Hb]]; auto.
      right; left. exists z. split; [right; right; exact Hin | exact Hz].
  - right; left. exists y. split; [left; reflexivity|].
    apply parse_loop_unknown. exact Hy.
Qed.

Lemma outcome_ok_all (args : list string) :
  reads_or_exits (Sys := Sys) args /\ forall y, reads_or_exits (Sys := Sys) (y :: args).
Proof.
  induction args as [|x args [IH1 IH2]].
  - assert (H0 : reads_or_exits (Sys := Sys) []) by (intros o w; left; exists o; reflexivity).
    split; [exact H0|]. intros y. apply outcome_ok_step; [exact H0 | discriminate].
  - split; [apply IH2|]. intros y. apply outcome_ok_step; [apply IH2|].
    intros x' rest' E. injection E as -> ->. exact IH1.
Qed.

Lemma parseArgs_outcomes (argv : list string) (w : World Sys) :
  (exists o, parseArgs argv w = (Ret o, w))
  \/ (exists x, In x (skipn 2 argv) /\
        parseArgs argv w =
          (Exit 1,
           after w [ ConsoleLog (err_line ("Unknown argument: '" +:+ x +:+ "'"));
                     ConsoleLog (info_line "Run 'gtxr --help' to see valid commands.") ]))
  \/ parseArgs argv w =
       (Exit 1, after w [ConsoleLog (err_line "--branch requires a branch name.")]).
Proof. exact (proj1 (outcome_ok_all (skipn 2 argv)) default_opts w). Qed.

(** X3. Whatever the command line, [parseArgs] either returns options
    without printing anything, or exits with code 1 after an error about one
    of the tokens: it never exits with another code, never throws, never
    runs a subprocess, and prints nothing when it accepts the command line. *)
Theorem parseArgs_returns_or_exits_1 (argv : list string) (w : World Sys) :
  (exists o, parseArgs argv w = (Ret o, w))
  \/ (exists x, In x (skipn 2 argv) /\
        parseArgs argv w =
          (Exit 1,
           after w [ ConsoleLog (err_line ("Unknown argument: '" +:+ x +:+ "'"));
                     ConsoleLog (info_line "Run 'gtxr --help' to see valid commands.") ]))
  \/ parseArgs argv w =
       (Exit 1, after w [ConsoleLog (err_line "--branch requires a branch name.")]).
Proof. apply parseArgs_outcomes. Qed.

End ParserRuns.

Lemma toLowerCase_idempotent (s : string) : toLowerCase (toLowerCase s) = toLowerCase s.
Proof.
  induction s as [|c s IH]; [reflexivity|]. cbn [toLowerCase]. rewrite IH. f_equal.
  destruct c as [b0 b1 b2 b3 b4 b5 b6 b7].
  destruct b0, b1, b2, b3, b4, b5, b6, b7; reflexivity.
Qed.

Lemma given_iff (names args : list string) :
  given names args = true <-> exists n, In n names /\ In n (map toLowerCase args).
Proof.
  unfold given. rewrite existsb_exists. split.
  - intros [arg [Hin Hex]]. apply existsb_exists in Hex as [n [Hn Heq]].
    apply String.eqb_eq in Heq. exists n. split; [exact Hn|].
    rewrite <- Heq. apply in_map, Hin.
  - intros [n [Hn Hin]]. apply in_map_iff in Hin as [arg [Heq Hin]].
    exists arg. split; [exact Hin|]. apply existsb_exists. exists n.
    split; [exact Hn | apply String.eqb_eq; exact Heq].
Qed.

Lemma given_same_tokens (names args args' : list string) :
  (forall t, In t (map toLowerCase args) <-> In t (map toLowerCase args')) ->
  given names args = given names args'.
Proof.
  intros Hsame. apply eq_true_iff_eq. rewrite !given_iff.
  split; intros [n [Hn Hin]]; exists n; (split; [exact Hn | apply Hsame, Hin]).
Qed.

(** X4. On command lines made of boolean flags only, the options depend on
    the set of lower-cased tokens alone: the order of the flags, their
    repetition and the case of their letters make no difference. *)
Theorem parseArgs_flags_order_case_repetition {Sys : Type}
      (node script : string) (args args' : list string) (w : World Sys) :
  forallb is_flag args = true ->
  forallb is_flag args' = true ->
  (forall t, In t (map toLowerCase args) <-> In t (map toLowerCase args')) ->
  parseArgs (node :: script :: args) w = parseArgs (node :: script :: args') w.
Proof.
  intros Ha Ha' Hsame. rewrite !parseArgs_slice.
  rewrite (parse_loop_flags args default_opts w Ha).
  rewrite (parse_loop_flags args' default_opts w Ha').
  cbn [version help setup upgrade uninstall noPush noAi forcePush branch default_opts orb].
  rewrite !(given_same_tokens _ args args' Hsame). reflexivity.
Qed.

Lemma parseArgs_flags_order_case_repetition_witness :
  parseArgs ["node"; "gtxr"; "--No-Push"; "--no-ai"; "--NO-PUSH"] (mkWorld tt []) =
  parseArgs ["node"; "gtxr"; "--no-ai"; "--no-push"] (mkWorld tt []).
Proof.
  apply (parseArgs_flags_order_case_repetition "node" "gtxr"
           ["--No-Push"; "--no-ai"; "--NO-PUSH"] ["--no-ai"; "--no-push"] (mkWorld tt [])
           eq_refl eq_refl).
  intros t. cbn. tauto.
Defined.

(** ** The config store: composition *)

Section ConfigLaws.
Context (homedir : Path).

Lemma config_paths_distinct : CONFIG_DIR homedir <> CONFIG_FILE homedir.
Proof.
  unfold CONFIG_FILE. intros E. apply (f_equal (@length string)) in E.
  rewrite length_app in E. simpl in E. lia.
Qed.

Lemma dirname_CONFIG_FILE : dirname (CONFIG_FILE homedir) = CONFIG_DIR homedir.
Proof. unfold dirname, CONFIG_FILE. apply removelast_last. Qed.

(** The file system in which the config directory exists. *)
Lemma saveConfig_mkdir (data : json) (fs fs' : FS) :
  saveConfig homedir data fs = (Ret tt, fs') ->
  exists fs0,
    mkdirSync (CONFIG_DIR homedir) fs = (Ret tt, fs0) /\
    fs0 !! CONFIG_DIR homedir = Some Dir /\
    (forall text,
        exists mode,
          writeFileSync (CONFIG_FILE homedir) text fs0 =
            (Ret tt, <[CONFIG_FILE homedir := File text mode]> fs0)).
Proof.
  pose proof config_paths_distinct as Hne.
  unfold saveConfig, bind. 
  destruct (mkdirSync (CONFIG_DIR homedir) fs) as [[[]|c|e] fs0] eqn:Hmk; try discriminate.
  intros Hs. exists fs0. split; [reflexivity|].
  assert (Hd : fs0 !! CONFIG_DIR homedir = Some Dir).
  { unfold mkdirSync in Hmk. repeat (case_match; simplify_eq); auto.
    apply lookup_insert_eq. }
  split; [exact Hd|].
  intros text. unfold writeFileSync in *. rewrite dirname_CONFIG_FILE, Hd in *.
  destruct (fs0 !! CONFIG_FILE homedir) as [[content mode|]|]; try discriminate.
  - destruct (writable mode); [|discriminate]. eexists; reflexivity.
  - eexists; reflexivity.
Qed.

(** What a successful [saveConfig] leaves behind. *)
Lemma saveConfig_result (data : json) (fs fs' : FS) :
  saveConfig homedir data fs = (Ret tt, fs') ->
  exists fs0,
    mkdirSync (CONFIG_DIR homedir) fs = (Ret tt, fs0) /\
    fs' = <[CONFIG_FILE homedir := File (JSON_stringify data) 384%N]> fs0.
Proof.
  intros Hs. destruct (saveConfig_mkdir _ _ _ Hs) as (fs0 & Hmk & Hd & Hw).
  exists fs0. split; [exact Hmk|].
  destruct (Hw (JSON_stringify data)) as [mode Hwr].
  unfold saveConfig, bind in Hs. rewrite Hmk, Hwr in Hs.
  unfold try_catch, chmodSync in Hs. rewrite lookup_insert_eq in Hs.
  injection Hs as <-. apply insert_insert_eq.
Qed.

Lemma saveConfig_from_mkdir (data : json) (fs fs0 : FS) (text : string) (mode : N) :
  mkdirSync (CONFIG_DIR homedir) fs = (Ret tt, fs0) ->
  writeFileSync (CONFIG_FILE homedir) (JSON_stringify data) fs0 =
    (Ret tt, <[CONFIG_FILE homedir := File (JSON_stringify data) mode]> fs0) ->
  saveConfig homedir data fs =
    (Ret tt, <[CONFIG_FILE homedir := File (JSON_stringify data) 384%N]> fs0).
Proof.
  intros Hmk Hwr. unfold saveConfig, bind. rewrite Hmk, Hwr.
  unfold try_catch, chmodSync. rewrite lookup_insert_eq, insert_insert_eq. reflexivity.
Qed.

(** X5. The config file is replaced, not merged: once a save has
    succeeded, saving a second record succeeds too, and it leaves exactly
    the file system that saving the second record alone would have left.
    Nothing of the first record survives, and saving the same record twice
    is the same as saving it once. *)
Theorem saveConfig_last_write_wins (d1 d2 : json) (fs fs1 : FS) :
  saveConfig homedir d1 fs = (Ret tt, fs1) ->
  exists fs2,
    saveConfig homedir d2 fs = (Ret tt, fs2) /\
    saveConfig homedir d2 fs1 = (Ret tt, fs2).
Proof.
  intros Hs.
  pose proof config_paths_distinct as Hne.
  destruct (saveConfig_mkdir _ _ _ Hs) as (fs0 & Hmk & Hd & Hw).
  destruct (saveConfig_result _ _ _ Hs) as (fs0' & Hmk' & ->).
  rewrite Hmk in Hmk'. injection Hmk' as <-.
  destruct (Hw (JSON_stringify d2)) as [mode Hwr].
  eexists. split; [exact (saveConfig_from_mkdir _ _ _ EmptyString _ Hmk Hwr)|].
  unfold saveConfig, bind, mkdirSync, writeFileSync, try_catch, chmodSync.
  rewrite lookup_insert_ne by (intros E; apply Hne; symmetry; exact E).
  rewrite Hd. rewrite lookup_insert_eq.
  replace (writable 384) with true by reflexivity. cbv beta iota.
  rewrite lookup_insert_eq. rewrite !insert_insert_eq. reflexivity.
Qed.

End ConfigLaws.

Lemma saveConfig_last_write_wins_witness :
  exists fs2,
    saveConfig ["home"] (config_object (mkConfig "openai" "k2"))
      {[ ["home"] := Dir ]} = (Ret tt, fs2) /\
    saveConfig ["home"] (config_object (mkConfig "openai" "k2"))
      (snd (saveConfig ["home"] (config_object (mkConfig "anthropic" "k1"))
              {[ ["home"] := Dir ]})) = (Ret tt, fs2).
Proof.
  apply (saveConfig_last_write_wins ["home"]
           (config_object (mkConfig "anthropic" "k1"))).
  apply injective_projections; [vm_compute; reflexivity|reflexivity].
Defined.

(** ** The interactive program: running a command step by step *)

Lemma calls_of_app (cmd : string) (a b : list Event) :
  calls_of cmd (a ++ b) = calls_of cmd a ++ calls_of cmd b.
Proof.
  induction a as [|[c args|line] a IH]; cbn [calls_of app]; [reflexivity| |exact IH].
  destruct (String.eqb c cmd); cbn [app]; rewrite IH; reflexivity.
Qed.

Lemma events_of_added {Sys A} (m : Proc Sys A) (mc : Machine Sys) (evs : list Event) :
  trace (world (snd (m mc))) = trace (world mc) ++ evs -> events_of m mc = evs.
Proof.
  intros Ht. unfold events_of. rewrite Ht, skipn_app, skipn_all, Nat.sub_diag. reflexivity.
Qed.

Lemma runs_events {Sys A} (m : Proc Sys A) (Q : Outcome A -> list (list string) -> Prop)
      (mc : Machine Sys) :
  runs m Q -> Q (fst (m mc)) (calls_of "git" (events_of m mc)).
Proof.
  intros Hm. destruct (Hm mc) as (evs & Ht & HQ).
  rewrite (events_of_added _ _ _ Ht). exact HQ.
Qed.

Section Execution.
Context {Sys : Type} `{Subprocess Sys} `{Network Sys} `{Engine}.

Lemma runs_weaken {A} (m : Proc Sys A) (Q Q' : Outcome A -> list (list string) -> Prop) :
  runs m Q -> (forall o g, Q o g -> Q' o g) -> runs m Q'.
Proof.
  intros Hm HQ mc. destruct (Hm mc) as (evs & Ht & Hq). exists evs. auto.
Qed.

Lemma runs_ret {A} (a : A) (Q : Outcome A -> list (list string) -> Prop) :
  Q (Returned a) [] -> runs (Proc.ret (Sys := Sys) a) Q.
Proof. intros HQ mc. exists []. rewrite app_nil_r. auto. Qed.

Lemma runs_exit {A} (c : Z) (Q : Outcome A -> list (list string) -> Prop) :
  Q (Exited c) [] -> runs (Proc.exit (Sys := Sys) c) Q.
Proof. intros HQ mc. exists []. rewrite app_nil_r. auto. Qed.

Lemma runs_throw {A} (t : Thrown) (Q : Outcome A -> list (list string) -> Prop) :
  Q (Threw t) [] -> runs (Proc.throw (Sys := Sys) t) Q.
Proof. intros HQ mc. exists []. rewrite app_nil_r. auto. Qed.

Lemma runs_bind {A B} (m : Proc Sys A) (k : A -> Proc Sys B)
      (Q1 : Outcome A -> list (list string) -> Prop)
      (Q : Outcome B -> list (list string) -> Prop) :
  runs m Q1 ->
  (forall a g1, Q1 (Returned a) g1 -> runs (k a) (fun o g2 => Q o (g1 ++ g2))) ->
  (forall c g1, Q1 (Exited c) g1 -> Q (Exited c) g1) ->
  (forall t g1, Q1 (Threw t) g1 -> Q (Threw t) g1) ->
  (forall g1, Q1 Waiting g1 -> Q Waiting g1) ->
  runs (Proc.bind m k) Q.
Proof.
  intros Hm Hk He Ht Hw mc. unfold Proc.bind.
  destruct (Hm mc) as (e1 & Htr & HQ1).
  destruct (m mc) as [[a|c|t|] mc1]; cbn [fst snd] in *.
  - destruct (Hk a _ HQ1 mc1) as (e2 & Htr2 & HQ2).
    exists (e1 ++ e2). rewrite Htr2, Htr, <- app_assoc, calls_of_app. auto.
  - exists e1. auto.
  - exists e1. auto.
  - exists e1. auto.
Qed.

(** A step that always returns. *)
Lemma runs_then {A B} (m : Proc Sys A) (k : A -> Proc Sys B)
      (R : A -> list (list string) -> Prop)
      (Q : Outcome B -> list (list string) -> Prop) :
  runs m (fun o g => exists a, o = Returned a /\ R a g) ->
  (forall a g1, R a g1 -> runs (k a) (fun o g2 => Q o (g1 ++ g2))) ->
  runs (Proc.bind m k) Q.
Proof.
  intros Hm Hk. apply (runs_bind _ _ _ _ Hm).
  - intros a g1 (a' & Ha & HR). injection Ha as <-. auto.
  - intros c g1 (a & Ha & _). discriminate.
  - intros t g1 (a & Ha & _). discriminate.
  - intros g1 (a & Ha & _). discriminate.
Qed.

(** A computation on the world that returns, with its git commands. *)
Lemma runs_io {A} (m : M (World Sys) A) (R : A -> list (list string) -> Prop) :
  (forall w, exists a s evs,
      m w = (Ret a, mkWorld s (trace w ++ evs)) /\ R a (calls_of "git" evs)) ->
  runs (Proc.io m) (fun o g => exists a, o = Returned a /\ R a g).
Proof.
  intros Hm mc. destruct (Hm (world mc)) as (a & s & evs & Hr & HR).
  exists evs. unfold Proc.io. rewrite Hr. cbn. eauto.
Qed.

Lemma runs_log (line : string) :
  runs (Proc.io (console_log (Sys := Sys) line))
       (fun o g => exists a, o = Returned a /\ g = []).
Proof.
  apply (runs_io _ (fun _ g => g = [])). intros w.
  exists tt, (sys w), [ConsoleLog line]. split; reflexivity.
Qed.

Lemma runs_log_then {B} (line : string) (k : unit -> Proc Sys B)
      (Q : Outcome B -> list (list string) -> Prop) :
  runs (k tt) Q -> runs (Proc.bind (Proc.io (console_log line)) k) Q.
Proof.
  intros Hk. eapply runs_then; [apply runs_log|].
  intros [] g1 ->. exact Hk.
Qed.

Lemma runs_header (text : string) :
  runs (Proc.io (header (Sys := Sys) text))
       (fun o g => exists a, o = Returned a /\ g = []).
Proof.
  apply (runs_io _ (fun _ g => g = [])). intros w.
  eexists tt, (sys w), [_; _; _]. split.
  - unfold header. cbv [bind console_log after sys trace].
    rewrite <- !List.app_assoc. reflexivity.
  - reflexivity.
Qed.

Lemma runs_header_then {B} (text : string) (k : unit -> Proc Sys B)
      (Q : Outcome B -> list (list string) -> Prop) :
  runs (k tt) Q -> runs (Proc.bind (Proc.io (header text)) k) Q.
Proof.
  intros Hk. eapply runs_then; [apply runs_header|].
  intros [] g1 ->. exact Hk.
Qed.

Lemma runs_git (args : list string) :
  runs (Proc.io (git args)) (fun o g => exists r : GitResult, o = Returned r /\ g = [args]).
Proof.
  apply (runs_io _ (fun _ g => g = [args])). intros w.
  destruct (spawnSync "git" args (sys w)) as [r s] eqn:Hr.
  exists (git_result r), s, [Spawn "git" args]. split; [|reflexivity].
  apply git_last, Hr.
Qed.

Lemma runs_git_then {B} (args : list string) (k : GitResult -> Proc Sys B)
      (Q : Outcome B -> list (list string) -> Prop) :
  (forall r, runs (k r) (fun o g => Q o (args :: g))) ->
  runs (Proc.bind (Proc.io (git args)) k) Q.
Proof.
  intros Hk. eapply runs_then; [apply runs_git|].
  intros r g1 ->. apply Hk.
Qed.

(** A query: one git command, and a value computed from its answer. *)
Lemma runs_query {A} (args : list string) (f : GitResult -> A) :
  runs (Proc.io (r <- git args ;; ret (f r))%js)
       (fun o g => exists a : A, o = Returned a /\ g = [args]).
Proof.
  apply (runs_io _ (fun _ g => g = [args])). intros w.
  destruct (spawnSync "git" args (sys w)) as [r s] eqn:Hr.
  exists (f (git_result r)), s, [Spawn "git" args]. split; [|reflexivity].
  rewrite (git_step _ _ _ _ _ Hr). reflexivity.
Qed.

Lemma runs_query_then {A B} (args : list string) (f : GitResult -> A)
      (k : A -> Proc Sys B) (Q : Outcome B -> list (list string) -> Prop) :
  (forall a, runs (k a) (fun o g => Q o (args :: g))) ->
  runs (Proc.bind (Proc.io (r <- git args ;; ret (f r))%js) k) Q.
Proof.
  intros Hk. eapply runs_then; [apply runs_query|].
  intros r g1 ->. apply Hk.
Qed.

Lemma runs_prompt_then {B} (question : string) (k : string -> Proc Sys B)
      (Q : Outcome B -> list (list string) -> Prop) :
  Q Waiting [] ->
  (forall answer, runs (k answer) Q) ->
  runs (Proc.bind (prompt question) k) Q.
Proof.
  intros Hw Hk mc. unfold Proc.bind, prompt.
  destruct (stdin mc) as [|a rest].
  - exists []. rewrite app_nil_r. auto.
  - destruct (Hk (trim a)
               (mkMachine (world mc) (files mc) rest (questions mc ++ [question]) (ai_log mc)))
      as (evs & Ht & HQ).
    exists evs. split; [exact Ht|exact HQ].
Qed.

Lemma runs_fs_then {A B : Type} (m : M FS A) (k : A -> Proc Sys B)
      (Q : Outcome B -> list (list string) -> Prop) :
  (forall a, runs (k a) Q) ->
  (forall c, Q (Exited c) []) ->
  (forall e, Q (Threw (Native e)) []) ->
  runs (Proc.bind (Proc.fsio m) k) Q.
Proof.
  intros Hk He Ht mc. unfold Proc.bind, Proc.fsio.
  destruct (m (files mc)) as [[a|c|e] fs]; cbn [Proc.lift].
  - destruct (Hk a (mkMachine (world mc) fs (stdin mc) (questions mc) (ai_log mc)))
      as (evs & Htr & HQ).
    exists evs. split; [exact Htr|exact HQ].
  - exists []. rewrite app_nil_r. cbn. auto.
  - exists []. rewrite app_nil_r. cbn. auto.
Qed.

Lemma runs_checked {A} (args : list string) (m : Proc Sys A)
      (Q : Outcome A -> list (list string) -> Prop) :
  (spawnable args = true -> runs m Q) ->
  (spawnable args = false -> Q (Threw (Raised (arg_failure args))) []) ->
  runs (checked args m) Q.
Proof.
  intros Hm Ht. unfold checked. destruct (spawnable args).
  - apply Hm. reflexivity.
  - apply runs_throw. apply Ht. reflexivity.
Qed.

Lemma runs_checked_git_then {B} (args : list string) (k : GitResult -> Proc Sys B)
      (Q : Outcome B -> list (list string) -> Prop) :
  (spawnable args = false -> Q (Threw (Raised (arg_failure args))) []) ->
  (forall r, runs (k r) (fun o g => Q o (args :: g))) ->
  runs (Proc.bind (checked args (Proc.io (git args))) k) Q.
Proof.
  intros Ht Hk. unfold checked. destruct (spawnable args).
  - apply runs_git_then. exact Hk.
  - intros mc. exists []. rewrite app_nil_r. split; [reflexivity|]. apply Ht. reflexivity.
Qed.

Lemma runs_callAI_then {B} (provider apiKey : json) (text : string)
      (k : string + JsError -> Proc Sys B)
      (Q : Outcome B -> list (list string) -> Prop) :
  ai_runs_no_git Sys ->
  (forall r, runs (k r) Q) ->
  runs (Proc.bind (callAI provider apiKey text) k) Q.
Proof.
  intros Hai Hk mc. unfold Proc.bind, callAI.
  match goal with |- context [k ?r ?m] => destruct (Hk r m) as (evs & Ht & HQ) end.
  cbn [world trace] in Ht.
  eexists (_ ++ evs). rewrite Ht, <- app_assoc, calls_of_app, Hai. split; [reflexivity|exact HQ].
Qed.

End Execution.

(** ** The stages of the workflow *)

Section Stages.
Context {Sys : Type} `{Subprocess Sys} `{Network Sys} `{Engine}.

Lemma runs_switchBranch (name : string) :
  runs (Proc.io (switchBranch name))
       (fun o g => exists a : string, o = Returned a /\ In g (switch_sequences name)).
Proof.
  apply (runs_io _ (fun _ g => In g (switch_sequences name))). intros w.
  unfold switchBranch, getCurrentBranch, Console.ok, Console.info, Console.err.
  destruct (spawnSync "git" ["checkout"; name] (sys w)) as [r1 s1] eqn:E1.
  rewrite (git_step _ _ _ _ _ E1).
  destruct (ok (git_result r1)).
  { eexists _, _, [_; _]. split; [finish|]. cbn. auto. }
  rewrite log_step.
  destruct (spawnSync "git" ["checkout"; "-b"; name] s1) as [r2 s2] eqn:E2.
  rewrite (git_step _ _ _ r2 s2) by exact E2.
  destruct (ok (git_result r2)).
  { eexists _, _, [_; _; _; _]. split; [finish|]. cbn. auto. }
  rewrite log_step.
  destruct (spawnSync "git" ["branch"; "--show-current"] s2) as [r3 s3] eqn:E3.
  rewrite (git_step _ _ _ r3 s3) by exact E3.
  eexists _, _, [_; _; _; _; _]. split; [finish|]. cbn. auto.
Qed.

Lemma runs_getDiff :
  runs (Proc.io getDiff)
       (fun o g => exists a : string, o = Returned a /\ In g diff_sequences).
Proof.
  apply (runs_io _ (fun _ g => In g diff_sequences)). intros w.
  unfold getDiff.
  destruct (spawnSync "git" ["diff"; "--cached"] (sys w)) as [r1 s1] eqn:E1.
  rewrite (git_step _ _ _ _ _ E1).
  destruct (ok (git_result r1) && negb (is_empty (stdout (git_result r1)))).
  { eexists _, _, [_]. split; [finish|]. cbn. auto. }
  destruct (spawnSync "git" ["diff"] s1) as [r2 s2] eqn:E2.
  rewrite (git_step _ _ _ r2 s2) by exact E2.
  eexists _, _, [_; _]. split; [finish|]. cbn. auto.
Qed.

Lemma runs_push (branch : string) (force : bool) :
  runs (Proc.io (push branch force))
       (fun o g => exists a : bool, o = Returned a /\ In g (push_sequences force branch)).
Proof.
  apply (runs_io _ (fun _ g => In g (push_sequences force branch))). intros w.
  push_paths branch force w; rewrite Hrun; eexists _, _, _; (split; [reflexivity|]);
    cbn; auto 6.
Qed.

Lemma runs_push_checked (branch : string) (force : bool) :
  runs (push_checked branch force)
       (fun o g =>
          (exists a : bool, o = Returned a /\ In g (push_sequences force branch))
          \/ (has_nul branch = true /\ g = [] /\
              o = Threw (Raised (arg_failure (if force then force_push_cmd branch
                                              else plain_push_cmd branch))))).
Proof.
  unfold push_checked. destruct (has_nul branch).
  - destruct force; unfold Console.warn, Console.info;
      apply runs_log_then; apply runs_throw; right; auto.
  - eapply runs_weaken; [apply runs_push|]. intros o g Hq. left. exact Hq.
Qed.

Lemma runs_handleAiError (provider : string) (e : JsError) :
  runs (Proc.io (handleAiError (Sys := Sys) provider e))
       (fun o g => exists a : unit, o = Returned a /\ g = []).
Proof.
  apply (runs_io _ (fun _ g => g = [])). intros w.
  unfold handleAiError, Console.info, Console.err.
  repeat match goal with
         | |- context [if ?b then _ else _] => destruct b
         end;
    rewrite ?log_step; eexists tt, _, _; (split; [finish|]); reflexivity.
Qed.

End Stages.

Section Workflow.
Context {Sys : Type} `{Subprocess Sys} `{Network Sys} `{Engine}.
Context (homedir : Path).

(** How asking for a commit message can end. *)
Lemma runs_manual_message (Q : Outcome (option string) -> list (list string) -> Prop) :
  Q Waiting [] ->
  Q (Returned None) [] ->
  (forall m, m <> EmptyString -> Q (Returned (Some m)) []) ->
  runs (manual_message (Sys := Sys)) Q.
Proof.
  intros Hw Hn Hs. unfold manual_message.
  apply runs_prompt_then; [exact Hw|].
  intros answer. apply runs_ret. unfold or_null.
  destruct answer; cbn [is_empty]; [exact Hn|apply Hs; discriminate].
Qed.

Lemma runs_ai_fallback (provider : json) (e : JsError)
      (Q : Outcome (option string) -> list (list string) -> Prop) :
  Q Waiting [] ->
  Q (Returned None) [] ->
  (forall m, m <> EmptyString -> Q (Returned (Some m)) []) ->
  runs (ai_fallback (Sys := Sys) provider e) Q.
Proof.
  intros Hw Hn Hs. unfold ai_fallback.
  eapply runs_then; [apply runs_handleAiError|]. intros [] g1 ->.
  apply runs_log_then. apply runs_manual_message; assumption.
Qed.

Lemma runs_generate (rounds : nat) (provider apiKey : json) (text : string)
      (Q : Outcome (option string) -> list (list string) -> Prop) :
  ai_runs_no_git Sys ->
  Q Waiting [] ->
  Q (Returned None) [] ->
  (forall m, m <> EmptyString -> Q (Returned (Some m)) []) ->
  runs (generate rounds provider apiKey text) Q.
Proof.
  intros Hai Hw Hn Hs. induction rounds as [|rounds IH]; cbn [generate].
  { intros mc. exists []. rewrite app_nil_r. auto. }
  apply runs_log_then. apply runs_callAI_then; [exact Hai|].
  intros [msg|e]; [|apply runs_ai_fallback; assumption].
  destruct (is_empty msg) eqn:Hmsg; [apply runs_ai_fallback; assumption|].
  apply runs_log_then. apply runs_prompt_then; [exact Hw|]. intros answer.
  cbv zeta.
  destruct (String.eqb _ "y").
  { apply runs_ret. apply Hs. intros ->. discriminate. }
  destruct (String.eqb _ "r"); [exact IH|].
  apply runs_manual_message; assumption.
Qed.

Lemma runs_getCommitMessage (config : json) (diff : string) (no_ai : bool)
      (Q : Outcome (option string) -> list (list string) -> Prop) :
  ai_runs_no_git Sys ->
  Q Waiting [] ->
  Q (Threw (Raised (null_failure "apiKey"))) [] ->
  Q (Returned None) [] ->
  (forall m, m <> EmptyString -> Q (Returned (Some m)) []) ->
  runs (getCommitMessage (Sys := Sys) config diff no_ai) Q.
Proof.
  intros Hai Hw Ht Hn Hs. unfold getCommitMessage.
  assert (Hplain :
    runs (Proc.bind (if negb no_ai
                     then Proc.io (Console.warn "AI not configured — run: gtxr setup")
                     else Proc.ret tt)
                    (fun _ => manual_message (Sys := Sys))) Q).
  { destruct no_ai; cbn [negb].
    - eapply runs_then.
      { apply (runs_ret tt (fun o g => exists a, o = Returned a /\ g = [])). eauto. }
      intros [] g1 ->. apply runs_manual_message; assumption.
    - apply runs_log_then. apply runs_manual_message; assumption. }
  destruct (is_null config); [apply runs_throw; exact Ht|].
  destruct (member "apiKey" config) as [apiKey|]; [|exact Hplain].
  destruct (member "provider" config) as [provider|]; [|exact Hplain].
  destruct (truthy apiKey && truthy provider && negb no_ai); [|exact Hplain].
  apply runs_prompt_then; [exact Hw|]. intros answer.
  destruct (negb (is_empty answer) && _); [apply runs_manual_message; assumption|].
  destruct (is_empty diff).
  { apply runs_log_then. apply runs_manual_message; assumption. }
  intros mc. apply runs_generate; assumption.
Qed.

Lemma split_space_not_nil (s : string) : split_space s <> [].
Proof.
  destruct s as [|c s]; cbn [split_space]; [discriminate|].
  destruct (Ascii.eqb c " "); [discriminate|].
  destruct (split_space s); discriminate.
Qed.

Lemma runs_loadConfig_then {B : Type} (k : json -> Proc Sys B)
      (Q : Outcome B -> list (list string) -> Prop) :
  (forall v, runs (k v) Q) ->
  runs (Proc.bind (Proc.fsio (loadConfig homedir)) k) Q.
Proof.
  intros Hk mc. unfold Proc.bind, Proc.fsio.
  destruct (loadConfig_total homedir (files mc)) as [v ->]. cbn [Proc.lift].
  destruct (Hk v (mkMachine (world mc) (files mc) (stdin mc) (questions mc) (ai_log mc)))
    as (evs & Htr & HQ).
  exists evs. split; [exact Htr|exact HQ].
Qed.

(** Every run of the workflow is one of the ways of [workflow]. *)
Lemma run_paths (opts : Opts) :
  ai_runs_no_git Sys -> runs (run homedir opts) (workflow opts).
Proof.
  intros Hai. unfold run.
  apply runs_header_then.
  unfold isGitRepo. apply runs_query_then. intros repo.
  destruct repo; cbn [negb].
  2: { apply runs_log_then. apply runs_exit. constructor. }
  unfold getRemoteUrl. apply runs_query_then. intros url.
  apply runs_log_then.
  unfold getCurrentBranch at 1. apply runs_query_then. intros current.
  (* the inspection stage *)
  apply (runs_bind _ _
           (fun o g =>
              (exists a : string, o = Returned a /\
                 inspects opts (preamble ++ g ++ [ ["status"; "--short"] ]))
              \/ (exists wanted, branch opts = Some wanted /\
                    spawnable ["checkout"; wanted] = false /\ g = [] /\
                    o = Threw (Raised (arg_failure ["checkout"; wanted]))))).
  { destruct (branch opts) as [wanted|] eqn:Hb.
    - destruct (negb (is_empty wanted) && negb (String.eqb wanted current)) eqn:Hw.
      + apply runs_checked.
        * intros _. eapply runs_weaken; [apply runs_switchBranch|].
          intros o g (a & -> & Hin). left. exists a. split; [reflexivity|].
          apply (inspects_after_switch opts wanted g Hb); [|exact Hin].
          intros ->. discriminate.
        * intros Hnul. right. exists wanted. auto.
      + apply runs_ret. left. exists current. split; [reflexivity|]. constructor.
    - apply runs_ret. left. exists current. split; [reflexivity|]. constructor. }
  2: { intros c g [(a & Ha & _)|(wanted & _ & _ & _ & Ha)]; discriminate. }
  2: { intros t g [(a & Ha & _)|(wanted & Hb & Hnul & -> & Ha)]; [discriminate|].
       injection Ha as ->. cbn [app].
       exact (switch_refused opts wanted Hb Hnul). }
  2: { intros g [(a & Ha & _)|(wanted & _ & _ & _ & Ha)]; discriminate. }
  intros name g1 [(name0 & _ & Hinsp)|(wanted & _ & _ & _ & Ha)]; [|discriminate].
  cbv beta.
  apply runs_log_then.
  unfold getStatus. apply runs_query_then. intros status. cbv beta.
  apply (runs_weaken _
           (fun o g => workflow opts o ((preamble ++ g1 ++ [ ["status"; "--short"] ]) ++ g))).
  2: { intros o g Hq. unfold preamble in Hq. cbn [app] in Hq.
       rewrite <- app_assoc in Hq. exact Hq. }
  revert Hinsp. generalize (preamble ++ g1 ++ [ ["status"; "--short"] ]). intros G HG.
  destruct (is_empty status).
  { apply runs_log_then. apply runs_exit. rewrite app_nil_r. constructor. exact HG. }
  apply runs_log_then.
  apply runs_prompt_then.
  { rewrite app_nil_r. apply no_paths_typed. exact HG. }
  intros filesInput. cbv zeta.
  set (files := if is_empty filesInput then "." else filesInput).
  set (addArgs := if String.eqb files "." then ["."] else split_space files).
  assert (Hargs : addArgs <> []).
  { subst addArgs. destruct (String.eqb files "."); [discriminate|apply split_space_not_nil]. }
  clearbody addArgs. clearbody files.
  apply runs_checked_git_then.
  { intros Hnul. rewrite app_nil_r. apply paths_refused; assumption. }
  intros addResult. cbv beta.
  destruct (ok addResult); cbn [negb].
  2: { apply runs_log_then. apply runs_exit. apply staging_failed; assumption. }
  apply runs_log_then.
  apply runs_loadConfig_then. intros config.
  eapply runs_then; [apply runs_getDiff|]. intros diff d Hd. cbv beta.
  apply (runs_weaken _
           (fun o g => workflow opts o ((G ++ [ "add" :: addArgs ] ++ d) ++ g))).
  2: { intros o g Hq. cbn [app] in Hq. rewrite <- app_assoc in Hq. exact Hq. }
  assert (HS : stages opts (G ++ [ "add" :: addArgs ] ++ d)) by (constructor; assumption).
  revert HS. generalize (G ++ [ "add" :: addArgs ] ++ d). clear G HG. intros G HG.
  apply (runs_bind _ _ message_outcome).
  { apply runs_getCommitMessage; [exact Hai|..]; unfold message_outcome; auto. }
  2: { intros c g [_ []]. }
  2: { intros t g [-> ->]. rewrite app_nil_r. apply config_is_null. exact HG. }
  2: { intros g [-> _]. rewrite app_nil_r. apply no_message_typed. exact HG. }
  intros [message|] g [-> Hm]; cbn [app].
  2: { apply runs_log_then. apply runs_exit. apply empty_message.
       rewrite ?app_nil_r. exact HG. }
  apply runs_checked_git_then.
  { intros Hnul. rewrite app_nil_r. apply message_refused; assumption. }
  intros commitResult. cbv beta.
  apply (runs_weaken _
           (fun o g => workflow opts o ((G ++ [ ["commit"; "-m"; message] ]) ++ g))).
  2: { intros o g Hq. rewrite <- app_assoc in Hq. exact Hq. }
  assert (HC : commits opts (G ++ [ ["commit"; "-m"; message] ])) by (constructor; assumption).
  revert HC. generalize (G ++ [ ["commit"; "-m"; message] ]). clear G HG. intros G HG.
  destruct (ok commitResult); cbn [negb].
  2: { apply runs_log_then. apply runs_exit. rewrite app_nil_r.
       apply commit_failed. exact HG. }
  apply runs_log_then.
  destruct (noPush opts) eqn:Hnp.
  { apply runs_log_then.
    eapply runs_weaken; [apply runs_header|].
    intros o g ([] & -> & ->). rewrite app_nil_r. apply committed_not_pushed. exact HG. }
  apply runs_prompt_then.
  { rewrite app_nil_r. apply no_push_answer; assumption. }
  intros answer. cbv zeta.
  destruct (String.eqb _ "y").
  - apply (runs_bind _ _
             (fun o g =>
                (o = Returned tt /\ In g (push_sequences (forcePush opts) name))
                \/ (has_nul name = true /\ g = [] /\
                    o = Threw (Raised (arg_failure (if forcePush opts
                                                    then force_push_cmd name
                                                    else plain_push_cmd name)))))).
    { apply (runs_bind _ _ _ _ (runs_push_checked name (forcePush opts))).
      - intros pushed p [(a & _ & Hp)|(_ & _ & Ha)]; [|discriminate].
        apply runs_ret. left. rewrite app_nil_r. auto.
      - intros c p [(a & Ha & _)|(_ & _ & Ha)]; discriminate.
      - intros t p [(a & Ha & _)|(Hnul & Hp & Ha)]; [discriminate|].
        injection Ha as ->. right. auto.
      - intros p [(a & Ha & _)|(_ & _ & Ha)]; discriminate. }
    2: { intros c p [[Ha _]|(_ & _ & Ha)]; discriminate. }
    2: { intros t p [[Ha _]|(Hnul & -> & Ha)]; [discriminate|].
         injection Ha as ->. rewrite app_nil_r.
         apply (branch_refused opts G name); assumption. }
    2: { intros p [[Ha _]|(_ & _ & Ha)]; discriminate. }
    intros [] p [[_ Hp]|(_ & _ & Ha)]; [|discriminate]. cbv beta.
    eapply runs_weaken; [apply runs_header|].
    intros o g ([] & -> & ->). rewrite app_nil_r.
    apply (committed_and_pushed opts G name p); assumption.
  - eapply (runs_then _ _ (fun _ g => g = [])).
    { apply runs_ret. eauto. }
    intros [] p ->. cbv beta.
    eapply runs_weaken; [apply runs_header|].
    intros o g ([] & -> & ->). rewrite !app_nil_r. apply committed_not_pushed. exact HG.
Qed.

End Workflow.

(** ** The workflow: what every run does *)

(** Properties of the commands of a stage. *)
Section StageCommands.
Context (P : list string -> Prop).
Hypothesis P_preamble : Forall P preamble.
Hypothesis P_status : P ["status"; "--short"].
Hypothesis P_checkout : forall name, P ["checkout"; name].
Hypothesis P_create : forall name, P ["checkout"; "-b"; name].
Hypothesis P_add : forall paths, P ("add" :: paths).
Hypothesis P_staged : P ["diff"; "--cached"].
Hypothesis P_diff : P ["diff"].
Hypothesis P_commit : forall message, P ["commit"; "-m"; message].

Lemma Forall_inspects (opts : Opts) (g : list (list string)) :
  inspects opts g -> Forall P g.
Proof using P_preamble P_status P_checkout P_create.
  intros [|name sw Hb Hn Hsw]; rewrite !Forall_app; repeat split; auto.
  pose proof (Forall_inv (Forall_inv_tail (Forall_inv_tail P_preamble))) as Hcur.
  cbn in Hsw. destruct Hsw as [<-|[<-|[<-|[]]]]; auto.
Qed.

Lemma Forall_stages (opts : Opts) (g : list (list string)) :
  stages opts g -> Forall P g.
Proof using P_preamble P_status P_checkout P_create P_add P_staged P_diff.
  intros [g0 paths d Hg Hp Hd]. rewrite !Forall_app. repeat split.
  - apply (Forall_inspects opts), Hg.
  - auto.
  - cbn in Hd. destruct Hd as [<-|[<-|[]]]; auto.
Qed.

Lemma Forall_commits (opts : Opts) (g : list (list string)) :
  commits opts g -> Forall P g.
Proof using All.
  intros [g0 message Hg Hm]. rewrite Forall_app. split.
  - apply (Forall_stages opts), Hg.
  - auto.
Qed.

End StageCommands.

(** What every way of the workflow has in common. *)
Section Ways.
Context `{Engine}.

Lemma workflow_without_push (opts : Opts) (o : Outcome unit) (g : list (list string)) :
  noPush opts = true ->
  workflow opts o g ->
  Forall (fun args => subcommand args <> "push" /\ subcommand args <> "pull") g.
Proof.
  intros Hnp Hw.
  set (P := fun args : list string =>
              subcommand args <> "push" /\ subcommand args <> "pull").
  assert (HI : forall g, inspects opts g -> Forall P g).
  { intros g'. apply Forall_inspects; subst P; cbn;
      repeat constructor; intros; try split; discriminate. }
  assert (HS : forall g, stages opts g -> Forall P g).
  { intros g'. apply Forall_stages; subst P; cbn;
      repeat constructor; intros; try split; discriminate. }
  assert (HC : forall g, commits opts g -> Forall P g).
  { intros g'. apply Forall_commits; subst P; cbn;
      repeat constructor; intros; try split; discriminate. }
  inversion Hw; subst; auto; try congruence.
  - repeat constructor; discriminate.
  - rewrite Forall_app. split; [auto|]. repeat constructor; discriminate.
  - subst P. repeat constructor; discriminate.
Qed.

End Ways.

Section WorkflowProperties.
Context {Sys : Type} `{Subprocess Sys} `{Network Sys} `{Engine}.
Context (homedir : Path).

(** X8. With [--no-push] the workflow never runs [git push] nor
    [git pull], whatever happens. *)
Theorem run_never_pushes_unasked (opts : Opts) (mc : Machine Sys) :
  ai_runs_no_git Sys ->
  noPush opts = true ->
  Forall (fun args => subcommand args <> "push" /\ subcommand args <> "pull")
         (calls_of "git" (events_of (run homedir opts) mc)).
Proof.
  intros Hai Hnp.
  exact (workflow_without_push opts _ _ Hnp
           (runs_events _ _ mc (run_paths homedir opts Hai))).
Qed.

(** X10. A run of the workflow that ends by calling [process.exit(0)]
    has found nothing to commit: it has run the queries and at most
    switched the branch, and has staged, committed and pushed nothing.
    (A run that returns, or that waits for a line when the input has
    ended, also leaves the process with status 0; this is about the call
    of [process.exit].) *)
Theorem run_exit_0_stages_nothing (opts : Opts) (mc : Machine Sys) :
  ai_runs_no_git Sys ->
  fst (run homedir opts mc) = Exited 0 ->
  Forall (fun args =>
            In (subcommand args) ["rev-parse"; "remote"; "branch"; "checkout"; "status"])
         (calls_of "git" (events_of (run homedir opts) mc)).
Proof.
  intros Hai Ho.
  pose proof (runs_events _ _ mc (run_paths homedir opts Hai)) as Hw.
  rewrite Ho in Hw. inversion Hw as [|g Hg| | | | | | | | | | | | |]; subst.
  revert Hg.
  apply Forall_inspects;
    repeat match goal with |- Forall _ _ => constructor end; intros; cbn;
    repeat (first [left; reflexivity | right]).
Qed.

(** X11. A run of the workflow that returns has made exactly one
    commit, with a message that is not empty, after staging the paths
    asked for; whatever it ran after the commit is a push or a pull. *)
Theorem run_returns_after_one_commit (opts : Opts) (mc : Machine Sys) :
  ai_runs_no_git Sys ->
  fst (run homedir opts mc) = Returned tt ->
  exists before message later,
    calls_of "git" (events_of (run homedir opts) mc) =
      before ++ [ ["commit"; "-m"; message] ] ++ later /\
    message <> EmptyString /\
    Forall (fun args => subcommand args <> "commit") before /\
    (exists paths, In ("add" :: paths) before) /\
    Forall (fun args => In (subcommand args) ["push"; "pull"]) later.
Proof.
  intros Hai Ho.
  pose proof (runs_events _ _ mc (run_paths homedir opts Hai)) as Hw.
  rewrite Ho in Hw.
  assert (HC : forall g later,
             commits opts g ->
             Forall (fun args => In (subcommand args) ["push"; "pull"]) later ->
             exists before message later',
               g ++ later = before ++ [ ["commit"; "-m"; message] ] ++ later' /\
               message <> EmptyString /\
               Forall (fun args => subcommand args <> "commit") before /\
               (exists paths, In ("add" :: paths) before) /\
               Forall (fun args => In (subcommand args) ["push"; "pull"]) later').
  { intros g later [g0 message Hg Hm] Hl. exists g0, message, later.
    rewrite <- app_assoc. repeat split; auto.
    - revert Hg. apply Forall_stages; cbn; repeat constructor; intros; discriminate.
    - destruct Hg as [gi paths d _ _ _]. exists paths.
      rewrite !in_app_iff. right. left. left. reflexivity. }
  revert Hw. generalize (calls_of "git" (events_of (run homedir opts) mc)). intros calls Hw.
  inversion Hw; subst.
  - match goal with Hg : commits opts calls |- _ =>
      destruct (HC calls [] Hg ltac:(constructor))
        as (before & message & later & Heq & Hrest)
    end.
    rewrite app_nil_r in Heq. exists before, message, later. auto.
  - apply HC; [assumption|].
    match goal with Hp : In _ (push_sequences _ _) |- _ =>
      destruct (forcePush opts); cbn in Hp;
      [destruct Hp as [<-|[]]|destruct Hp as [<-|[<-|[<-|[<-|[]]]]]]
    end;
      repeat match goal with |- Forall _ _ => constructor end; cbn;
      repeat (first [left; reflexivity | right]).
Qed.

End WorkflowProperties.

Lemma run_never_pushes_unasked_witness :
  Forall (fun args => subcommand args <> "push" /\ subcommand args <> "pull")
    (calls_of "git"
       (events_of (run ["home"; "u"] (set_noPush default_opts))
          (machine [ exited 0 ".git" EmptyString; exited 0 "git@host:r.git" EmptyString;
                     exited 0 "main" EmptyString; exited 0 " M a.txt" EmptyString;
                     exited 0 EmptyString EmptyString; exited 0 "+line" EmptyString;
                     exited 0 EmptyString EmptyString ]
                   [ EmptyString; "Fix a" ] ∅))).
Proof.
  apply run_never_pushes_unasked.
  - intros provider apiKey text s fs. reflexivity.
  - reflexivity.
Defined.

Lemma run_exit_0_stages_nothing_witness :
  Forall (fun args =>
            In (subcommand args) ["rev-parse"; "remote"; "branch"; "checkout"; "status"])
    (calls_of "git"
       (events_of (run ["home"; "u"] (set_branch "dev" default_opts))
          (machine [ exited 0 ".git" EmptyString; exited 0 "git@host:r.git" EmptyString;
                     exited 0 "main" EmptyString; exited 0 EmptyString EmptyString;
                     exited 0 EmptyString EmptyString ]
                   [] ∅))).
Proof.
  apply run_exit_0_stages_nothing.
  - intros provider apiKey text s fs. reflexivity.
  - vm_compute. reflexivity.
Defined.

Lemma run_returns_after_one_commit_witness :
  exists before message later,
    calls_of "git"
       (events_of (run ["home"; "u"] default_opts)
          (machine [ exited 0 ".git" EmptyString; exited 0 "git@host:r.git" EmptyString;
                     exited 0 "main" EmptyString; exited 0 " M a.txt" EmptyString;
                     exited 0 EmptyString EmptyString; exited 0 "+line" EmptyString;
                     exited 0 EmptyString EmptyString; exited 0 EmptyString EmptyString ]
                   [ "a.txt b.txt"; "Fix a"; "Y" ] ∅))
      = before ++ [ ["commit"; "-m"; message] ] ++ later /\
    message <> EmptyString /\
    Forall (fun args => subcommand args <> "commit") before /\
    (exists paths, In ("add" :: paths) before) /\
    Forall (fun args => In (subcommand args) ["push"; "pull"]) later.
Proof.
  apply run_returns_after_one_commit.
  - intros provider apiKey text s fs. reflexivity.
  - vm_compute. reflexivity.
Defined.

(** ** The whole program *)

Lemma given_cons (names : list string) (arg : string) (args : list string) :
  given names (arg :: args) =
    existsb (String.eqb (toLowerCase arg)) names || given names args.
Proof. reflexivity. Qed.

(** A force push is only ever switched on by the token [--force-push]. *)
Lemma parse_loop_forcePush {Sys : Type} (n : nat) :
  forall (args : list string) (o o' : Opts) (w w' : World Sys),
    length args <= n ->
    parse_loop args o w = (Ret o', w') ->
    forcePush o' = true ->
    forcePush o = true \/ given ["--force-push"] args = true.
Proof.
  induction n as [|n IH]; intros [|arg rest] o o' w w' Hlen Hrun Hf;
    cbn [length] in Hlen; try lia.
  - cbn in Hrun. injection Hrun as <- <-. auto.
  - cbn in Hrun. injection Hrun as <- <-. auto.
  - rewrite given_cons. cbn [existsb]. cbn [parse_loop] in Hrun.
    assert (Hstep : forall o1,
               forcePush o1 = forcePush o ->
               parse_loop rest o1 w = (Ret o', w') ->
               forcePush o = true \/
               (String.eqb (toLowerCase arg) "--force-push" || false)
               || given ["--force-push"] rest = true).
    { intros o1 Ho1 Hr. destruct (IH rest o1 o' w w' ltac:(lia) Hr Hf) as [Hl|Hg].
      - left. congruence.
      - right. rewrite Hg. apply orb_true_r. }
    destruct (has (toLowerCase arg)); cbn [negb] in Hrun.
    2: { unfold Console.err, Console.info, exit in Hrun. discriminate. }
    repeat match type of Hrun with
           | (if ?c then _ else _) _ = _ =>
               let E := fresh "E" in destruct c eqn:E
           end;
      try (eapply Hstep; [|exact Hrun]; reflexivity).
    + right. reflexivity.
    + destruct rest as [|name rest']; [discriminate|].
      destruct (IH rest' (set_branch name o) o' w w' ltac:(cbn in Hlen; lia) Hrun Hf)
        as [Hl|Hg]; [left; exact Hl|].
      right. rewrite given_cons, Hg, !orb_true_r. reflexivity.
Qed.

Section Commands.
Context {Sys : Type} `{Subprocess Sys} `{Network Sys} `{Engine}.
Context (homedir : Path).

(** Commands that run no git command. *)
Lemma silent_bind {A B} (m : Proc Sys A) (k : A -> Proc Sys B) :
  runs m (fun _ g => g = []) ->
  (forall a, runs (k a) (fun _ g => g = [])) ->
  runs (Proc.bind m k) (fun _ g => g = []).
Proof.
  intros Hm Hk. apply (runs_bind _ _ _ _ Hm); auto.
  intros a g1 ->. apply Hk.
Qed.

Lemma silent_log (line : string) :
  runs (Proc.io (console_log (Sys := Sys) line)) (fun _ g => g = []).
Proof. apply (runs_weaken _ _ _ (runs_log line)). intros o g (a & _ & Hg). exact Hg. Qed.

Lemma silent_header (text : string) : runs (Proc.io (header (Sys := Sys) text)) (fun _ g => g = []).
Proof. apply (runs_weaken _ _ _ (runs_header text)). intros o g (a & _ & Hg). exact Hg. Qed.

Lemma silent_fs {A : Type} (m : M FS A) : runs (Proc.fsio (Sys := Sys) m) (fun _ g => g = []).
Proof.
  intros mc. exists []. rewrite app_nil_r. unfold Proc.fsio.
  destruct (m (files mc)); cbn. auto.
Qed.

Lemma silent_prompt (question : string) : runs (prompt (Sys := Sys) question) (fun _ g => g = []).
Proof.
  intros mc. exists []. rewrite app_nil_r. unfold prompt.
  destruct (stdin mc); cbn; auto.
Qed.

Lemma silent_npm (args : list string) : runs (Proc.io (spawn "npm" args)) (fun _ g => g = []).
Proof.
  intros mc. exists [Spawn "npm" args]. unfold Proc.io, spawn.
  destruct (spawnSync "npm" args (sys (world mc))); cbn. auto.
Qed.

Lemma silent_ret {A} (a : A) : runs (Proc.ret (Sys := Sys) a) (fun _ g => g = []).
Proof. apply runs_ret. reflexivity. Qed.

Lemma silent_exit {A} (c : Z) : runs (Proc.exit (Sys := Sys) (A := A) c) (fun _ g => g = []).
Proof. apply runs_exit. reflexivity. Qed.

Ltac silence :=
  repeat first
    [ apply silent_bind; [|intros ?]
    | apply silent_log | apply silent_header | apply silent_fs | apply silent_prompt
    | apply silent_npm | apply silent_ret | apply silent_exit
    | match goal with |- @runs _ _ (if ?b then _ else _) _ => destruct b end
    | match goal with |- @runs _ _ (match ?x with _ => _ end) _ => destruct x end ].

Lemma silent_firstRunCheck : runs (firstRunCheck (Sys := Sys) homedir) (fun _ g => g = []).
Proof. unfold firstRunCheck. silence. Qed.

Lemma silent_cmdSetup : runs (cmdSetup (Sys := Sys) homedir) (fun _ g => g = []).
Proof. unfold cmdSetup. silence. Qed.

Lemma silent_cmdUninstall : runs (cmdUninstall homedir) (fun _ g => g = []).
Proof. unfold cmdUninstall, Console.warn, Console.info, Console.ok, Console.err. silence. Qed.

Lemma runs_log_end (line : string) (Q : Outcome unit -> list (list string) -> Prop) :
  Q (Returned tt) [] -> runs (Proc.io (console_log (Sys := Sys) line)) Q.
Proof.
  intros HQ. apply (runs_weaken _ _ _ (runs_log line)).
  intros o g ([] & -> & ->). exact HQ.
Qed.

(** [cmdUpgrade] swallows every failure: it always returns. *)
Lemma cmdUpgrade_returns :
  runs cmdUpgrade (fun o g => o = Returned tt /\ g = []).
Proof.
  unfold cmdUpgrade, upgrade_failed, Console.info, Console.ok, Console.err.
  apply runs_log_then.
  eapply (runs_then _ _ (fun _ g => g = [])).
  { apply (runs_io _ (fun _ g => g = [])). intros w.
    destruct (https_get "https://registry.npmjs.org/gtxr/latest" (sys w)) as [r s] eqn:Hr.
    exists r, s, []. rewrite app_nil_r. auto. }
  intros response g1 ->. cbn [app].
  assert (Hfail : forall e,
             runs (Proc.bind
                     (Proc.io (console_log (Sys := Sys)
                                 (err_line ("Upgrade failed: " +:+ render (message e)))))
                     (fun _ => Proc.io (console_log
                                 (info_line "Try manually: npm install -g gitauto"))))
                  (fun o g => o = Returned tt /\ g = [])).
  { intros e. apply runs_log_then. apply runs_log_end. auto. }
  destruct response as [data|e]; [|apply Hfail].
  destruct (JSON_parse data) as [v|]; [|apply Hfail].
  destruct (is_null v); [apply Hfail|].
  cbv zeta. destruct (is_string _ VERSION); [apply runs_log_end; auto|].
  apply runs_log_then.
  eapply (runs_then _ _ (fun _ g => g = [])).
  { apply (runs_io _ (fun _ g => g = [])). intros w. unfold spawn.
    destruct (spawnSync "npm" ["install"; "-g"; "gtxr"] (sys w)) as [r s].
    exists r, s, [Spawn "npm" ["install"; "-g"; "gtxr"]]. auto. }
  intros r g1 ->. cbn [app].
  destruct (bool_decide _); apply runs_log_end; auto.
Qed.

Lemma runs_catch {A} (m : Proc Sys A) (h : Thrown -> Proc Sys A)
      (Q1 Q : Outcome A -> list (list string) -> Prop) :
  runs m Q1 ->
  (forall t g1, Q1 (Threw t) g1 -> runs (h t) (fun o g2 => Q o (g1 ++ g2))) ->
  (forall o g, (forall t, o <> Threw t) -> Q1 o g -> Q o g) ->
  runs (Proc.catch m h) Q.
Proof.
  intros Hm Hh Hq mc. unfold Proc.catch.
  destruct (Hm mc) as (e1 & Htr & HQ1).
  destruct (m mc) as [[a|c|t|] mc1]; cbn [fst snd] in *;
    try (exists e1; split; [exact Htr|apply Hq; [discriminate|exact HQ1]]).
  destruct (Hh t _ HQ1 mc1) as (e2 & Htr2 & HQ2).
  exists (e1 ++ e2). rewrite Htr2, Htr, <- app_assoc, calls_of_app. auto.
Qed.

(** The git commands of the program are those of the workflow for the
    options read from the command line, if any. *)
Lemma main_paths (argv : list string) :
  ai_runs_no_git Sys ->
  runs (main homedir argv)
       (fun _ g =>
          g = [] \/
          exists opts o,
            (exists w w' : World Sys, parseArgs argv w = (Ret opts, w')) /\ workflow opts o g).
Proof.
  intros Hai. unfold main.
  apply (runs_bind _ _
           (fun o g => g = [] /\
                       forall opts, o = Returned opts ->
                                    exists w w' : World Sys, parseArgs argv w = (Ret opts, w'))).
  { intros mc. unfold Proc.io.
    destruct (parseArgs_outcomes argv (world mc)) as [[o Ho]|[(x & _ & Hx)|Hb]].
    - exists []. rewrite Ho, app_nil_r. cbn. split; [reflexivity|]. split; [reflexivity|].
      intros opts [= <-]. eauto.
    - eexists. rewrite Hx. cbn. split; [reflexivity|]. split; [reflexivity|]. discriminate.
    - eexists. rewrite Hb. cbn. split; [reflexivity|]. split; [reflexivity|]. discriminate. }
  2-4: intros; left; tauto.
  intros opts g1 [-> Hparsed]. specialize (Hparsed opts eq_refl). cbn [app].
  assert (Hsilent : forall (m : Proc Sys unit),
             runs m (fun _ g => g = []) ->
             runs m (fun (_ : Outcome unit) g =>
                       g = [] \/
                       exists opts o,
                         (exists w w' : World Sys, parseArgs argv w = (Ret opts, w')) /\
                         workflow opts o g)).
  { intros m Hm. apply (runs_weaken _ _ _ Hm). auto. }
  destruct (help opts).
  { apply Hsilent. unfold printHelp. silence. }
  destruct (version opts).
  { apply Hsilent. silence. }
  destruct (upgrade opts).
  { apply Hsilent. apply silent_bind; [|intros; apply silent_exit].
    apply (runs_weaken _ _ _ cmdUpgrade_returns). tauto. }
  destruct (uninstall opts).
  { apply Hsilent. apply silent_bind; [|intros; apply silent_exit].
    apply silent_cmdUninstall. }
  apply (runs_bind _ _ _ _ silent_firstRunCheck); auto.
  intros [] g1 ->. cbn [app].
  destruct (setup opts).
  { apply Hsilent. apply silent_bind; [|intros; apply silent_exit].
    apply silent_cmdSetup. }
  apply (runs_catch _ _ (workflow opts)).
  - apply run_paths. exact Hai.
  - intros t g1 Hw. apply runs_log_then. apply runs_exit.
    right. exists opts, (Threw t). rewrite app_nil_r. auto.
  - intros o g _ Hw. right. exists opts, o. auto.
Qed.

End Commands.

(** ** The commands, one machine at a time *)

Section Stepping.
Context {Sys : Type}.

Lemma io_step {A B : Type} (m : M (World Sys) A) (k : A -> Proc Sys B)
      (mc : Machine Sys) (a : A) (w : World Sys) :
  m (world mc) = (Ret a, w) ->
  Proc.bind (Proc.io m) k mc =
    k a (mkMachine w (files mc) (stdin mc) (questions mc) (ai_log mc)).
Proof. intros Hm. unfold Proc.bind, Proc.io. rewrite Hm. reflexivity. Qed.

Lemma log_io_step {B : Type} (line : string) (k : unit -> Proc Sys B) (mc : Machine Sys) :
  Proc.bind (Proc.io (console_log line)) k mc =
    k tt (mkMachine (after (world mc) [ConsoleLog line])
                    (files mc) (stdin mc) (questions mc) (ai_log mc)).
Proof. reflexivity. Qed.

Lemma header_run (text : string) (w : World Sys) :
  exists lines, header text w = (Ret tt, after w lines) /\ calls_of "npm" lines = [].
Proof.
  eexists [_; _; _]. split.
  - unfold header. cbv [bind console_log after sys trace].
    rewrite <- !List.app_assoc. reflexivity.
  - reflexivity.
Qed.

Lemma fs_step {A B : Type} (m : M FS A) (k : A -> Proc Sys B)
      (mc : Machine Sys) (a : A) (fs : FS) :
  m (files mc) = (Ret a, fs) ->
  Proc.bind (Proc.fsio m) k mc =
    k a (mkMachine (world mc) fs (stdin mc) (questions mc) (ai_log mc)).
Proof. intros Hm. unfold Proc.bind, Proc.fsio. rewrite Hm. reflexivity. Qed.

Lemma prompt_step {B : Type} (question : string) (k : string -> Proc Sys B)
      (mc : Machine Sys) (answer : string) (rest : list string) :
  stdin mc = answer :: rest ->
  Proc.bind (prompt question) k mc =
    k (trim answer)
      (mkMachine (world mc) (files mc) rest (questions mc ++ [question]) (ai_log mc)).
Proof. intros Hs. unfold Proc.bind, prompt. rewrite Hs. reflexivity. Qed.

Lemma prompt_starved {B : Type} (question : string) (k : string -> Proc Sys B)
      (mc : Machine Sys) :
  stdin mc = [] ->
  Proc.bind (prompt question) k mc =
    (Waiting,
     mkMachine (world mc) (files mc) [] (questions mc ++ [question]) (ai_log mc)).
Proof. intros Hs. unfold Proc.bind, prompt. rewrite Hs. reflexivity. Qed.

End Stepping.

Section ProgramProperties.
Context {Sys : Type} `{Subprocess Sys} `{Network Sys} `{Engine}.
Context (homedir : Path).

(** The program after its command line has been read. *)
Lemma bind_parseArgs {B : Type} (argv : list string) (k : Opts -> Proc Sys B)
      (mc : Machine Sys) (opts : Opts) (w' : World Sys) :
  parseArgs argv (world mc) = (Ret opts, w') ->
  Proc.bind (Proc.io (parseArgs argv)) k mc = k opts mc.
Proof.
  intros Hp. unfold Proc.bind, Proc.io.
  destruct (parseArgs_outcomes argv (world mc)) as [[o Ho]|[(x & _ & Hx)|Hb]];
    [|congruence|congruence].
  rewrite Ho in Hp. injection Hp as -> _. rewrite Ho. cbn [Proc.lift].
  destruct mc; reflexivity.
Qed.

Lemma silent_events {A : Type} (m : Proc Sys A) (mc : Machine Sys) :
  runs m (fun _ g => g = []) ->
  calls_of "git" (skipn (length (trace (world mc))) (trace (world (snd (m mc))))) = [].
Proof. intros Hm. exact (runs_events m _ mc Hm). Qed.

(** X13. The commands other than the workflow never touch the
    repository: when the command line asks for the help, the version, an
    upgrade, the uninstallation or the setup, no git command is run. *)
Theorem main_commands_run_no_git (argv : list string) (mc : Machine Sys)
        (opts : Opts) (w' : World Sys) :
  parseArgs argv (world mc) = (Ret opts, w') ->
  help opts || version opts || upgrade opts || uninstall opts || setup opts = true ->
  calls_of "git" (events_of (main homedir argv) mc) = [].
Proof.
  intros Hp Hcmd. unfold events_of, main. rewrite (bind_parseArgs _ _ _ _ _ Hp).
  apply silent_events.
  destruct (help opts).
  { unfold printHelp. apply silent_bind; [apply silent_log|intros; apply silent_exit]. }
  destruct (version opts); [apply silent_bind; [apply silent_log|intros; apply silent_exit]|].
  destruct (upgrade opts).
  { apply silent_bind; [|intros; apply silent_exit].
    apply (runs_weaken _ _ _ cmdUpgrade_returns). tauto. }
  destruct (uninstall opts).
  { apply silent_bind; [apply silent_cmdUninstall|intros; apply silent_exit]. }
  destruct (setup opts); [|discriminate].
  apply silent_bind; [apply silent_firstRunCheck|]. intros [].
  apply silent_bind; [apply silent_cmdSetup|intros; apply silent_exit].
Qed.

(** X14. [gtxr upgrade] always ends with exit status 0: a registry that
    cannot be reached, an answer that is not JSON and a failed [npm install]
    are reported on the console only. *)
Theorem main_upgrade_exits_0 (argv : list string) (mc : Machine Sys)
        (opts : Opts) (w' : World Sys) :
  parseArgs argv (world mc) = (Ret opts, w') ->
  help opts = false ->
  version opts = false ->
  upgrade opts = true ->
  fst (main homedir argv mc) = Exited 0.
Proof.
  intros Hp Hh Hv Hu. unfold main. rewrite (bind_parseArgs _ _ _ _ _ Hp).
  rewrite Hh, Hv, Hu. unfold Proc.bind.
  destruct (cmdUpgrade_returns mc) as (evs & _ & Hr & _).
  destruct (cmdUpgrade mc) as [o mc1]. cbn [fst] in Hr. rewrite Hr. reflexivity.
Qed.

(** X21. The help wins over every other command, and the version over
    every command but the help: when the command line asks for the help,
    whatever else it asks for (an uninstallation, a setup, ...), the program
    prints the help text, exits with status 0 and does nothing else: no
    question, no subprocess, no file touched, no welcome banner.  Likewise
    for the version when the help is not asked for. *)
Theorem main_help_and_version_only_print (argv : list string) (mc : Machine Sys)
        (opts : Opts) (w' : World Sys) :
  parseArgs argv (world mc) = (Ret opts, w') ->
  (help opts = true ->
   main homedir argv mc =
     (Exited 0,
      mkMachine (after (world mc) [ConsoleLog help_text])
                (files mc) (stdin mc) (questions mc) (ai_log mc)))
  /\
  (help opts = false ->
   version opts = true ->
   main homedir argv mc =
     (Exited 0,
      mkMachine (after (world mc) [ConsoleLog ("GTXR v" +:+ VERSION)])
                (files mc) (stdin mc) (questions mc) (ai_log mc))).
Proof.
  intros Hp. unfold main. rewrite (bind_parseArgs _ _ _ _ _ Hp). split.
  - intros ->. unfold printHelp. rewrite log_io_step. reflexivity.
  - intros -> ->. rewrite log_io_step. reflexivity.
Qed.

End ProgramProperties.

(** ** Setup, uninstall and the welcome banner *)

Section SetupProperties.
Context {Sys : Type} (homedir : Path).

(** X15. After [cmdSetup] has returned, either the file system is as it
    was, or the user has named one of the three providers (in any case) and
    a key that is not blank, and [loadConfig] now returns exactly that
    provider, in lower case, with that key: nothing else is ever saved. *)
Theorem cmdSetup_saves_what_loadConfig_reads (mc : Machine Sys) :
  fst (cmdSetup homedir mc) = Returned tt ->
  files (snd (cmdSetup homedir mc)) = files mc
  \/ exists p k rest,
       stdin mc = p :: k :: rest /\
       stdin (snd (cmdSetup homedir mc)) = rest /\
       In (toLowerCase (trim p)) PROVIDERS /\
       trim k <> EmptyString /\
       loadConfig homedir (files (snd (cmdSetup homedir mc))) =
         (Ret (config_object (mkConfig (toLowerCase (trim p)) (trim k))),
          files (snd (cmdSetup homedir mc))).
Proof.
  remember (cmdSetup homedir mc) as result eqn:Hres. unfold cmdSetup in Hres.
  destruct (header_run "GTXR Setup" (world mc)) as (lines & Hh & _).
  rewrite (io_step _ _ _ _ _ Hh) in Hres.
  destruct (stdin mc) as [|p more] eqn:Hin.
  { rewrite prompt_starved in Hres by reflexivity. subst result. discriminate. }
  rewrite (prompt_step _ _ _ p more) in Hres by reflexivity. cbv zeta in Hres.
  destruct (existsb (String.eqb (toLowerCase (trim p))) PROVIDERS) eqn:Hp;
    cbn [negb] in Hres.
  2: { subst result. intros _. left. reflexivity. }
  destruct more as [|k rest].
  { rewrite prompt_starved in Hres by reflexivity. subst result. discriminate. }
  rewrite (prompt_step _ _ _ k rest) in Hres by reflexivity.
  destruct (is_empty (trim k)) eqn:Hk.
  { subst result. intros _. left. reflexivity. }
  unfold Proc.bind, Proc.fsio in Hres. cbn [files] in Hres.
  destruct (saveConfig homedir _ (files mc)) as [[[]|c|e] fs] eqn:Hs;
    cbn [Proc.lift] in Hres; subst result; try discriminate.
  intros _. right. exists p, k, rest. cbn [snd stdin files Proc.io].
  repeat split.
  - apply existsb_exists in Hp as (x & Hx & Heq). apply String.eqb_eq in Heq.
    rewrite Heq. exact Hx.
  - intros Hk'. rewrite Hk' in Hk. discriminate.
  - eapply (loadConfig_reads homedir fs).
    + apply (saveConfig_writes homedir _ _ _ Hs).
    + reflexivity.
    + apply JSON_parse_stringify_config.
Qed.

End SetupProperties.

Section UninstallProperties.
Context {Sys : Type} `{Subprocess Sys} (homedir : Path).

Lemma skipn_added {A : Type} (l evs : list A) : skipn (length l) (l ++ evs) = evs.
Proof. rewrite skipn_app, skipn_all, Nat.sub_diag. reflexivity. Qed.

(** X16. [cmdUninstall] does nothing unless the answer to its question
    is [y] or [Y] (white space around it apart): with any other answer, or
    none, no file is touched and no subprocess is run. *)
Theorem cmdUninstall_needs_yes (mc : Machine Sys) :
  (forall a rest, stdin mc = a :: rest -> toLowerCase (trim a) <> "y") ->
  files (snd (cmdUninstall homedir mc)) = files mc /\
  forall cmd, calls_of cmd (events_of (cmdUninstall homedir) mc) = [].
Proof.
  unfold events_of.
  destruct (cmdUninstall homedir mc) as [o mc'] eqn:Hrun.
  unfold cmdUninstall, Console.warn, Console.info, Console.ok, Console.err in Hrun.
  rewrite log_io_step in Hrun. cbn [fst snd].
  intros Hno. destruct (stdin mc) as [|a rest] eqn:Hin.
  - rewrite prompt_starved in Hrun by reflexivity. injection Hrun as <- <-.
    split; [reflexivity|]. intros cmd. cbn [world trace after].
    rewrite skipn_added. reflexivity.
  - rewrite (prompt_step _ _ _ a rest) in Hrun by reflexivity.
    destruct (String.eqb (toLowerCase (trim a)) "y") eqn:Hy.
    { apply String.eqb_eq in Hy. destruct (Hno a rest eq_refl Hy). }
    cbn [negb] in Hrun. injection Hrun as <- <-.
    split; [reflexivity|]. intros cmd. cbn [world trace after].
    rewrite <- app_assoc, skipn_added. reflexivity.
Qed.

End UninstallProperties.

Section WelcomeProperties.
Context {Sys : Type} (homedir : Path).

(** X17. The welcome banner is shown once: after a [firstRunCheck] that
    has returned, another [firstRunCheck] prints nothing and changes
    nothing. *)
Theorem firstRunCheck_once (mc : Machine Sys) :
  fst (firstRunCheck homedir mc) = Returned tt ->
  firstRunCheck homedir (snd (firstRunCheck homedir mc)) =
    (Returned tt, snd (firstRunCheck homedir mc)).
Proof.
  destruct (firstRunCheck homedir mc) as [o mc'] eqn:Hrun. cbn [fst snd]. intros ->.
  assert (Hmark : is_Some (files mc' !! WELCOME_MARKER homedir)).
  { unfold firstRunCheck, Proc.bind, Proc.fsio, Proc.io, existsSync, console_log in Hrun.
    cbn [files world stdin questions ai_log Proc.lift] in Hrun.
    destruct (bool_decide (is_Some (files mc !! WELCOME_MARKER homedir))) eqn:Hd.
    - injection Hrun as <-. cbn [files]. apply bool_decide_eq_true in Hd. exact Hd.
    - cbn [files world stdin questions ai_log Proc.lift] in Hrun.
      destruct (mkdirSync (CONFIG_DIR homedir) (files mc)) as [[[]|c|e] fs1];
        cbn [files world stdin questions ai_log Proc.lift] in Hrun; try discriminate.
      destruct (writeFileSync (WELCOME_MARKER homedir) EmptyString fs1)
        as [[[]|c|e] fs2] eqn:Hw;
        cbn [files world stdin questions ai_log Proc.lift] in Hrun; try discriminate.
      injection Hrun as <-. cbn [files].
      unfold writeFileSync in Hw.
      repeat (case_match; simplify_eq); rewrite lookup_insert_eq; eauto. }
  unfold firstRunCheck, Proc.bind, Proc.fsio, existsSync.
  rewrite bool_decide_true by exact Hmark. cbn [Proc.lift Proc.ret].
  destruct mc'; reflexivity.
Qed.

End WelcomeProperties.

(** ** The commit message *)

Lemma toLowerCase_is_empty (s : string) : is_empty (toLowerCase s) = is_empty s.
Proof. destruct s; reflexivity. Qed.

Section Conversation.
Context {Sys : Type} `{Subprocess Sys} `{Network Sys} `{Engine}.

Lemma converses_ret {A} (a : A) (Q : Outcome A -> list string -> list AiCall -> Prop) :
  Q (Returned a) [] [] -> converses (Proc.ret (Sys := Sys) a) Q.
Proof. intros HQ mc. exists [], []. rewrite app_nil_r. auto. Qed.

Lemma converses_throw {A} (t : Thrown) (Q : Outcome A -> list string -> list AiCall -> Prop) :
  Q (Threw t) [] [] -> converses (Proc.throw (Sys := Sys) t) Q.
Proof. intros HQ mc. exists [], []. rewrite app_nil_r. auto. Qed.

Lemma converses_io_then {A B : Type} (m : M (World Sys) A) (k : A -> Proc Sys B)
      (Q : Outcome B -> list string -> list AiCall -> Prop) :
  (forall w, exists a w', m w = (Ret a, w')) ->
  (forall a, converses (k a) Q) ->
  converses (Proc.bind (Proc.io m) k) Q.
Proof.
  intros Hm Hk mc. unfold Proc.bind, Proc.io.
  destruct (Hm (world mc)) as (a & w' & ->). cbn [Proc.lift].
  destruct (Hk a (mkMachine w' (files mc) (stdin mc) (questions mc) (ai_log mc)))
    as (used & calls & Hu & Hc & HQ).
  exists used, calls. auto.
Qed.

Lemma converses_log_then {B : Type} (line : string) (k : unit -> Proc Sys B)
      (Q : Outcome B -> list string -> list AiCall -> Prop) :
  converses (k tt) Q -> converses (Proc.bind (Proc.io (console_log line)) k) Q.
Proof.
  intros Hk. apply converses_io_then.
  - intros w. eexists _, _. reflexivity.
  - intros []. exact Hk.
Qed.

Lemma converses_prompt_then {B : Type} (question : string) (k : string -> Proc Sys B)
      (Q : Outcome B -> list string -> list AiCall -> Prop) :
  Q Waiting [] [] ->
  (forall answer, converses (k (trim answer)) (fun o used calls => Q o (answer :: used) calls)) ->
  converses (Proc.bind (prompt question) k) Q.
Proof.
  intros Hw Hk mc. unfold Proc.bind, prompt.
  destruct (stdin mc) as [|a rest] eqn:Hin.
  - exists [], []. cbn. rewrite app_nil_r. auto.
  - destruct (Hk a
               (mkMachine (world mc) (files mc) rest (questions mc ++ [question]) (ai_log mc)))
      as (used & calls & Hu & Hc & HQ).
    exists (a :: used), calls. cbn [stdin ai_log] in Hu, Hc. rewrite Hu at 1. auto.
Qed.

Lemma converses_callAI_then {B : Type} (provider apiKey : json) (text : string)
      (k : string + JsError -> Proc Sys B)
      (Q : Outcome B -> list string -> list AiCall -> Prop) :
  (forall r, converses (k r)
               (fun o used calls => Q o used (mkAiCall provider apiKey text r :: calls))) ->
  converses (Proc.bind (callAI provider apiKey text) k) Q.
Proof.
  intros Hk mc. unfold Proc.bind, callAI.
  match goal with |- context [k ?r ?m] => destruct (Hk r m) as (used & calls & Hu & Hc & HQ) end.
  cbn [stdin ai_log] in Hu, Hc.
  eexists used, (_ :: calls). rewrite Hc, <- app_assoc. auto.
Qed.

Lemma converses_weaken {A} (m : Proc Sys A)
      (Q Q' : Outcome A -> list string -> list AiCall -> Prop) :
  converses m Q -> (forall o used calls, Q o used calls -> Q' o used calls) ->
  converses m Q'.
Proof.
  intros Hm HQ mc. destruct (Hm mc) as (used & calls & Hu & Hc & Hq).
  exists used, calls. auto.
Qed.

Lemma converses_manual_message (Q : Outcome (option string) -> list string -> list AiCall -> Prop) :
  Q Waiting [] [] ->
  (forall answer, Q (Returned (or_null (trim answer))) [answer] []) ->
  converses (manual_message (Sys := Sys)) Q.
Proof.
  intros Hw Ha. unfold manual_message.
  apply converses_prompt_then; [exact Hw|].
  intros answer. apply converses_ret. apply Ha.
Qed.

Lemma handleAiError_returns (provider : string) (e : JsError) (w : World Sys) :
  exists a w', handleAiError provider e w = (Ret a, w').
Proof.
  unfold handleAiError, Console.info, Console.err.
  repeat match goal with
         | |- context [if ?b then _ else _] => destruct b
         end;
    rewrite ?log_step; eexists tt, _; reflexivity.
Qed.

Lemma converses_ai_fallback (provider : json) (e : JsError)
      (Q : Outcome (option string) -> list string -> list AiCall -> Prop) :
  Q Waiting [] [] ->
  (forall answer, Q (Returned (or_null (trim answer))) [answer] []) ->
  converses (ai_fallback (Sys := Sys) provider e) Q.
Proof.
  intros Hw Ha. unfold ai_fallback.
  apply converses_io_then; [apply handleAiError_returns|]. intros [].
  apply converses_log_then. apply converses_manual_message; assumption.
Qed.

Lemma typed_message_origin (before : list string) (answer : string) (calls : list AiCall) :
  message_origin (Returned (or_null (trim answer))) (before ++ [answer]) calls.
Proof.
  unfold or_null. destruct (is_empty (trim answer)) eqn:He; cbn [message_origin]; [exact I|].
  split; [intros Hm; rewrite Hm in He; discriminate|].
  exists answer. rewrite last_snoc. auto.
Qed.

Lemma message_origin_later (o : Outcome (option string)) (answer : string) (c : AiCall)
      (used : list string) (calls : list AiCall) :
  message_origin o used calls -> message_origin o (answer :: used) (c :: calls).
Proof.
  destruct o as [[m|]|code|t|]; cbn [message_origin]; auto.
  intros (Hm & x & Hlast & Horigin). split; [exact Hm|].
  exists x. split.
  - change (answer :: used) with ([answer] ++ used). rewrite last_app, Hlast. reflexivity.
  - destruct Horigin as [Ht|(Hacc & y & Hy & Hr)]; [left; exact Ht|right].
    split; [exact Hacc|]. exists y. split; [|exact Hr].
    change (c :: calls) with ([c] ++ calls). rewrite last_app, Hy. reflexivity.
Qed.

Lemma message_origin_after (o : Outcome (option string)) (answer : string)
      (used : list string) (calls : list AiCall) :
  message_origin o used calls -> used <> [] -> message_origin o (answer :: used) calls.
Proof.
  destruct o as [[m|]|code|t|]; cbn [message_origin]; auto.
  intros (Hm & x & Hlast & Horigin) _. split; [exact Hm|].
  exists x. split; [|exact Horigin].
  change (answer :: used) with ([answer] ++ used). rewrite last_app, Hlast. reflexivity.
Qed.

(** The loop: every call is made with the same provider, key and prompt,
    and the message it returns has one of the two origins. *)
Lemma converses_generate (rounds : nat) (provider apiKey : json) (text : string) :
  converses (generate rounds provider apiKey text)
            (fun o used calls =>
               calls_for provider apiKey text calls /\ message_origin o used calls).
Proof.
  induction rounds as [|rounds IH]; cbn [generate].
  { intros mc. exists [], []. rewrite app_nil_r. cbn. repeat split; auto. constructor. }
  apply converses_log_then. apply converses_callAI_then. intros r.
  assert (Hcall : forall calls,
             calls_for provider apiKey text calls ->
             calls_for provider apiKey text (mkAiCall provider apiKey text r :: calls)).
  { intros calls Hc. constructor; [cbn; auto|exact Hc]. }
  assert (Hfall : forall e,
             converses (ai_fallback (Sys := Sys) provider e)
               (fun o used calls =>
                  calls_for provider apiKey text (mkAiCall provider apiKey text r :: calls) /\
                  message_origin o used (mkAiCall provider apiKey text r :: calls))).
  { intros e. apply converses_ai_fallback.
    - split; [apply Hcall; constructor|exact I].
    - intros answer. split; [apply Hcall; constructor|].
      apply (typed_message_origin [] answer). }
  destruct r as [msg|e]; [|apply Hfall].
  destruct (is_empty msg) eqn:Hmsg; [apply Hfall|].
  apply converses_log_then. apply converses_prompt_then.
  { split; [apply Hcall; constructor|exact I]. }
  intros answer. cbv zeta.
  destruct (String.eqb _ "y") eqn:Hy.
  { apply converses_ret. split; [apply Hcall; constructor|].
    cbn [message_origin]. split; [intros ->; discriminate|].
    exists answer. split; [reflexivity|]. right. split.
    - unfold accepts. rewrite toLowerCase_is_empty in Hy.
      destruct (is_empty (trim answer)) eqn:He.
      + left. destruct (trim answer); [reflexivity|discriminate].
      + right. apply String.eqb_eq, Hy.
    - eexists. split; reflexivity. }
  destruct (String.eqb _ "r").
  { apply (converses_weaken _ _ _ IH). intros o used calls [Hc Ho].
    split; [apply Hcall, Hc|]. apply message_origin_later, Ho. }
  apply converses_manual_message.
  - split; [apply Hcall; constructor|exact I].
  - intros answer'. split; [apply Hcall; constructor|].
    apply (typed_message_origin [answer] answer').
Qed.

End Conversation.

Section CommitMessage.
Context {Sys : Type} `{Subprocess Sys} `{Network Sys} `{Engine}.

Lemma callAI_step {B : Type} (provider apiKey : json) (text : string)
      (k : string + JsError -> Proc Sys B) (mc : Machine Sys) :
  Proc.bind (callAI provider apiKey text) k mc =
    k (reply (callAI_run provider apiKey text (sys (world mc)) (files mc)))
      (mkMachine
         (mkWorld (sys_after (callAI_run provider apiKey text (sys (world mc)) (files mc)))
                  (trace (world mc) ++
                   emitted (callAI_run provider apiKey text (sys (world mc)) (files mc))))
         (files_after (callAI_run provider apiKey text (sys (world mc)) (files mc)))
         (stdin mc) (questions mc)
         (ai_log mc ++
          [mkAiCall provider apiKey text
             (reply (callAI_run provider apiKey text (sys (world mc)) (files mc)))])).
Proof. reflexivity. Qed.

(** The bound of the loop is never what stops it: with any bound above
    the number of lines left to read, the loop does the same. *)
Lemma generate_rounds (provider apiKey : json) (text : string) (rounds : nat) :
  forall mc : Machine Sys,
    length (stdin mc) < rounds ->
    generate rounds provider apiKey text mc =
    generate (S (length (stdin mc))) provider apiKey text mc.
Proof.
  induction rounds as [|rounds IH]; intros mc Hlen; [lia|].
  cbn [generate]. unfold Console.info. rewrite !log_io_step, !callAI_step.
  destruct (reply _) as [msg|e]; [|reflexivity].
  destruct (is_empty msg); [reflexivity|].
  rewrite !log_io_step.
  destruct (stdin mc) as [|answer rest] eqn:Hin.
  { rewrite !prompt_starved by reflexivity. reflexivity. }
  rewrite !(prompt_step _ _ _ answer rest) by reflexivity. cbv zeta.
  destruct (String.eqb _ "y"); [reflexivity|].
  destruct (String.eqb _ "r"); [|reflexivity].
  cbn [length] in Hlen. rewrite IH by (cbn [stdin]; lia). reflexivity.
Qed.

(** What [getCommitMessage] reads, what it asks the AI and what it
    returns. *)
Lemma converses_getCommitMessage (config : json) (diff : string) (no_ai : bool) :
  converses (getCommitMessage (Sys := Sys) config diff no_ai)
            (fun o used calls =>
               message_origin o used calls /\ ai_consent config diff no_ai used calls).
Proof.
  unfold getCommitMessage.
  assert (Hmanual : forall before,
    converses (manual_message (Sys := Sys))
      (fun o used calls =>
         message_origin o (before ++ used) calls /\
         ai_consent config diff no_ai (before ++ used) calls)).
  { intros before. apply converses_manual_message.
    - split; [exact I|]. intros Hc. destruct Hc. reflexivity.
    - intros answer. split; [apply typed_message_origin|].
      intros Hc. destruct Hc. reflexivity. }
  assert (Hplain :
    converses (Proc.bind (if negb no_ai
                          then Proc.io (Console.warn "AI not configured — run: gtxr setup")
                          else Proc.ret tt)
                         (fun _ => manual_message (Sys := Sys)))
      (fun o used calls =>
         message_origin o used calls /\ ai_consent config diff no_ai used calls)).
  { destruct no_ai; cbn [negb].
    - intros mc. exact (Hmanual [] mc).
    - apply converses_log_then. exact (Hmanual []). }
  destruct (is_null config).
  { apply converses_throw. split; [exact I|]. intros Hc. destruct Hc. reflexivity. }
  destruct (member "apiKey" config) as [apiKey|] eqn:Hkey; [|exact Hplain].
  destruct (member "provider" config) as [provider|] eqn:Hprov; [|exact Hplain].
  destruct (truthy apiKey && truthy provider && negb no_ai) eqn:Huse; [|exact Hplain].
  apply andb_true_iff in Huse as [Huse Hno]. apply andb_true_iff in Huse as [Hk Hp].
  apply converses_prompt_then.
  { split; [exact I|]. intros Hc. destruct Hc. reflexivity. }
  intros answer.
  destruct (negb (is_empty (trim answer)) && _) eqn:Hrefuse.
  { exact (Hmanual [answer]). }
  assert (Hacc : accepts answer).
  { unfold accepts. apply andb_false_iff in Hrefuse as [He|Hy].
    - left. apply negb_false_iff in He. destruct (trim answer); [reflexivity|discriminate].
    - right. apply negb_false_iff in Hy. apply String.eqb_eq, Hy. }
  destruct (is_empty diff) eqn:Hdiff.
  { apply converses_log_then. exact (Hmanual [answer]). }
  intros mc.
  destruct (converses_generate (S (length (stdin mc))) provider apiKey (ai_prompt_for diff) mc)
    as (used & calls & Hu & Hc & Hfor & Horigin).
  exists used, calls. split; [exact Hu|]. split; [exact Hc|]. split.
  - destruct calls as [|c calls].
    + destruct (fst (generate _ _ _ _ mc)) as [[m|]|code|t|]; cbn [message_origin] in *; auto.
      destruct Horigin as (Hm & x & Hlast & [Ht|(_ & y & Hy & _)]); [|discriminate].
      split; [exact Hm|]. exists x. split; [|left; exact Ht].
      change (answer :: used) with ([answer] ++ used). rewrite last_app, Hlast. reflexivity.
    + destruct (fst (generate _ _ _ _ mc)) as [[m|]|code|t|]; cbn [message_origin] in *; auto.
      destruct Horigin as (Hm & x & Hlast & Hor).
      split; [exact Hm|]. exists x. split; [|exact Hor].
      change (answer :: used) with ([answer] ++ used). rewrite last_app, Hlast. reflexivity.
  - intros _. split; [apply negb_true_iff, Hno|]. split.
    + intros ->. discriminate.
    + split; [exists answer, used; auto|].
      exists provider, apiKey. auto.
Qed.

(** X18. The message [getCommitMessage] returns is never empty, and it
    is either the last line the user typed, trimmed, or the last reply of
    the AI, which the user accepted with the last line typed (an empty
    line, [y] or [Y]): a failed or refused generation always falls back to
    what the user types. *)
Theorem getCommitMessage_message_origin (config : json) (diff : string) (no_ai : bool)
        (mc : Machine Sys) :
  exists used calls,
    stdin mc = used ++ stdin (snd (getCommitMessage config diff no_ai mc)) /\
    ai_log (snd (getCommitMessage config diff no_ai mc)) = ai_log mc ++ calls /\
    message_origin (fst (getCommitMessage config diff no_ai mc)) used calls.
Proof.
  destruct (converses_getCommitMessage config diff no_ai mc)
    as (used & calls & Hu & Hc & Ho & _).
  exists used, calls. auto.
Qed.

(** X19. The AI is called only with the user's consent: when a call is
    made, [--no-ai] was not given, the config holds a provider and a key
    that are not blank, the diff is not empty, and the first line the user
    typed was empty, [y] or [Y] (white space apart); and every call is
    made for that provider, with that key, on the prompt built from the
    first 3000 UTF-16 code units of the diff. *)
Theorem getCommitMessage_ai_needs_consent (config : json) (diff : string) (no_ai : bool)
        (mc : Machine Sys) :
  exists used calls,
    stdin mc = used ++ stdin (snd (getCommitMessage config diff no_ai mc)) /\
    ai_log (snd (getCommitMessage config diff no_ai mc)) = ai_log mc ++ calls /\
    ai_consent config diff no_ai used calls.
Proof.
  destruct (converses_getCommitMessage config diff no_ai mc)
    as (used & calls & Hu & Hc & _ & Ha).
  exists used, calls. auto.
Qed.

End CommitMessage.

Section WorkflowAndAi.
Context {Sys : Type} `{Subprocess Sys} `{Network Sys} `{Engine}.
Context (homedir : Path).

(** Commands that make no call to the AI are [converses _ (fun _ _ calls => calls = [])]. *)

Lemma converses_bind {A B : Type} (m : Proc Sys A) (k : A -> Proc Sys B)
      (Q1 : Outcome A -> list string -> list AiCall -> Prop)
      (Q : Outcome B -> list string -> list AiCall -> Prop) :
  converses m Q1 ->
  (forall a u1 c1, Q1 (Returned a) u1 c1 ->
                   converses (k a) (fun o u2 c2 => Q o (u1 ++ u2) (c1 ++ c2))) ->
  (forall c u1 c1, Q1 (Exited c) u1 c1 -> Q (Exited c) u1 c1) ->
  (forall t u1 c1, Q1 (Threw t) u1 c1 -> Q (Threw t) u1 c1) ->
  (forall u1 c1, Q1 Waiting u1 c1 -> Q Waiting u1 c1) ->
  converses (Proc.bind m k) Q.
Proof.
  intros Hm Hk He Ht Hw mc. unfold Proc.bind.
  destruct (Hm mc) as (u1 & c1 & Hu & Hc & HQ1).
  destruct (m mc) as [[a|c|t|] mc1]; cbn [fst snd] in *.
  - destruct (Hk a _ _ HQ1 mc1) as (u2 & c2 & Hu2 & Hc2 & HQ2).
    exists (u1 ++ u2), (c1 ++ c2). rewrite Hc2, Hc, Hu, Hu2, <- !app_assoc. auto.
  - exists u1, c1. auto.
  - exists u1, c1. auto.
  - exists u1, c1. auto.
Qed.

Lemma quiet_then {A B : Type} (m : Proc Sys A) (k : A -> Proc Sys B)
      (R : list AiCall -> Prop) :
  converses m (fun _ _ calls => calls = []) ->
  R [] ->
  (forall a, converses (k a) (fun _ _ calls => R calls)) ->
  converses (Proc.bind m k) (fun _ _ calls => R calls).
Proof.
  intros Hm HR Hk. apply (converses_bind _ _ _ _ Hm);
    try (intros; subst; exact HR).
  intros a u1 c1 ->. apply Hk.
Qed.

Lemma then_quiet {A B : Type} (m : Proc Sys A) (k : A -> Proc Sys B)
      (R : list AiCall -> Prop) :
  converses m (fun _ _ calls => R calls) ->
  (forall a, converses (k a) (fun _ _ calls => calls = [])) ->
  converses (Proc.bind m k) (fun _ _ calls => R calls).
Proof.
  intros Hm Hk. apply (converses_bind _ _ _ _ Hm); auto.
  intros a u1 c1 HR. apply (converses_weaken _ _ _ (Hk a)).
  intros o u2 c2 ->. rewrite app_nil_r. exact HR.
Qed.

Lemma quiet_io {A : Type} (m : M (World Sys) A) :
  converses (Proc.io m) (fun _ _ calls => calls = []).
Proof.
  intros mc. exists [], []. unfold Proc.io. destruct (m (world mc)). cbn.
  rewrite app_nil_r. auto.
Qed.

Lemma quiet_fs {A : Type} (m : M FS A) :
  converses (Proc.fsio (Sys := Sys) m) (fun _ _ calls => calls = []).
Proof.
  intros mc. exists [], []. unfold Proc.fsio. destruct (m (files mc)). cbn.
  rewrite app_nil_r. auto.
Qed.

Lemma quiet_prompt (question : string) :
  converses (prompt (Sys := Sys) question) (fun _ _ calls => calls = []).
Proof.
  intros mc. unfold prompt. destruct (stdin mc) as [|a rest] eqn:Hin.
  - exists [], []. cbn. rewrite app_nil_r. auto.
  - exists [a], []. cbn. rewrite app_nil_r. auto.
Qed.

Lemma quiet_ret {A : Type} (a : A) :
  converses (Proc.ret (Sys := Sys) a) (fun _ _ calls => calls = []).
Proof. apply converses_ret. reflexivity. Qed.

Lemma quiet_exit {A : Type} (c : Z) :
  converses (Proc.exit (Sys := Sys) (A := A) c) (fun _ _ calls => calls = []).
Proof. intros mc. exists [], []. cbn. rewrite app_nil_r. auto. Qed.

Lemma quiet_throw {A : Type} (t : Thrown) :
  converses (Proc.throw (Sys := Sys) (A := A) t) (fun _ _ calls => calls = []).
Proof. intros mc. exists [], []. cbn. rewrite app_nil_r. auto. Qed.

Ltac hush :=
  unfold checked, push_checked;
  repeat first
    [ apply quiet_io | apply quiet_fs | apply quiet_prompt | apply quiet_ret | apply quiet_exit
    | apply quiet_throw
    | apply (quiet_then _ _ (fun calls => calls = [])); [|reflexivity|intros ?]
    | match goal with |- @converses _ _ (if ?b then _ else _) _ => destruct b end
    | match goal with |- @converses _ _ (match ?x with _ => _ end) _ => destruct x end ].

(** X20. With [--no-ai] the workflow never calls the AI provider:
    nothing of the diff leaves the machine. *)
Theorem run_no_ai_never_calls_ai (opts : Opts) (mc : Machine Sys) :
  noAi opts = true ->
  ai_log (snd (run homedir opts mc)) = ai_log mc.
Proof.
  intros Hno.
  assert (Hrun : converses (run homedir opts) (fun _ _ calls => calls = [])).
  { unfold run, checked, push_checked.
    repeat first
      [ apply quiet_exit
      | match goal with
        | |- @converses _ _ (Proc.bind (getCommitMessage _ _ _) _) _ =>
            apply (then_quiet _ _ (fun calls => calls = []));
            [ apply (converses_weaken _ _ _ (converses_getCommitMessage _ _ _));
              intros o used calls [_ Hc]; destruct calls as [|c calls]; [reflexivity|];
              destruct Hc as [Hf _]; [discriminate|congruence]
            | intros ?; hush ]
        | |- @converses _ _ (Proc.bind _ _) _ =>
            apply (quiet_then _ _ (fun calls => calls = [])); [hush|reflexivity|intros ?]
        | |- @converses _ _ (if ?b then _ else _) _ => destruct b
        end ]. }
  destruct (Hrun mc) as (used & calls & _ & Hc & ->). rewrite Hc, app_nil_r. reflexivity.
Qed.

End WorkflowAndAi.

(** ** The workflow and the answers of git *)

Lemma git_answers_app (a b : list (string * list string * SpawnSyncReturns)) :
  git_answers (a ++ b) = git_answers a ++ git_answers b.
Proof.
  induction a as [|[[cmd args] r] a IH]; cbn [git_answers app]; [reflexivity|].
  destruct (String.eqb cmd "git"); cbn [app]; rewrite IH; reflexivity.
Qed.

Lemma logs_answers {Sys A} (m : Proc (Logged Sys) A)
      (Q : Outcome A -> list Answer -> Prop) (mc : Machine (Logged Sys)) :
  logs m Q -> Q (fst (m mc)) (answers_of m mc).
Proof.
  intros Hm. destruct (Hm mc) as (entries & Ha & HQ).
  unfold answers_of. rewrite Ha, skipn_app, skipn_all, Nat.sub_diag. exact HQ.
Qed.

Section Answers.
Context {Sys : Type} `{Subprocess Sys} `{Network Sys} `{Engine}.

Lemma logged_spawn (cmd : string) (args : list string) (l s : (Logged Sys)) (r : SpawnSyncReturns) :
  spawnSync cmd args l = (r, s) -> answered s = answered l ++ [(cmd, args, r)].
Proof.
  unfold spawnSync at 1. unfold logged_subprocess.
  destruct (spawnSync cmd args (inner l)) as [r' s']. intros Heq.
  injection Heq as Hr Hs. subst. reflexivity.
Qed.

Lemma logs_weaken {A} (m : Proc (Logged Sys) A) (Q Q' : Outcome A -> list Answer -> Prop) :
  logs m Q -> (forall o g, Q o g -> Q' o g) -> logs m Q'.
Proof.
  intros Hm HQ mc. destruct (Hm mc) as (entries & Ha & Hq). exists entries. auto.
Qed.

Lemma logs_ret {A} (a : A) (Q : Outcome A -> list Answer -> Prop) :
  Q (Returned a) [] -> logs (Proc.ret (Sys := (Logged Sys)) a) Q.
Proof. intros HQ mc. exists []. rewrite app_nil_r. auto. Qed.

Lemma logs_exit {A} (c : Z) (Q : Outcome A -> list Answer -> Prop) :
  Q (Exited c) [] -> logs (Proc.exit (Sys := (Logged Sys)) c) Q.
Proof. intros HQ mc. exists []. rewrite app_nil_r. auto. Qed.

Lemma logs_throw {A} (t : Thrown) (Q : Outcome A -> list Answer -> Prop) :
  Q (Threw t) [] -> logs (Proc.throw (Sys := (Logged Sys)) t) Q.
Proof. intros HQ mc. exists []. rewrite app_nil_r. auto. Qed.

Lemma logs_bind {A B} (m : Proc (Logged Sys) A) (k : A -> Proc (Logged Sys) B)
      (Q1 : Outcome A -> list Answer -> Prop)
      (Q : Outcome B -> list Answer -> Prop) :
  logs m Q1 ->
  (forall a g1, Q1 (Returned a) g1 -> logs (k a) (fun o g2 => Q o (g1 ++ g2))) ->
  (forall c g1, Q1 (Exited c) g1 -> Q (Exited c) g1) ->
  (forall t g1, Q1 (Threw t) g1 -> Q (Threw t) g1) ->
  (forall g1, Q1 Waiting g1 -> Q Waiting g1) ->
  logs (Proc.bind m k) Q.
Proof.
  intros Hm Hk He Ht Hw mc. unfold Proc.bind.
  destruct (Hm mc) as (e1 & Ha & HQ1).
  destruct (m mc) as [[a|c|t|] mc1]; cbn [fst snd] in *.
  - destruct (Hk a _ HQ1 mc1) as (e2 & Ha2 & HQ2).
    exists (e1 ++ e2). rewrite Ha2, Ha, <- app_assoc, git_answers_app. auto.
  - exists e1. auto.
  - exists e1. auto.
  - exists e1. auto.
Qed.

(** A step that always returns. *)
Lemma logs_then {A B} (m : Proc (Logged Sys) A) (k : A -> Proc (Logged Sys) B)
      (R : A -> list Answer -> Prop)
      (Q : Outcome B -> list Answer -> Prop) :
  logs m (fun o g => exists a, o = Returned a /\ R a g) ->
  (forall a g1, R a g1 -> logs (k a) (fun o g2 => Q o (g1 ++ g2))) ->
  logs (Proc.bind m k) Q.
Proof.
  intros Hm Hk. apply (logs_bind _ _ _ _ Hm).
  - intros a g1 (a' & Ha & HR). injection Ha as <-. auto.
  - intros c g1 (a & Ha & _). discriminate.
  - intros t g1 (a & Ha & _). discriminate.
  - intros g1 (a & Ha & _). discriminate.
Qed.

(** A computation on the world that returns, with the answers it has had. *)
Lemma logs_io {A} (m : M (World (Logged Sys)) A) (R : A -> list Answer -> Prop) :
  (forall w, exists a w' entries,
      m w = (Ret a, w') /\
      answered (sys w') = answered (sys w) ++ entries /\
      R a (git_answers entries)) ->
  logs (Proc.io m) (fun o g => exists a, o = Returned a /\ R a g).
Proof.
  intros Hm mc. destruct (Hm (world mc)) as (a & w' & entries & Hr & Ha & HR).
  exists entries. unfold Proc.io. rewrite Hr. cbn. eauto.
Qed.

Lemma logs_log (line : string) :
  logs (Proc.io (console_log (Sys := (Logged Sys)) line))
       (fun o g => exists a, o = Returned a /\ g = []).
Proof.
  apply (logs_io _ (fun _ g => g = [])). intros w.
  exists tt, (after w [ConsoleLog line]), []. rewrite app_nil_r. auto.
Qed.

Lemma logs_log_then {B} (line : string) (k : unit -> Proc (Logged Sys) B)
      (Q : Outcome B -> list Answer -> Prop) :
  logs (k tt) Q -> logs (Proc.bind (Proc.io (console_log line)) k) Q.
Proof.
  intros Hk. eapply logs_then; [apply logs_log|].
  intros [] g1 ->. exact Hk.
Qed.

Lemma logs_header (text : string) :
  logs (Proc.io (header (Sys := (Logged Sys)) text))
       (fun o g => exists a, o = Returned a /\ g = []).
Proof.
  apply (logs_io _ (fun _ g => g = [])). intros w.
  destruct (header_run text w) as (lines & Hh & _).
  exists tt, (after w lines), []. rewrite app_nil_r. auto.
Qed.

Lemma logs_header_then {B} (text : string) (k : unit -> Proc (Logged Sys) B)
      (Q : Outcome B -> list Answer -> Prop) :
  logs (k tt) Q -> logs (Proc.bind (Proc.io (header text)) k) Q.
Proof.
  intros Hk. eapply logs_then; [apply logs_header|].
  intros [] g1 ->. exact Hk.
Qed.

Lemma logs_git (args : list string) :
  logs (Proc.io (git args))
       (fun o g => exists r : GitResult, o = Returned r /\ g = [(args, r)]).
Proof.
  apply (logs_io _ (fun r g => g = [(args, r)])). intros w.
  destruct (spawnSync "git" args (sys w)) as [r s] eqn:Hr.
  exists (git_result r), (mkWorld s (trace w ++ [Spawn "git" args])), [("git", args, r)].
  split; [apply git_last, Hr|]. split; [apply (logged_spawn _ _ _ _ _ Hr) | reflexivity].
Qed.

Lemma logs_git_then {B} (args : list string) (k : GitResult -> Proc (Logged Sys) B)
      (Q : Outcome B -> list Answer -> Prop) :
  (forall r, logs (k r) (fun o g => Q o ((args, r) :: g))) ->
  logs (Proc.bind (Proc.io (git args)) k) Q.
Proof.
  intros Hk. eapply logs_then; [apply logs_git|].
  intros r g1 ->. apply Hk.
Qed.

Lemma logs_checked_git_then {B} (args : list string) (k : GitResult -> Proc (Logged Sys) B)
      (Q : Outcome B -> list Answer -> Prop) :
  (spawnable args = false -> Q (Threw (Raised (arg_failure args))) []) ->
  (spawnable args = true -> forall r, logs (k r) (fun o g => Q o ((args, r) :: g))) ->
  logs (Proc.bind (checked args (Proc.io (git args))) k) Q.
Proof.
  intros Ht Hk. unfold checked. destruct (spawnable args).
  - apply logs_git_then. apply Hk. reflexivity.
  - intros mc. exists []. rewrite app_nil_r. split; [reflexivity|]. apply Ht. reflexivity.
Qed.

Lemma logs_checked {A} (args : list string) (m : Proc (Logged Sys) A)
      (Q : Outcome A -> list Answer -> Prop) :
  (spawnable args = true -> logs m Q) ->
  (spawnable args = false -> Q (Threw (Raised (arg_failure args))) []) ->
  logs (checked args m) Q.
Proof.
  intros Hm Ht. unfold checked. destruct (spawnable args).
  - apply Hm. reflexivity.
  - apply logs_throw. apply Ht. reflexivity.
Qed.

(** A query: one git command, and a value computed from its answer. *)
Lemma logs_query_then {A B} (args : list string) (f : GitResult -> A)
      (k : A -> Proc (Logged Sys) B) (Q : Outcome B -> list Answer -> Prop) :
  (forall r, logs (k (f r)) (fun o g => Q o ((args, r) :: g))) ->
  logs (Proc.bind (Proc.io (r <- git args ;; ret (f r))%js) k) Q.
Proof.
  intros Hk.
  eapply (logs_then _ _ (fun a g => exists r, a = f r /\ g = [(args, r)])).
  - apply (logs_io _ (fun a g => exists r, a = f r /\ g = [(args, r)])). intros w.
    destruct (spawnSync "git" args (sys w)) as [r s] eqn:Hr.
    exists (f (git_result r)), (mkWorld s (trace w ++ [Spawn "git" args])),
           [("git", args, r)].
    split; [rewrite (git_step _ _ _ _ _ Hr); reflexivity|].
    split; [apply (logged_spawn _ _ _ _ _ Hr)|]. exists (git_result r). auto.
  - intros a g1 (r & -> & ->). apply Hk.
Qed.

Lemma logs_prompt_then {B} (question : string) (k : string -> Proc (Logged Sys) B)
      (Q : Outcome B -> list Answer -> Prop) :
  Q Waiting [] ->
  (forall answer, logs (k answer) Q) ->
  logs (Proc.bind (prompt question) k) Q.
Proof.
  intros Hw Hk mc. unfold Proc.bind, prompt.
  destruct (stdin mc) as [|a rest].
  - exists []. rewrite app_nil_r. auto.
  - destruct (Hk (trim a)
               (mkMachine (world mc) (files mc) rest (questions mc ++ [question]) (ai_log mc)))
      as (entries & Ha & HQ).
    exists entries. split; [exact Ha|exact HQ].
Qed.

Lemma logs_fs_then {A B : Type} (m : M FS A) (k : A -> Proc (Logged Sys) B)
      (Q : Outcome B -> list Answer -> Prop) :
  (forall a, logs (k a) Q) ->
  (forall c, Q (Exited c) []) ->
  (forall e, Q (Threw (Native e)) []) ->
  logs (Proc.bind (Proc.fsio m) k) Q.
Proof.
  intros Hk He Ht mc. unfold Proc.bind, Proc.fsio.
  destruct (m (files mc)) as [[a|c|e] fs]; cbn [Proc.lift].
  - destruct (Hk a (mkMachine (world mc) fs (stdin mc) (questions mc) (ai_log mc)))
      as (entries & Ha & HQ).
    exists entries. split; [exact Ha|exact HQ].
  - exists []. rewrite app_nil_r. cbn. auto.
  - exists []. rewrite app_nil_r. cbn. auto.
Qed.

Lemma logs_callAI_then {B} (provider apiKey : json) (text : string)
      (k : string + JsError -> Proc (Logged Sys) B)
      (Q : Outcome B -> list Answer -> Prop) :
  (forall r, logs (k r) Q) ->
  logs (Proc.bind (callAI provider apiKey text) k) Q.
Proof.
  intros Hk mc. unfold Proc.bind, callAI.
  match goal with |- context [k ?r ?m] => destruct (Hk r m) as (entries & Ha & HQ) end.
  exists entries. split; [exact Ha|exact HQ].
Qed.

(** *** The stages *)

Lemma logs_switchBranch (name : string) :
  logs (Proc.io (switchBranch name))
       (fun o g => exists b : string, o = Returned b /\ switched name g b).
Proof.
  apply (logs_io _ (fun b g => switched name g b)). intros w.
  unfold switchBranch, getCurrentBranch, Console.ok, Console.info, Console.err.
  destruct (spawnSync "git" ["checkout"; name] (sys w)) as [r1 s1] eqn:E1.
  rewrite (git_step _ _ _ _ _ E1). apply logged_spawn in E1.
  destruct (ok (git_result r1)) eqn:Hok1.
  { cbv [bind console_log ret after sys trace]. eexists _, _, [_]. split; [reflexivity|]. split; [exact E1|].
    cbn. apply switched_existing. exact Hok1. }
  rewrite log_step.
  destruct (spawnSync "git" ["checkout"; "-b"; name] s1) as [r2 s2] eqn:E2.
  rewrite (git_step _ _ _ r2 s2) by exact E2. apply logged_spawn in E2.
  destruct (ok (git_result r2)) eqn:Hok2.
  { cbv [bind console_log ret after sys trace]. eexists _, _, [_; _]. split; [reflexivity|].
    split; [cbn [sys]; rewrite E2, E1, <- app_assoc; reflexivity|].
    cbn. apply switched_created; assumption. }
  rewrite log_step.
  destruct (spawnSync "git" ["branch"; "--show-current"] s2) as [r3 s3] eqn:E3.
  rewrite (git_step _ _ _ r3 s3) by exact E3. apply logged_spawn in E3.
  cbv [bind console_log ret after sys trace]. eexists _, _, [_; _; _]. split; [reflexivity|].
  split; [cbn [sys]; rewrite E3, E2, E1, <- !app_assoc; reflexivity|].
  cbn. apply (switched_neither name _ _ (git_result r3)); assumption.
Qed.

Lemma logs_getDiff :
  logs (Proc.io getDiff)
       (fun o g => exists d : string, o = Returned d /\ diffed g).
Proof.
  apply (logs_io _ (fun _ g => diffed g)). intros w.
  unfold getDiff.
  destruct (spawnSync "git" ["diff"; "--cached"] (sys w)) as [r1 s1] eqn:E1.
  rewrite (git_step _ _ _ _ _ E1). apply logged_spawn in E1.
  destruct (ok (git_result r1) && negb (is_empty (stdout (git_result r1)))) eqn:Hd.
  { cbv [bind console_log ret after sys trace]. eexists _, _, [_]. split; [reflexivity|]. split; [exact E1|].
    cbn. apply andb_true_iff in Hd as [Hok Hne]. apply diffed_staged; [exact Hok|].
    intros He. rewrite He in Hne. discriminate. }
  destruct (spawnSync "git" ["diff"] s1) as [r2 s2] eqn:E2.
  rewrite (git_step _ _ _ r2 s2) by exact E2. apply logged_spawn in E2.
  cbv [bind console_log ret after sys trace]. eexists _, _, [_; _]. split; [reflexivity|].
  split; [cbn [sys]; rewrite E2, E1, <- app_assoc; reflexivity|].
  cbn. apply diffed_unstaged.
  apply andb_false_iff in Hd as [Hok|Hne]; [left; exact Hok|right].
  destruct (stdout (git_result r1)); [reflexivity|discriminate].
Qed.

Lemma logs_push (branch : string) (force : bool) :
  logs (Proc.io (push branch force))
       (fun o g => exists a : bool, o = Returned a /\ pushed force branch g).
Proof.
  apply (logs_io _ (fun _ g => pushed force branch g)). intros w.
  push_paths branch force w; rewrite Hrun;
    repeat match goal with
           | Hs : spawnSync _ _ _ = _ |- _ => apply logged_spawn in Hs
           end;
    eexists _, _, _;
    (split; [reflexivity|]);
    (split;
     [ cbn [sys];
       repeat match goal with
              | Hs : answered ?s = _ |- context [answered ?s] => rewrite Hs
              end;
       rewrite <- ?app_assoc; reflexivity
     | cbn ]).
  - apply pushed_forced. reflexivity.
  - apply pushed_plain; auto.
  - apply pushed_upstream; auto.
  - apply pushed_after_rebase; auto.
  - apply pushed_rebase_failed; auto.
  - apply pushed_fatal; auto.
Qed.

Lemma logs_push_checked (branch : string) (force : bool) :
  logs (push_checked branch force)
       (fun o g =>
          (has_nul branch = false /\
           exists a : bool, o = Returned a /\ pushed force branch g)
          \/ (has_nul branch = true /\ g = [] /\
              o = Threw (Raised (arg_failure (if force then force_push_cmd branch
                                              else plain_push_cmd branch))))).
Proof.
  unfold push_checked. destruct (has_nul branch).
  - destruct force; unfold Console.warn, Console.info;
      apply logs_log_then; apply logs_throw; right; auto.
  - eapply logs_weaken; [apply logs_push|]. intros o g Hq. left. auto.
Qed.

Lemma logs_handleAiError (provider : string) (e : JsError) :
  logs (Proc.io (handleAiError (Sys := (Logged Sys)) provider e))
       (fun o g => exists a : unit, o = Returned a /\ g = []).
Proof.
  apply (logs_io _ (fun _ g => g = [])). intros w.
  unfold handleAiError, Console.info, Console.err.
  repeat match goal with
         | |- context [if ?b then _ else _] => destruct b
         end;
    rewrite ?log_step; eexists tt, _, []; rewrite app_nil_r;
    (split; [reflexivity|]); split; reflexivity.
Qed.

End Answers.

Section Conduct.
Context {Sys : Type} `{Subprocess Sys} `{Network Sys} `{Engine}.
Context (homedir : Path).

(** Asking for a commit message asks git nothing. *)
Lemma logs_manual_message (Q : Outcome (option string) -> list Answer -> Prop) :
  Q Waiting [] ->
  Q (Returned None) [] ->
  (forall m, m <> EmptyString -> Q (Returned (Some m)) []) ->
  logs (manual_message (Sys := (Logged Sys))) Q.
Proof.
  intros Hw Hn Hs. unfold manual_message.
  apply logs_prompt_then; [exact Hw|].
  intros answer. apply logs_ret. unfold or_null.
  destruct answer; cbn [is_empty]; [exact Hn|apply Hs; discriminate].
Qed.

Lemma logs_ai_fallback (provider : json) (e : JsError)
      (Q : Outcome (option string) -> list Answer -> Prop) :
  Q Waiting [] ->
  Q (Returned None) [] ->
  (forall m, m <> EmptyString -> Q (Returned (Some m)) []) ->
  logs (ai_fallback (Sys := (Logged Sys)) provider e) Q.
Proof.
  intros Hw Hn Hs. unfold ai_fallback.
  eapply logs_then; [apply logs_handleAiError|]. intros [] g1 ->.
  apply logs_log_then. apply logs_manual_message; assumption.
Qed.

Lemma logs_generate (rounds : nat) (provider apiKey : json) (text : string)
      (Q : Outcome (option string) -> list Answer -> Prop) :
  Q Waiting [] ->
  Q (Returned None) [] ->
  (forall m, m <> EmptyString -> Q (Returned (Some m)) []) ->
  logs (generate (Sys := (Logged Sys)) rounds provider apiKey text) Q.
Proof.
  intros Hw Hn Hs. induction rounds as [|rounds IH]; cbn [generate].
  { intros mc. exists []. rewrite app_nil_r. auto. }
  apply logs_log_then. apply logs_callAI_then.
  intros [msg|e]; [|apply logs_ai_fallback; assumption].
  destruct (is_empty msg) eqn:Hmsg; [apply logs_ai_fallback; assumption|].
  apply logs_log_then. apply logs_prompt_then; [exact Hw|]. intros answer.
  cbv zeta.
  destruct (String.eqb _ "y").
  { apply logs_ret. apply Hs. intros ->. discriminate. }
  destruct (String.eqb _ "r"); [exact IH|].
  apply logs_manual_message; assumption.
Qed.

Lemma logs_getCommitMessage (config : json) (diff : string) (no_ai : bool)
      (Q : Outcome (option string) -> list Answer -> Prop) :
  Q Waiting [] ->
  Q (Threw (Raised (null_failure "apiKey"))) [] ->
  Q (Returned None) [] ->
  (forall m, m <> EmptyString -> Q (Returned (Some m)) []) ->
  logs (getCommitMessage (Sys := (Logged Sys)) config diff no_ai) Q.
Proof.
  intros Hw Ht Hn Hs. unfold getCommitMessage.
  assert (Hplain :
    logs (Proc.bind (if negb no_ai
                     then Proc.io (Console.warn "AI not configured — run: gtxr setup")
                     else Proc.ret tt)
                    (fun _ => manual_message (Sys := (Logged Sys)))) Q).
  { destruct no_ai; cbn [negb].
    - eapply logs_then.
      { apply (logs_ret tt (fun o g => exists a, o = Returned a /\ g = [])). eauto. }
      intros [] g1 ->. apply logs_manual_message; assumption.
    - apply logs_log_then. apply logs_manual_message; assumption. }
  destruct (is_null config); [apply logs_throw; exact Ht|].
  destruct (member "apiKey" config) as [apiKey|]; [|exact Hplain].
  destruct (member "provider" config) as [provider|]; [|exact Hplain].
  destruct (truthy apiKey && truthy provider && negb no_ai); [|exact Hplain].
  apply logs_prompt_then; [exact Hw|]. intros answer.
  destruct (negb (is_empty answer) && _); [apply logs_manual_message; assumption|].
  destruct (is_empty diff).
  { apply logs_log_then. apply logs_manual_message; assumption. }
  intros mc. apply logs_generate; assumption.
Qed.

Lemma logs_loadConfig_then {B : Type} (k : json -> Proc (Logged Sys) B)
      (Q : Outcome B -> list Answer -> Prop) :
  (forall v, logs (k v) Q) ->
  logs (Proc.bind (Proc.fsio (loadConfig homedir)) k) Q.
Proof.
  intros Hk mc. unfold Proc.bind, Proc.fsio.
  destruct (loadConfig_total homedir (files mc)) as [v ->]. cbn [Proc.lift].
  destruct (Hk v (mkMachine (world mc) (files mc) (stdin mc) (questions mc) (ai_log mc)))
    as (entries & Ha & HQ).
  exists entries. split; [exact Ha|exact HQ].
Qed.

(** Every run of the workflow is one of the ways of [conducted]. *)
Lemma run_conducted (opts : Opts) :
  logs (run (Sys := (Logged Sys)) homedir opts) (conducted opts).
Proof.
  unfold run.
  apply logs_header_then.
  unfold isGitRepo. apply logs_query_then. intros r0.
  destruct (ok r0) eqn:Hok0; cbn [negb].
  2: { apply logs_log_then. apply logs_exit. constructor. exact Hok0. }
  unfold getRemoteUrl. apply logs_query_then. intros r1.
  apply logs_log_then.
  unfold getCurrentBranch at 1. apply logs_query_then. intros r2.
  change (if ok r2 then stdout r2 else "main") with (reported r2).
  (* the switch *)
  apply (logs_bind _ _
           (fun o g =>
              (exists name : string, o = Returned name /\
                 surveyed opts
                   ([ (["rev-parse"; "--git-dir"], r0);
                      (["remote"; "get-url"; "origin"], r1);
                      (["branch"; "--show-current"], r2) ] ++ g) name)
              \/ (exists wanted, branch opts = Some wanted /\
                    wanted <> EmptyString /\ wanted <> reported r2 /\
                    spawnable ["checkout"; wanted] = false /\ g = [] /\
                    o = Threw (Raised (arg_failure ["checkout"; wanted]))))).
  { destruct (branch opts) as [wanted|] eqn:Hb.
    - destruct (negb (is_empty wanted) && negb (String.eqb wanted (reported r2))) eqn:Hw.
      + apply andb_true_iff in Hw as [Hne Hdiff].
        assert (Hne' : wanted <> EmptyString) by (intros ->; discriminate).
        assert (Hdiff' : wanted <> reported r2).
        { intros He. rewrite He, String.eqb_refl in Hdiff. discriminate. }
        apply logs_checked.
        * intros Hsp. eapply logs_weaken; [apply logs_switchBranch|].
          intros o g (b & -> & Hsw). left. exists b. split; [reflexivity|].
          apply (surveyed_after_switch opts r0 r1 r2 wanted g b); assumption.
        * intros Hnul. right. exists wanted. auto 10.
      + apply logs_ret. left. exists (reported r2). split; [reflexivity|].
        apply surveyed_in_place; [exact Hok0|].
        intros wanted' Hb'. rewrite Hb in Hb'. injection Hb' as <-.
        apply andb_false_iff in Hw as [Hw|Hw].
        * left. destruct wanted; [reflexivity|discriminate].
        * right. apply String.eqb_eq. destruct (String.eqb wanted (reported r2));
            [reflexivity|discriminate].
    - apply logs_ret. left. exists (reported r2). split; [reflexivity|].
      apply surveyed_in_place; [exact Hok0|]. intros wanted' Hc. congruence. }
  2: { intros c g [(a & Ha & _)|(wanted & _ & _ & _ & _ & _ & Ha)]; discriminate. }
  2: { intros t g [(a & Ha & _)|(wanted & Hb & Hne & Hdiff & Hnul & -> & Ha)];
         [discriminate|].
       injection Ha as ->.
       exact (conducted_switch_refused opts r0 r1 r2 wanted Hok0 Hb Hne Hdiff Hnul). }
  2: { intros g [(a & Ha & _)|(wanted & _ & _ & _ & _ & _ & Ha)]; discriminate. }
  intros name g1 [(name0 & Hn & Hsur)|(wanted & _ & _ & _ & _ & _ & Ha)]; [|discriminate].
  injection Hn as <-. cbv beta.
  apply (logs_weaken _
           (fun o g =>
              conducted opts o
                (([ (["rev-parse"; "--git-dir"], r0);
                    (["remote"; "get-url"; "origin"], r1);
                    (["branch"; "--show-current"], r2) ] ++ g1) ++ g))).
  2: { intros o g Hq. cbn [app] in Hq |- *. exact Hq. }
  revert Hsur.
  generalize ([ (["rev-parse"; "--git-dir"], r0);
                (["remote"; "get-url"; "origin"], r1);
                (["branch"; "--show-current"], r2) ] ++ g1).
  intros G HG.
  apply logs_log_then.
  unfold getStatus. apply logs_query_then. intros rs. cbv beta.
  destruct (is_empty (if ok rs then stdout rs else EmptyString)) eqn:Hst.
  { apply logs_log_then. apply logs_exit.
    apply (conducted_no_changes opts G name rs HG).
    destruct (ok rs); [right|left; reflexivity].
    destruct (stdout rs); [reflexivity|discriminate]. }
  assert (HI : inspected opts (G ++ [ (["status"; "--short"], rs) ]) name).
  { constructor; [exact HG| |].
    - destruct (ok rs); [reflexivity|discriminate].
    - destruct (ok rs); [|discriminate]. intros He. rewrite He in Hst. discriminate. }
  apply (logs_weaken _
           (fun o g => conducted opts o ((G ++ [ (["status"; "--short"], rs) ]) ++ g))).
  2: { intros o g Hq. rewrite <- app_assoc in Hq. exact Hq. }
  revert HI. generalize (G ++ [ (["status"; "--short"], rs) ]). clear G HG Hst.
  intros G HG.
  apply logs_log_then.
  apply logs_prompt_then.
  { rewrite app_nil_r. apply (conducted_no_paths opts G name). exact HG. }
  intros filesInput. cbv zeta.
  set (files := if is_empty filesInput then "." else filesInput).
  set (addArgs := if String.eqb files "." then ["."] else split_space files).
  assert (Hargs : addArgs <> []).
  { subst addArgs. destruct (String.eqb files "."); [discriminate|apply split_space_not_nil]. }
  clearbody addArgs. clearbody files.
  apply logs_checked_git_then.
  { intros Hnul. rewrite app_nil_r. apply (conducted_paths_refused opts G name); assumption. }
  intros Hsp ra. cbv beta.
  destruct (ok ra) eqn:Hoka; cbn [negb].
  2: { apply logs_log_then. apply logs_exit.
       apply (conducted_staging_failed opts G name); assumption. }
  apply logs_log_then.
  apply logs_loadConfig_then. intros config.
  eapply logs_then; [apply logs_getDiff|]. intros diff d Hd. cbv beta.
  apply (logs_weaken _
           (fun o g => conducted opts o ((G ++ [ ("add" :: addArgs, ra) ] ++ d) ++ g))).
  2: { intros o g Hq. cbn [app] in Hq. rewrite <- app_assoc in Hq. exact Hq. }
  assert (HS : staged opts (G ++ [ ("add" :: addArgs, ra) ] ++ d) name)
    by (constructor; assumption).
  revert HS. generalize (G ++ [ ("add" :: addArgs, ra) ] ++ d). clear G HG. intros G HG.
  apply (logs_bind _ _
           (fun o g =>
              g = [] /\
              match o with
              | Returned (Some m) => m <> EmptyString
              | Returned None => True
              | Exited _ => False
              | Threw t => t = Raised (null_failure "apiKey")
              | Waiting => True
              end)).
  { apply logs_getCommitMessage; auto. }
  2: { intros c g [_ []]. }
  2: { intros t g [-> ->]. rewrite app_nil_r. apply (conducted_null_config opts G name HG). }
  2: { intros g [-> _]. rewrite app_nil_r. apply (conducted_no_message opts G name HG). }
  intros [message|] g [-> Hm]; cbn [app].
  2: { apply logs_log_then. apply logs_exit. rewrite ?app_nil_r.
       apply (conducted_empty_message opts G name HG). }
  apply logs_checked_git_then.
  { intros Hnul. rewrite app_nil_r.
    apply (conducted_message_refused opts G name); assumption. }
  intros Hspm rc. cbv beta.
  destruct (ok rc) eqn:Hokc; cbn [negb].
  2: { apply logs_log_then. apply logs_exit.
       apply (conducted_commit_failed opts G name); assumption. }
  apply (logs_weaken _
           (fun o g => conducted opts o ((G ++ [ (["commit"; "-m"; message], rc) ]) ++ g))).
  2: { intros o g Hq. rewrite <- app_assoc in Hq. exact Hq. }
  assert (HC : committed opts (G ++ [ (["commit"; "-m"; message], rc) ]) name)
    by (constructor; assumption).
  revert HC. generalize (G ++ [ (["commit"; "-m"; message], rc) ]). clear G HG. intros G HG.
  apply logs_log_then.
  destruct (noPush opts) eqn:Hnp.
  { apply logs_log_then.
    eapply logs_weaken; [apply logs_header|].
    intros o g ([] & -> & ->). rewrite app_nil_r.
    apply (conducted_not_pushed opts G name HG). }
  apply logs_prompt_then.
  { rewrite app_nil_r. apply (conducted_no_push_answer opts G name); assumption. }
  intros answer. cbv zeta.
  destruct (String.eqb _ "y").
  - apply (logs_bind _ _
             (fun o g =>
                (o = Returned tt /\ has_nul name = false /\
                 pushed (forcePush opts) name g)
                \/ (has_nul name = true /\ g = [] /\
                    o = Threw (Raised (arg_failure (if forcePush opts
                                                    then force_push_cmd name
                                                    else plain_push_cmd name)))))).
    { apply (logs_bind _ _ _ _ (logs_push_checked name (forcePush opts))).
      - intros pushed_ok p [(Hn & a & _ & Hp)|(_ & _ & Ha)]; [|discriminate].
        apply logs_ret. left. rewrite app_nil_r. auto.
      - intros c p [(_ & a & Ha & _)|(_ & _ & Ha)]; discriminate.
      - intros t p [(_ & a & Ha & _)|(Hnul & Hp & Ha)]; [discriminate|].
        injection Ha as ->. right. auto.
      - intros p [(_ & a & Ha & _)|(_ & _ & Ha)]; discriminate. }
    2: { intros c p [[Ha _]|(_ & _ & Ha)]; discriminate. }
    2: { intros t p [[Ha _]|(Hnul & -> & Ha)]; [discriminate|].
         injection Ha as ->. rewrite app_nil_r.
         apply (conducted_branch_refused opts G name); assumption. }
    2: { intros p [[Ha _]|(_ & _ & Ha)]; discriminate. }
    intros [] p [(_ & Hn & Hp)|(_ & _ & Ha)]; [|discriminate]. cbv beta.
    eapply logs_weaken; [apply logs_header|].
    intros o g ([] & -> & ->). rewrite app_nil_r.
    apply (conducted_pushed opts G name p); assumption.
  - eapply (logs_then _ _ (fun _ g => g = [])).
    { apply logs_ret. eauto. }
    intros [] p ->. cbv beta.
    eapply logs_weaken; [apply logs_header|].
    intros o g ([] & -> & ->). rewrite !app_nil_r.
    apply (conducted_not_pushed opts G name HG).
Qed.

End Conduct.

(** *** What the ways of the workflow have in common *)



Section Ways.
Context `{Engine}.











Lemma switched_source (opts : Opts) (wanted : string) (sw : list Answer) (b : string) :
  branch opts = Some wanted ->
  switched wanted sw b -> branch_source opts sw b.
Proof.
  intros Hb [r Hok|r1 r2 Hk1 Hk2|r1 r2 r3 Hk1 Hk2].
  - left. exact Hb.
  - left. exact Hb.
  - right. exists r3. split; [|reflexivity]. cbn. auto.
Qed.

Lemma branch_source_app (opts : Opts) (g more : list Answer) (b : string) :
  branch_source opts g b -> branch_source opts (g ++ more) b.
Proof.
  intros [Hb|(r & Hin & Hr)]; [left; exact Hb|].
  right. exists r. split; [|exact Hr]. apply in_or_app. left. exact Hin.
Qed.

Lemma surveyed_source (opts : Opts) (g : list Answer) (name : string) :
  surveyed opts g name -> branch_source opts g name.
Proof.
  intros [r0 r1 r2 Hok _|r0 r1 r2 wanted sw b Hok Hb _ _ _ Hsw].
  - right. exists r2. split; [|reflexivity]. cbn. auto.
  - destruct (switched_source opts wanted sw b Hb Hsw) as [Hl|(r & Hin & Hr)].
    + left. exact Hl.
    + right. exists r. split; [|exact Hr]. apply in_or_app. right. exact Hin.
Qed.

Lemma committed_source (opts : Opts) (g : list Answer) (name : string) :
  committed opts g name -> branch_source opts g name.
Proof.
  intros [g1 b message rc [g2 b2 paths ra d [g3 b3 rs Hs _ _] _ _ _ _] _ _ _].
  repeat apply branch_source_app. exact (surveyed_source _ _ _ Hs).
Qed.

(** No command of the stages before the push is a push or a pull. *)
Lemma committed_no_push (opts : Opts) (g : list Answer) (name : string) :
  committed opts g name ->
  Forall (fun a => ~ In (subcommand (fst a)) ["push"; "pull"]) g.
Proof.
  assert (Hno : forall s : string,
             In s ["rev-parse"; "remote"; "branch"; "checkout"; "status"; "add";
                   "diff"; "commit"] ->
             ~ In s ["push"; "pull"]).
  { intros s Hs [<-|[<-|[]]]; cbn in Hs; intuition discriminate. }
  intros [g1 b message rc [g2 b2 paths ra d [g3 b3 rs Hs _ _] _ _ _ Hd] _ _ _].
  rewrite !Forall_app. repeat split.
  - destruct Hs as [r0 r1 r2 _ _|r0 r1 r2 wanted sw b' _ _ _ _ _ Hsw].
    + repeat constructor; apply Hno; cbn; auto 10.
    + apply Forall_app. split; [repeat constructor; apply Hno; cbn; auto 10|].
      destruct Hsw; repeat constructor; apply Hno; cbn; auto 10.
  - repeat constructor; apply Hno; cbn; auto 10.
  - repeat constructor; apply Hno; cbn; auto 10.
  - destruct Hd; repeat constructor; apply Hno; cbn; auto 10.
  - repeat constructor; apply Hno; cbn; auto 10.
Qed.

Lemma conducted_unforced (opts : Opts) (o : Outcome unit) (g : list Answer) :
  forcePush opts = false ->
  conducted opts o g ->
  Forall (fun a =>
            In (subcommand (fst a)) ["push"; "pull"] ->
            exists b, branch_source opts g b /\ unforced b (fst a))
         g.
Proof.
  intros Hf Hc.
  assert (Hnone : forall g', Forall (fun a => ~ In (subcommand (fst a)) ["push"; "pull"]) g' ->
                             forall S : Answer -> Prop,
                               Forall (fun a => In (subcommand (fst a)) ["push"; "pull"] -> S a) g').
  { intros g' Hg S. eapply List.Forall_impl; [|exact Hg]. intros a Hn Hp. destruct (Hn Hp). }
  assert (Hplain : forall s : string,
             In s ["rev-parse"; "remote"; "branch"; "checkout"; "status"; "add";
                   "diff"; "commit"] ->
             ~ In s ["push"; "pull"]).
  { intros s Hs [<-|[<-|[]]]; cbn in Hs; intuition discriminate. }
  assert (Hsur : forall g' name, surveyed opts g' name ->
             Forall (fun a => ~ In (subcommand (fst a)) ["push"; "pull"]) g').
  { intros g' name [r0 r1 r2 _ _|r0 r1 r2 wanted sw b' _ _ _ _ _ Hsw].
    - repeat constructor; apply Hplain; cbn; auto 10.
    - apply Forall_app. split; [repeat constructor; apply Hplain; cbn; auto 10|].
      destruct Hsw; repeat constructor; apply Hplain; cbn; auto 10. }
  assert (Hins : forall g' name, inspected opts g' name ->
             Forall (fun a => ~ In (subcommand (fst a)) ["push"; "pull"]) g').
  { intros g' name [g3 b3 rs Hs _ _]. apply Forall_app. split; [eapply Hsur; eassumption|].
    repeat constructor; apply Hplain; cbn; auto 10. }
  assert (Hsta : forall g' name, staged opts g' name ->
             Forall (fun a => ~ In (subcommand (fst a)) ["push"; "pull"]) g').
  { intros g' name [g2 b2 paths ra d Hi _ _ _ Hd]. rewrite !Forall_app. repeat split.
    - eapply Hins; eassumption.
    - repeat constructor; apply Hplain; cbn; auto 10.
    - destruct Hd; repeat constructor; apply Hplain; cbn; auto 10. }
  destruct Hc; try (apply Hnone; first
    [ eapply committed_no_push; eassumption
    | eapply Hsta; eassumption
    | eapply Hins; eassumption
    | repeat constructor; apply Hplain; cbn; auto 10 ]).
  - apply Hnone. apply Forall_app. split; [eapply Hsur; eassumption|].
    repeat constructor; apply Hplain; cbn; auto 10.
  - apply Hnone. apply Forall_app. split; [eapply Hins; eassumption|].
    repeat constructor; apply Hplain; cbn; auto 10.
  - apply Hnone. apply Forall_app. split; [eapply Hsta; eassumption|].
    repeat constructor; apply Hplain; cbn; auto 10.
  - apply Forall_app. split.
    + apply Hnone. eapply committed_no_push; eassumption.
    + match goal with Hcm : committed _ _ _ |- _ =>
        pose proof (branch_source_app opts _ p _ (committed_source _ _ _ Hcm)) as Hsrc
      end.
      match goal with Hp : pushed _ _ _ |- _ => rewrite Hf in Hp; destruct Hp end;
        try congruence;
        repeat constructor; intros _; exists name; (split; [exact Hsrc|]);
        unfold unforced; cbn; auto.
Qed.

End Ways.

(** *** The whole program and the answers of git *)

(** The branch asked for is a token of the command line. *)
Lemma parse_loop_branch {Sys : Type} (n : nat) :
  forall (args : list string) (o o' : Opts) (w w' : World Sys) (b : string),
    length args <= n ->
    parse_loop args o w = (Ret o', w') ->
    branch o' = Some b ->
    branch o = Some b \/ In b args.
Proof.
  induction n as [|n IH]; intros [|arg rest] o o' w w' b Hlen Hrun Hb;
    cbn [length] in Hlen; try lia.
  - cbn in Hrun. injection Hrun as <- <-. auto.
  - cbn in Hrun. injection Hrun as <- <-. auto.
  - cbn [parse_loop] in Hrun.
    assert (Hstep : forall o1,
               branch o1 = branch o ->
               parse_loop rest o1 w = (Ret o', w') ->
               branch o = Some b \/ In b (arg :: rest)).
    { intros o1 Ho1 Hr. destruct (IH rest o1 o' w w' b ltac:(lia) Hr Hb) as [Hl|Hin].
      - left. congruence.
      - right. right. exact Hin. }
    destruct (has (toLowerCase arg)); cbn [negb] in Hrun.
    2: { unfold Console.err, Console.info, exit in Hrun. discriminate. }
    repeat match type of Hrun with
           | (if ?c then _ else _) _ = _ =>
               let E := fresh "E" in destruct c eqn:E
           end;
      try (eapply Hstep; [|exact Hrun]; reflexivity).
    destruct rest as [|name rest']; [discriminate|].
    destruct (IH rest' (set_branch name o) o' w w' b ltac:(cbn in Hlen; lia) Hrun Hb)
      as [Hl|Hin].
    + cbn in Hl. injection Hl as ->. right. right. left. reflexivity.
    + right. right. right. exact Hin.
Qed.

Section CommandsAndAnswers.
Context {Sys : Type} `{Subprocess Sys} `{Network Sys} `{Engine}.
Context (homedir : Path).

(** Commands that ask git nothing. *)
Lemma mute_bind {A B} (m : Proc (Logged Sys) A) (k : A -> Proc (Logged Sys) B) :
  logs m (fun _ g => g = []) ->
  (forall a, logs (k a) (fun _ g => g = [])) ->
  logs (Proc.bind m k) (fun _ g => g = []).
Proof.
  intros Hm Hk. apply (logs_bind _ _ _ _ Hm); auto.
  intros a g1 ->. apply Hk.
Qed.

Lemma mute_log (line : string) :
  logs (Proc.io (console_log (Sys := (Logged Sys)) line)) (fun _ g => g = []).
Proof. apply (logs_weaken _ _ _ (logs_log line)). intros o g (a & _ & Hg). exact Hg. Qed.

Lemma mute_header (text : string) :
  logs (Proc.io (header (Sys := (Logged Sys)) text)) (fun _ g => g = []).
Proof. apply (logs_weaken _ _ _ (logs_header text)). intros o g (a & _ & Hg). exact Hg. Qed.

Lemma mute_fs {A : Type} (m : M FS A) : logs (Proc.fsio (Sys := (Logged Sys)) m) (fun _ g => g = []).
Proof.
  intros mc. exists []. rewrite app_nil_r. unfold Proc.fsio.
  destruct (m (files mc)); cbn. auto.
Qed.

Lemma mute_prompt (question : string) :
  logs (prompt (Sys := (Logged Sys)) question) (fun _ g => g = []).
Proof.
  intros mc. exists []. rewrite app_nil_r. unfold prompt.
  destruct (stdin mc); cbn; auto.
Qed.

Lemma mute_npm (args : list string) :
  logs (Proc.io (spawn (Sys := (Logged Sys)) "npm" args)) (fun _ g => g = []).
Proof.
  intros mc. unfold Proc.io, spawn.
  destruct (spawnSync "npm" args (sys (world mc))) as [r s] eqn:Hr.
  exists [("npm", args, r)]. cbn. split; [|reflexivity].
  apply (logged_spawn _ _ _ _ _ Hr).
Qed.

Lemma mute_https (url : string) :
  logs (Proc.io (fun w : World (Logged Sys) =>
                   let (r, s') := https_get url (sys w) in
                   (Ret r, mkWorld s' (trace w))))
       (fun _ g => g = []).
Proof.
  intros mc. exists []. rewrite app_nil_r. unfold Proc.io.
  unfold https_get at 1. cbn [logged_network].
  destruct (https_get url (inner (sys (world mc)))) as [r s]. cbn. auto.
Qed.

Lemma mute_ret {A} (a : A) : logs (Proc.ret (Sys := (Logged Sys)) a) (fun _ g => g = []).
Proof. apply logs_ret. reflexivity. Qed.

Lemma mute_exit {A} (c : Z) : logs (Proc.exit (Sys := (Logged Sys)) (A := A) c) (fun _ g => g = []).
Proof. apply logs_exit. reflexivity. Qed.

Ltac mute :=
  repeat first
    [ apply mute_bind; [|intros ?]
    | apply mute_log | apply mute_header | apply mute_fs | apply mute_prompt
    | apply mute_npm | apply mute_https | apply mute_ret | apply mute_exit
    | match goal with |- @logs _ _ (if ?b then _ else _) _ => destruct b end
    | match goal with |- @logs _ _ (match ?x with _ => _ end) _ => destruct x end ].

Lemma mute_firstRunCheck : logs (firstRunCheck (Sys := (Logged Sys)) homedir) (fun _ g => g = []).
Proof. unfold firstRunCheck. mute. Qed.

Lemma mute_cmdSetup : logs (cmdSetup (Sys := (Logged Sys)) homedir) (fun _ g => g = []).
Proof. unfold cmdSetup. mute. Qed.

Lemma mute_cmdUninstall : logs (cmdUninstall (Sys := (Logged Sys)) homedir) (fun _ g => g = []).
Proof. unfold cmdUninstall, Console.warn, Console.info, Console.ok, Console.err. mute. Qed.

Lemma mute_cmdUpgrade : logs (cmdUpgrade (Sys := (Logged Sys))) (fun _ g => g = []).
Proof.
  unfold cmdUpgrade, upgrade_failed, Console.info, Console.ok, Console.err. mute.
Qed.

Lemma logs_catch {A} (m : Proc (Logged Sys) A) (h : Thrown -> Proc (Logged Sys) A)
      (Q1 Q : Outcome A -> list Answer -> Prop) :
  logs m Q1 ->
  (forall t g1, Q1 (Threw t) g1 -> logs (h t) (fun o g2 => Q o (g1 ++ g2))) ->
  (forall o g, (forall t, o <> Threw t) -> Q1 o g -> Q o g) ->
  logs (Proc.catch m h) Q.
Proof.
  intros Hm Hh Hq mc. unfold Proc.catch.
  destruct (Hm mc) as (e1 & Ha & HQ1).
  destruct (m mc) as [[a|c|t|] mc1]; cbn [fst snd] in *;
    try (exists e1; split; [exact Ha|apply Hq; [discriminate|exact HQ1]]).
  destruct (Hh t _ HQ1 mc1) as (e2 & Ha2 & HQ2).
  exists (e1 ++ e2). rewrite Ha2, Ha, <- app_assoc, git_answers_app. auto.
Qed.

(** The answers of git to the program are those of the workflow for the
    options read from the command line, if any. *)
Lemma main_conducted (argv : list string) :
  logs (main (Sys := (Logged Sys)) homedir argv)
       (fun _ g =>
          g = [] \/
          exists opts o,
            (exists w w' : World (Logged Sys), parseArgs argv w = (Ret opts, w')) /\
            conducted opts o g).
Proof.
  unfold main.
  apply (logs_bind _ _
           (fun o g => g = [] /\
                       forall opts, o = Returned opts ->
                                    exists w w' : World (Logged Sys), parseArgs argv w = (Ret opts, w'))).
  { intros mc. unfold Proc.io.
    destruct (parseArgs_outcomes argv (world mc)) as [[o Ho]|[(x & _ & Hx)|Hb]].
    - exists []. rewrite Ho, app_nil_r. cbn. split; [reflexivity|]. split; [reflexivity|].
      intros opts [= <-]. eauto.
    - exists []. rewrite Hx, app_nil_r. cbn. split; [reflexivity|].
      split; [reflexivity|]. discriminate.
    - exists []. rewrite Hb, app_nil_r. cbn. split; [reflexivity|].
      split; [reflexivity|]. discriminate. }
  2-4: intros; left; tauto.
  intros opts g1 [-> Hparsed]. specialize (Hparsed opts eq_refl). cbn [app].
  assert (Hmute : forall (m : Proc (Logged Sys) unit),
             logs m (fun _ g => g = []) ->
             logs m (fun (_ : Outcome unit) g =>
                       g = [] \/
                       exists opts o,
                         (exists w w' : World (Logged Sys), parseArgs argv w = (Ret opts, w')) /\
                         conducted opts o g)).
  { intros m Hm. apply (logs_weaken _ _ _ Hm). auto. }
  destruct (help opts).
  { apply Hmute. unfold printHelp. mute. }
  destruct (version opts).
  { apply Hmute. mute. }
  destruct (upgrade opts).
  { apply Hmute. apply mute_bind; [|intros; apply mute_exit]. apply mute_cmdUpgrade. }
  destruct (uninstall opts).
  { apply Hmute. apply mute_bind; [|intros; apply mute_exit]. apply mute_cmdUninstall. }
  apply (logs_bind _ _ _ _ mute_firstRunCheck); auto.
  intros [] g1 ->. cbn [app].
  destruct (setup opts).
  { apply Hmute. apply mute_bind; [|intros; apply mute_exit]. apply mute_cmdSetup. }
  apply (logs_catch _ _ (conducted opts)).
  - apply run_conducted.
  - intros t g1 Hw. apply logs_log_then. apply logs_exit.
    right. exists opts, (Threw t). rewrite app_nil_r. auto.
  - intros o g _ Hw. right. exists opts, o. auto.
Qed.

End CommandsAndAnswers.

(** *** The record is invisible

    The program goes on a machine that keeps its answers as it goes on the
    machine inside. *)

Section Echo.
Context {Sys : Type} `{Subprocess Sys} `{Network Sys} `{Engine}.

Lemma echo_io_ret {A} (a : A) :
  echoes_io (Sys := Sys) (ret a) (ret a).
Proof. intros w. reflexivity. Qed.

Lemma echo_io_exit {A} (c : Z) :
  echoes_io (Sys := Sys) (A := A) (exit c) (exit c).
Proof. intros w. reflexivity. Qed.

Lemma echo_io_log (line : string) :
  echoes_io (Sys := Sys) (console_log line) (console_log line).
Proof. intros w. reflexivity. Qed.

Lemma echo_io_bind {A B} (m : M (World (Logged Sys)) A) (m' : M (World Sys) A)
      (k : A -> M (World (Logged Sys)) B) (k' : A -> M (World Sys) B) :
  echoes_io m m' ->
  (forall a, echoes_io (k a) (k' a)) ->
  echoes_io (bind m k) (bind m' k').
Proof.
  intros Hm Hk w. unfold bind. rewrite (Hm w).
  destruct (m w) as [[a|c|e] w1]; cbn [fst snd]; [apply Hk|reflexivity|reflexivity].
Qed.

Lemma echo_io_spawn (cmd : string) (args : list string) :
  echoes_io (spawn cmd args) (spawn cmd args).
Proof.
  intros w. unfold spawn. cbn [forget_world sys trace].
  unfold spawnSync at 2 3. unfold logged_subprocess.
  destruct (spawnSync cmd args (inner (sys w))) as [r s]. reflexivity.
Qed.

Lemma echo_io_git (args : list string) :
  echoes_io (git args) (git args).
Proof.
  intros w. unfold git. cbn [forget_world sys trace].
  unfold spawnSync at 2 3. unfold logged_subprocess.
  destruct (spawnSync "git" args (inner (sys w))) as [r s]. reflexivity.
Qed.

Ltac echo_io :=
  unfold Console.ok, Console.err, Console.info, Console.warn;
  repeat first
    [ apply echo_io_bind; [|intros ?]
    | apply echo_io_git | apply echo_io_log | apply echo_io_ret | apply echo_io_exit
    | apply echo_io_spawn
    | match goal with
      | |- echoes_io (if ?b then _ else _) _ => destruct b
      | |- echoes_io (match ?x with _ => _ end) _ => destruct x
      end ].

Lemma echo_io_header (text : string) : echoes_io (Sys := Sys) (header text) (header text).
Proof. unfold header. echo_io. Qed.

Lemma echo_io_push (branch : string) (force : bool) :
  echoes_io (push branch force) (push branch force).
Proof. unfold push. echo_io. Qed.

Lemma echo_io_switchBranch (name : string) :
  echoes_io (switchBranch name) (switchBranch name).
Proof. unfold switchBranch, getCurrentBranch. echo_io. Qed.

Lemma echo_io_getDiff : echoes_io getDiff getDiff.
Proof. unfold getDiff. echo_io. Qed.

Lemma echo_io_handleAiError (provider : string) (e : JsError) :
  echoes_io (Sys := Sys) (handleAiError provider e) (handleAiError provider e).
Proof. unfold handleAiError. echo_io. Qed.

Lemma echo_io_parse_loop (n : nat) :
  forall (args : list string) (o : Opts),
    length args <= n ->
    echoes_io (Sys := Sys) (parse_loop args o) (parse_loop args o).
Proof.
  induction n as [|n IH]; intros [|arg rest] o Hlen; cbn [length] in Hlen; try lia;
    cbn [parse_loop]; try apply echo_io_ret.
  assert (Hrest : forall o1, echoes_io (Sys := Sys) (parse_loop rest o1) (parse_loop rest o1)).
  { intros o1. apply IH. lia. }
  destruct (negb (has (toLowerCase arg))); [echo_io|].
  repeat match goal with
         | |- echoes_io (if ?b then _ else _) _ => destruct b; [try apply Hrest|]
         end;
    try apply Hrest.
  destruct rest as [|name rest']; [echo_io|].
  apply IH. cbn [length] in Hlen. lia.
Qed.

(** **** Commands *)

Lemma echo_ret {A} (a : A) : echoes (Sys := Sys) (Proc.ret a) (Proc.ret a).
Proof. intros mc. reflexivity. Qed.

Lemma echo_exit {A} (c : Z) : echoes (Sys := Sys) (A := A) (Proc.exit c) (Proc.exit c).
Proof. intros mc. reflexivity. Qed.

Lemma echo_throw {A} (t : Thrown) :
  echoes (Sys := Sys) (A := A) (Proc.throw t) (Proc.throw t).
Proof. intros mc. reflexivity. Qed.

Lemma echo_bind {A B} (m : Proc (Logged Sys) A) (m' : Proc Sys A)
      (k : A -> Proc (Logged Sys) B) (k' : A -> Proc Sys B) :
  echoes m m' ->
  (forall a, echoes (k a) (k' a)) ->
  echoes (Proc.bind m k) (Proc.bind m' k').
Proof.
  intros Hm Hk mc. unfold Proc.bind. rewrite (Hm mc).
  destruct (m mc) as [[a|c|t|] mc1]; cbn [fst snd];
    [apply Hk|reflexivity|reflexivity|reflexivity].
Qed.

Lemma echo_catch {A} (m : Proc (Logged Sys) A) (m' : Proc Sys A)
      (h : Thrown -> Proc (Logged Sys) A) (h' : Thrown -> Proc Sys A) :
  echoes m m' ->
  (forall t, echoes (h t) (h' t)) ->
  echoes (Proc.catch m h) (Proc.catch m' h').
Proof.
  intros Hm Hh mc. unfold Proc.catch. rewrite (Hm mc).
  destruct (m mc) as [[a|c|t|] mc1]; cbn [fst snd];
    [reflexivity|reflexivity|apply Hh|reflexivity].
Qed.

Lemma echo_io {A} (m : M (World (Logged Sys)) A) (m' : M (World Sys) A) :
  echoes_io m m' -> echoes (Proc.io m) (Proc.io m').
Proof.
  intros Hm mc. unfold Proc.io. cbn [forget world]. rewrite (Hm (world mc)).
  destruct (m (world mc)) as [r w]. reflexivity.
Qed.

Lemma echo_fsio {A} (m : M FS A) : echoes (Sys := Sys) (Proc.fsio m) (Proc.fsio m).
Proof.
  intros mc. unfold Proc.fsio. cbn [forget files].
  destruct (m (files mc)) as [r fs]. reflexivity.
Qed.

Lemma echo_prompt (question : string) :
  echoes (Sys := Sys) (prompt question) (prompt question).
Proof.
  intros mc. unfold prompt. cbn [forget stdin].
  destruct (stdin mc); reflexivity.
Qed.

Lemma echo_callAI (provider apiKey : json) (text : string) :
  echoes (callAI provider apiKey text) (callAI provider apiKey text).
Proof. intros mc. reflexivity. Qed.

Lemma echo_https (url : string) :
  echoes (Proc.io (fun w : World (Logged Sys) =>
                     let (r, s') := https_get url (sys w) in (Ret r, mkWorld s' (trace w))))
         (Proc.io (fun w : World Sys =>
                     let (r, s') := https_get url (sys w) in (Ret r, mkWorld s' (trace w)))).
Proof.
  apply echo_io. intros w. cbn [forget_world sys trace].
  unfold https_get at 2 3. cbn [logged_network].
  destruct (https_get url (inner (sys w))) as [r s]. reflexivity.
Qed.

Ltac echo :=
  unfold checked, Console.ok, Console.err, Console.info, Console.warn;
  repeat first
    [ apply echo_bind; [|intros ?]
    | apply echo_https
    | apply echo_io; first
        [ apply echo_io_log | apply echo_io_header | apply echo_io_git
        | apply echo_io_spawn | apply echo_io_push | apply echo_io_switchBranch
        | apply echo_io_getDiff | apply echo_io_handleAiError
        | solve [echo_io] ]
    | apply echo_fsio | apply echo_prompt | apply echo_callAI
    | apply echo_ret | apply echo_exit | apply echo_throw
    | match goal with
      | |- echoes (if ?b then _ else _) _ => destruct b
      | |- echoes (match ?x with _ => _ end) _ => destruct x
      end ].

Lemma echo_manual_message : echoes (Sys := Sys) manual_message manual_message.
Proof. unfold manual_message. echo. Qed.

Lemma echo_ai_fallback (provider : json) (e : JsError) :
  echoes (Sys := Sys) (ai_fallback provider e) (ai_fallback provider e).
Proof. unfold ai_fallback. echo. Qed.

Lemma echo_generate (rounds : nat) (provider apiKey : json) (text : string) :
  echoes (generate rounds provider apiKey text) (generate rounds provider apiKey text).
Proof.
  induction rounds as [|rounds IH]; cbn [generate]; [intros mc; reflexivity|].
  echo; first [apply echo_ai_fallback | apply echo_manual_message | exact IH].
Qed.

Lemma echo_getCommitMessage (config : json) (diff : string) (no_ai : bool) :
  echoes (getCommitMessage config diff no_ai) (getCommitMessage config diff no_ai).
Proof.
  unfold getCommitMessage. echo; try apply echo_manual_message.
  intros mc. cbn [forget stdin]. apply echo_generate.
Qed.

Lemma echo_push_checked (branch : string) (force : bool) :
  echoes (push_checked branch force) (push_checked branch force).
Proof. unfold push_checked. echo. Qed.

Lemma echo_run (homedir : Path) (opts : Opts) :
  echoes (run homedir opts) (run homedir opts).
Proof.
  unfold run, isGitRepo, getRemoteUrl, getStatus, getCurrentBranch. cbv zeta.
  echo; first [apply echo_getCommitMessage | apply echo_push_checked].
Qed.

Lemma echo_main (homedir : Path) (argv : list string) :
  echoes (main homedir argv) (main homedir argv).
Proof.
  unfold main.
  apply echo_bind.
  { apply echo_io. unfold parseArgs. apply (echo_io_parse_loop _ _ _ (le_n _)). }
  intros opts.
  unfold printHelp, cmdUpgrade, upgrade_failed, cmdUninstall, firstRunCheck, cmdSetup.
  cbv zeta.
  echo; try apply echo_catch; try apply echo_run; intros; echo.
Qed.

End Echo.

Section AnswerProperties.
Context {Sys : Type} `{Subprocess Sys} `{Network Sys} `{Engine}.
Context (homedir : Path).


(** X9. Without [--force-push] the workflow adds no option of its own to
    a push: on a machine that keeps its answers the run goes as on the
    machine inside, and every [git push] it runs is [push origin <b>] or
    [push --set-upstream origin <b>], and every [git pull] is
    [pull --rebase origin <b>], where the word [<b>] is the branch named on
    the command line or the branch git reported for
    [branch --show-current] ([main] when that failed). *)
Theorem run_forces_only_on_flag (opts : Opts) (mc : Machine (Logged Sys)) :
  forcePush opts = false ->
  run homedir opts (forget mc) =
    (fst (run homedir opts mc), forget (snd (run homedir opts mc)))
  /\
  Forall (fun a =>
            In (subcommand (fst a)) ["push"; "pull"] ->
            exists b,
              branch_source opts (answers_of (run homedir opts) mc) b /\
              unforced b (fst a))
         (answers_of (run homedir opts) mc).
Proof.
  intros Hf. split; [apply echo_run|].
  exact (conducted_unforced opts _ _ Hf (logs_answers _ _ mc (run_conducted homedir opts))).
Qed.

(** X12. End to end: on a command line none of whose tokens is
    [--force-push] (in any case of the letters), well formed or not, the
    program goes on a machine that keeps its answers as on the machine
    inside, and every [git push] it runs is [push origin <b>] or
    [push --set-upstream origin <b>], and every [git pull] is
    [pull --rebase origin <b>], where the word [<b>] is a token of the
    command line or the branch git reported for [branch --show-current]
    ([main] when that failed). *)
Theorem main_force_push_needs_flag (argv : list string) (mc : Machine (Logged Sys)) :
  given ["--force-push"] (skipn 2 argv) = false ->
  main homedir argv (forget mc) =
    (fst (main homedir argv mc), forget (snd (main homedir argv mc)))
  /\
  Forall (fun a =>
            In (subcommand (fst a)) ["push"; "pull"] ->
            exists b,
              (In b (skipn 2 argv)
               \/ exists r, In (["branch"; "--show-current"], r)
                               (answers_of (main homedir argv) mc) /\
                            b = reported r) /\
              unforced b (fst a))
         (answers_of (main homedir argv) mc).
Proof.
  intros Hg. split; [apply echo_main|].
  destruct (logs_answers _ _ mc (main_conducted homedir argv))
    as [-> | (opts & o & (w & w' & Hp) & Hc)]; [constructor|].
  assert (Hf : forcePush opts = false).
  { destruct (forcePush opts) eqn:Hf; [|reflexivity].
    destruct (parse_loop_forcePush _ _ _ _ _ _ (le_n _) Hp Hf) as [Hd|Hgiven].
    - discriminate.
    - congruence. }
  eapply List.Forall_impl; [|exact (conducted_unforced opts o _ Hf Hc)].
  intros a Ha Hsub. destruct (Ha Hsub) as (b & [Hb|Hr] & Hu).
  - exists b. split; [left|exact Hu].
    destruct (parse_loop_branch _ _ _ _ _ _ b (le_n _) Hp Hb) as [Hd|Hin].
    + discriminate.
    + exact Hin.
  - exists b. split; [right; exact Hr|exact Hu].
Qed.

End AnswerProperties.


Lemma run_forces_only_on_flag_witness :
  Forall (fun a =>
            In (subcommand (fst a)) ["push"; "pull"] ->
            exists b,
              branch_source default_opts
                (answers_of (run ["home"; "u"] default_opts)
                   (logged_machine
                      [ exited 0 ".git" EmptyString; exited 0 "git@host:r.git" EmptyString;
                        exited 0 "main" EmptyString; exited 0 " M a.txt" EmptyString;
                        exited 0 EmptyString EmptyString; exited 0 "+line" EmptyString;
                        exited 0 EmptyString EmptyString;
                        exited 1 EmptyString "! [rejected] main -> main (fetch first)";
                        exited 0 EmptyString EmptyString; exited 0 EmptyString EmptyString ]
                      [ "a.txt"; "Fix a"; "y" ] ∅)) b /\
              unforced b (fst a))
    (answers_of (run ["home"; "u"] default_opts)
       (logged_machine
          [ exited 0 ".git" EmptyString; exited 0 "git@host:r.git" EmptyString;
            exited 0 "main" EmptyString; exited 0 " M a.txt" EmptyString;
            exited 0 EmptyString EmptyString; exited 0 "+line" EmptyString;
            exited 0 EmptyString EmptyString;
            exited 1 EmptyString "! [rejected] main -> main (fetch first)";
            exited 0 EmptyString EmptyString; exited 0 EmptyString EmptyString ]
          [ "a.txt"; "Fix a"; "y" ] ∅)).
Proof.
  apply (proj2 (run_forces_only_on_flag ["home"; "u"] default_opts _ eq_refl)).
Defined.

Lemma main_force_push_needs_flag_witness :
  Forall (fun a =>
            In (subcommand (fst a)) ["push"; "pull"] ->
            exists b,
              (In b ["-b"; "dev"; "--No-Ai"]
               \/ exists r,
                    In (["branch"; "--show-current"], r)
                       (answers_of (main ["home"; "u"] ["node"; "gtxr"; "-b"; "dev"; "--No-Ai"])
                          (logged_machine
                             [ exited 0 ".git" EmptyString;
                               exited 0 "git@host:r.git" EmptyString;
                               exited 0 "main" EmptyString; exited 0 EmptyString EmptyString;
                               exited 0 " M a.txt" EmptyString;
                               exited 0 EmptyString EmptyString;
                               exited 0 "+line" EmptyString; exited 0 EmptyString EmptyString;
                               exited 0 EmptyString EmptyString ]
                             [ "."; "Fix a"; "y" ] ∅)) /\
                    b = reported r) /\
              unforced b (fst a))
    (answers_of (main ["home"; "u"] ["node"; "gtxr"; "-b"; "dev"; "--No-Ai"])
       (logged_machine
          [ exited 0 ".git" EmptyString; exited 0 "git@host:r.git" EmptyString;
            exited 0 "main" EmptyString; exited 0 EmptyString EmptyString;
            exited 0 " M a.txt" EmptyString; exited 0 EmptyString EmptyString;
            exited 0 "+line" EmptyString; exited 0 EmptyString EmptyString;
            exited 0 EmptyString EmptyString ]
          [ "."; "Fix a"; "y" ] ∅)).
Proof.
  apply (proj2 (main_force_push_needs_flag ["home"; "u"]
                  ["node"; "gtxr"; "-b"; "dev"; "--No-Ai"] _ eq_refl)).
Defined.

(** ** The theorems at work *)

(** [slice] counts UTF-16 code units: U+00E9 is one, U+1F600 is two, and a
    cut between the two leaves the high surrogate. *)
Lemma slice_counts_code_units :
  slice 4 ("a" +:+ utf8 233 +:+ utf8 128512 +:+ "z") = "a" +:+ utf8 233 +:+ utf8 128512
  /\ slice 3 ("a" +:+ utf8 233 +:+ utf8 128512 +:+ "z") = "a" +:+ utf8 233 +:+ utf8 55357.
Proof. split; vm_compute; reflexivity. Qed.

(** A commit message that holds U+0000 is refused by [spawnSync]: the
    workflow throws after staging, nothing is committed, and the program
    reports the error and exits with code 1. *)
Lemma main_refuses_nul_message :
  fst (run ["home"; "u"] (set_noAi default_opts)
         (machine [ exited 0 ".git" EmptyString; exited 0 "git@host:r.git" EmptyString;
                    exited 0 "main" EmptyString; exited 0 " M a.txt" EmptyString;
                    exited 0 EmptyString EmptyString; exited 0 "+line" EmptyString ]
                  [ "."; "Fix" +:+ str1 0 +:+ "a" ] ∅)) =
    Threw (Raised (arg_failure ["commit"; "-m"; "Fix" +:+ str1 0 +:+ "a"]))
  /\ fst (main ["home"; "u"] ["node"; "gtxr"; "--no-ai"]
            (machine [ exited 0 ".git" EmptyString; exited 0 "git@host:r.git" EmptyString;
                       exited 0 "main" EmptyString; exited 0 " M a.txt" EmptyString;
                       exited 0 EmptyString EmptyString; exited 0 "+line" EmptyString ]
                     [ "."; "Fix" +:+ str1 0 +:+ "a" ] ∅)) = Exited 1
  /\ git_calls (trace (world (snd
        (main ["home"; "u"] ["node"; "gtxr"; "--no-ai"]
           (machine [ exited 0 ".git" EmptyString; exited 0 "git@host:r.git" EmptyString;
                      exited 0 "main" EmptyString; exited 0 " M a.txt" EmptyString;
                      exited 0 EmptyString EmptyString; exited 0 "+line" EmptyString ]
                    [ "."; "Fix" +:+ str1 0 +:+ "a" ] ∅))))) =
     [ ["rev-parse"; "--git-dir"]; ["remote"; "get-url"; "origin"];
       ["branch"; "--show-current"]; ["status"; "--short"]; ["add"; "."];
       ["diff"; "--cached"] ].
Proof. repeat split; vm_compute; reflexivity. Qed.

(** With the answer [y] followed by a no-break space, the uninstallation
    goes ahead: the answer is trimmed as [String.prototype.trim] does. *)
Lemma cmdUninstall_trims_answer :
  files (snd (cmdUninstall ["home"; "u"]
                (machine [exited 0 EmptyString EmptyString] ["y" +:+ utf8 160]
                         {[ ["home"; "u"; ".gtxr"] := Dir ]}))) = ∅
  /\ calls_of "npm"
       (events_of (cmdUninstall ["home"; "u"])
          (machine [exited 0 EmptyString EmptyString] ["y" +:+ utf8 160]
                   {[ ["home"; "u"; ".gtxr"] := Dir ]})) =
     [ ["uninstall"; "-g"; "gtxr"] ].
Proof. split; vm_compute; reflexivity. Qed.

Lemma main_commands_run_no_git_witness :
  calls_of "git"
    (events_of (main ["home"; "u"] ["node"; "gtxr"; "Setup"; "--no-push"])
       (machine [] ["gemini"; "key-1"] {[ ["home"; "u"] := Dir ]})) = [].
Proof.
  apply (main_commands_run_no_git ["home"; "u"] ["node"; "gtxr"; "Setup"; "--no-push"]
           (machine [] ["gemini"; "key-1"] {[ ["home"; "u"] := Dir ]})
           (set_noPush (set_setup default_opts)) (mkWorld [] [])).
  - vm_compute. reflexivity.
  - reflexivity.
Defined.

Lemma main_upgrade_exits_0_witness :
  fst (main ["home"; "u"] ["node"; "gtxr"; "upgrade"]
         (machine [exited 1 EmptyString "EACCES"] [] ∅)) = Exited 0.
Proof.
  apply (main_upgrade_exits_0 ["home"; "u"] ["node"; "gtxr"; "upgrade"]
           (machine [exited 1 EmptyString "EACCES"] [] ∅)
           (set_upgrade default_opts) (mkWorld [exited 1 EmptyString "EACCES"] [])).
  - vm_compute. reflexivity.
  - reflexivity.
  - reflexivity.
  - reflexivity.
Defined.

Lemma cmdSetup_saves_what_loadConfig_reads_witness :
  files (snd (cmdSetup ["home"; "u"]
                (machine [] ["OpenAI" +:+ utf8 160; utf8 12288 +:+ "sk-1 "] {[ ["home"; "u"] := Dir ]}))) =
    files (machine [] ["OpenAI" +:+ utf8 160; utf8 12288 +:+ "sk-1 "] {[ ["home"; "u"] := Dir ]})
  \/ exists p k rest,
       stdin (machine [] ["OpenAI" +:+ utf8 160; utf8 12288 +:+ "sk-1 "] {[ ["home"; "u"] := Dir ]}) = p :: k :: rest /\
       stdin (snd (cmdSetup ["home"; "u"]
                     (machine [] ["OpenAI" +:+ utf8 160; utf8 12288 +:+ "sk-1 "] {[ ["home"; "u"] := Dir ]}))) = rest /\
       In (toLowerCase (trim p)) PROVIDERS /\
       trim k <> EmptyString /\
       loadConfig ["home"; "u"]
         (files (snd (cmdSetup ["home"; "u"]
                        (machine [] ["OpenAI" +:+ utf8 160; utf8 12288 +:+ "sk-1 "] {[ ["home"; "u"] := Dir ]})))) =
         (Ret (config_object (mkConfig (toLowerCase (trim p)) (trim k))),
          files (snd (cmdSetup ["home"; "u"]
                        (machine [] ["OpenAI" +:+ utf8 160; utf8 12288 +:+ "sk-1 "] {[ ["home"; "u"] := Dir ]})))).
Proof.
  apply cmdSetup_saves_what_loadConfig_reads. vm_compute. reflexivity.
Defined.

Lemma cmdUninstall_needs_yes_witness :
  files (snd (cmdUninstall ["home"; "u"]
                (machine [] ["yes"] {[ ["home"; "u"; ".gtxr"] := Dir ]}))) =
    files (machine [] ["yes"] {[ ["home"; "u"; ".gtxr"] := Dir ]}) /\
  forall cmd,
    calls_of cmd
      (events_of (cmdUninstall ["home"; "u"])
         (machine [] ["yes"] {[ ["home"; "u"; ".gtxr"] := Dir ]})) = [].
Proof.
  apply (cmdUninstall_needs_yes ["home"; "u"]
           (machine [] ["yes"] {[ ["home"; "u"; ".gtxr"] := Dir ]})).
  intros a rest Hin. injection Hin as <- _. vm_compute. discriminate.
Defined.

Lemma firstRunCheck_once_witness :
  firstRunCheck ["home"; "u"]
    (snd (firstRunCheck ["home"; "u"] (machine [] [] {[ ["home"; "u"] := Dir ]}))) =
    (Returned tt,
     snd (firstRunCheck ["home"; "u"] (machine [] [] {[ ["home"; "u"] := Dir ]}))).
Proof.
  apply firstRunCheck_once. vm_compute. reflexivity.
Defined.

Lemma run_no_ai_never_calls_ai_witness :
  ai_log (snd (run ["home"; "u"] (set_noAi (set_noPush default_opts))
                 (machine [ exited 0 ".git" EmptyString; exited 0 "git@host:r.git" EmptyString;
                            exited 0 "main" EmptyString; exited 0 " M a.txt" EmptyString;
                            exited 0 EmptyString EmptyString; exited 0 "+line" EmptyString;
                            exited 0 EmptyString EmptyString ]
                          [ "."; "y"; "y" ]
                          {[ ["home"; "u"; ".gtxr"; "config.json"] :=
                               File (JSON_stringify (config_object (mkConfig "openai" "sk-1")))
                                    384%N ]}))) = []
  /\ ai_log (snd (run ["home"; "u"] (set_noPush default_opts)
                    (machine [ exited 0 ".git" EmptyString;
                               exited 0 "git@host:r.git" EmptyString;
                               exited 0 "main" EmptyString; exited 0 " M a.txt" EmptyString;
                               exited 0 EmptyString EmptyString; exited 0 "+line" EmptyString;
                               exited 0 EmptyString EmptyString ]
                             [ "."; "y"; "y" ]
                             {[ ["home"; "u"; ".gtxr"; "config.json"] :=
                                  File (JSON_stringify (config_object (mkConfig "openai" "sk-1")))
                                       384%N ]}))) =
     [ mkAiCall (JString "openai") (JString "sk-1") (ai_prompt_for "+line")
                (inl "Update files") ].
Proof.
  split.
  - apply (run_no_ai_never_calls_ai ["home"; "u"] (set_noAi (set_noPush default_opts))).
    reflexivity.
  - vm_compute. reflexivity.
Defined.

Lemma main_help_and_version_only_print_witness :
  main ["home"; "u"] ["node"; "gtxr"; "uninstall"; "--HELP"]
    (machine [] ["y"] {[ ["home"; "u"; ".gtxr"] := Dir ]}) =
    (Exited 0,
     mkMachine (after (mkWorld [] []) [ConsoleLog help_text])
               {[ ["home"; "u"; ".gtxr"] := Dir ]} ["y"] [] []).
Proof.
  apply (proj1 (main_help_and_version_only_print ["home"; "u"]
                  ["node"; "gtxr"; "uninstall"; "--HELP"]
                  (machine [] ["y"] {[ ["home"; "u"; ".gtxr"] := Dir ]})
                  (set_help (set_uninstall default_opts)) (mkWorld [] [])
                  ltac:(vm_compute; reflexivity))).
  reflexivity.
Defined.
